(** * Monitord desktop: the agent lifecycle supervisor of [main.js]

    A shallow embedding of the Electron main process of the Monitord
    desktop shell (the file that declares [withAgentOp],
    [resolveBackendBaseUrl], [stopAgentProcess], [waitForBackendReady],
    [startAgentManaged] and the [ipcMain] handlers), and the properties
    of it that the specification states.

    Layout
    - [JsString]: the JavaScript string methods the source calls.
    - [BaseUrl]: [resolveBackendBaseUrl].
    - the world (child processes, files, clock), asynchronous programs
      and the operations built from them;
    - the serializer [withAgentOp] as an event loop;
    - the theorems, one group per property. *)

From Stdlib Require Import String Ascii ZArith NArith List Bool Lia FunInd.
From stdpp Require Import base option list sorting gmap strings.

Local Open Scope Z_scope.

(** ** JavaScript strings

    A string is held as the bytes of its UTF-8 encoding
    ([Stdlib.String]), which is also what the literals of this file
    are.  The strings of the source are sequences of UTF-16 code units
    and its indices count those; here they count bytes.  Every index
    the source computes is the position of a bracket or of a colon, one
    byte and one code unit each and never part of a longer sequence, so
    that the slices it takes are the same text in both encodings.  [trim] works
    on code points: it decodes the sequences of one to three bytes, which
    cover the Basic Multilingual Plane and with it every white-space
    character. *)
Module JsString.

(** The value of a byte. *)
Definition byte (c : ascii) : N := N_of_ascii c.

(** A byte that continues a multi-byte sequence. *)
Definition isContinuation (c : ascii) : bool :=
  (128 <=? byte c)%N && (byte c <=? 191)%N.

(** The code point that a sequence of one, two or three bytes encodes,
    if it is the encoding of one. *)
Definition decode1 (a : ascii) : option N :=
  if (byte a <? 128)%N then Some (byte a) else None.

Definition decode2 (a b : ascii) : option N :=
  if (194 <=? byte a)%N && (byte a <=? 223)%N && isContinuation b
  then Some ((byte a - 192) * 64 + (byte b - 128))%N
  else None.

Definition decode3 (a b c : ascii) : option N :=
  if (224 <=? byte a)%N && (byte a <=? 239)%N && isContinuation b && isContinuation c
  then let v := ((byte a - 224) * 4096 + (byte b - 128) * 64 + (byte c - 128))%N in
       if (2048 <=? v)%N then Some v else None
  else None.

(** The code points of the classes WhiteSpace and LineTerminator, which
    [trim] removes: TAB, LF, VT, FF, CR, SP, U+00A0, U+1680,
    U+2000 to U+200A, U+2028, U+2029, U+202F, U+205F, U+3000, U+FEFF. *)
Definition isWhiteSpace (cp : N) : bool :=
  ((9 <=? cp) && (cp <=? 13) || (cp =? 32) || (cp =? 160) || (cp =? 5760) ||
   (8192 <=? cp) && (cp <=? 8202) || (cp =? 8232) || (cp =? 8233) || (cp =? 8239) ||
   (cp =? 8287) || (cp =? 12288) || (cp =? 65279))%N.

Definition white (cp : option N) : bool :=
  match cp with
  | Some n => isWhiteSpace n
  | None => false
  end.

(** [String.prototype.trimStart] *)
Fixpoint trimStart (s : string) : string :=
  match s with
  | String a s1 =>
      if white (decode1 a) then trimStart s1
      else match s1 with
           | String b s2 =>
               if white (decode2 a b) then trimStart s2
               else match s2 with
                    | String c s3 => if white (decode3 a b c) then trimStart s3 else s
                    | EmptyString => s
                    end
           | EmptyString => s
           end
  | EmptyString => s
  end.

(** [s] is one white-space character. *)
Definition isWhiteSpaceChar (s : string) : bool :=
  match s with
  | String a EmptyString => white (decode1 a)
  | String a (String b EmptyString) => white (decode2 a b)
  | String a (String b (String c EmptyString)) => white (decode3 a b c)
  | _ => false
  end.

(** [String.prototype.trimEnd], from the end: when what follows the
    first byte has been trimmed and one white-space character is left,
    that goes too. *)
Fixpoint trimEnd (s : string) : string :=
  match s with
  | EmptyString => EmptyString
  | String c s' =>
      let t := String c (trimEnd s') in
      if isWhiteSpaceChar t then EmptyString else t
  end.

(** [String.prototype.trim] *)
Definition trim (s : string) : string := trimEnd (trimStart s).

(** [p] is an initial segment of [s]. *)
Fixpoint isPrefix (p s : string) : bool :=
  match p, s with
  | EmptyString, _ => true
  | String a p', String b s' => Ascii.eqb a b && isPrefix p' s'
  | String _ _, EmptyString => false
  end.

(** [s.startsWith(p)] *)
Definition startsWith (s p : string) : bool := isPrefix p s.

(** Last position at which [pat] occurs in [s], if any. *)
Fixpoint lastOccurrence (pat s : string) : option nat :=
  match s with
  | EmptyString => if isPrefix pat EmptyString then Some O else None
  | String _ s' =>
      match lastOccurrence pat s' with
      | Some i => Some (S i)
      | None => if isPrefix pat s then Some O else None
      end
  end.

(** [s.lastIndexOf(pat)]: the index, or [-1]. *)
Definition lastIndexOf (s pat : string) : Z :=
  match lastOccurrence pat s with
  | Some i => Z.of_nat i
  | None => -1
  end.

(** The relative-index rule of [slice]: a negative index counts from the
    end, and everything is clamped to [0 .. len]. *)
Definition clampIndex (len i : Z) : Z :=
  if i <? 0 then Z.max (len + i) 0 else Z.min i len.

(** [s.slice(start, stop)] *)
Definition slice (s : string) (start stop : Z) : string :=
  let len := Z.of_nat (String.length s) in
  let from := clampIndex len start in
  let to := clampIndex len stop in
  String.substring (Z.to_nat from) (Z.to_nat (to - from)) s.

(** [s.slice(start)] *)
Definition sliceFrom (s : string) (start : Z) : string :=
  slice s start (Z.of_nat (String.length s)).

(** [s.replace(/\\/g, '/')] *)
Fixpoint backslashesToSlashes (s : string) : string :=
  match s with
  | EmptyString => EmptyString
  | String c s' =>
      String (if Ascii.eqb c "\" then "/"%char else c) (backslashesToSlashes s')
  end.

(** [s.replace(/^\.\//, '')] *)
Definition dropDotSlash (s : string) : string :=
  match s with
  | String "." (String "/" s') => s'
  | _ => s
  end.

(** Every byte of [s] satisfies [p]. *)
Fixpoint allChars (p : ascii -> bool) (s : string) : bool :=
  match s with
  | EmptyString => true
  | String c s' => p c && allChars p s'
  end.

Definition notColon (c : ascii) : bool := negb (Ascii.eqb c ":").

(** The string of the bytes [bs]. *)
Definition ofBytes (bs : list N) : string :=
  fold_right (fun b s => String (ascii_of_N b) s) EmptyString bs.

End JsString.

(** ** [resolveBackendBaseUrl] *)
Module BaseUrl.
Import JsString.

Definition defaultBaseUrl : string := "http://127.0.0.1:9108".

(** The pair [(host, port)] the two branches of the source compute. *)
Definition splitListen (raw : string) : string * string :=
  if startsWith raw "[" then
    let idx := lastIndexOf raw "]:" in
    if 0 <? idx then (slice raw 1 idx, sliceFrom raw (idx + 2))
    else ("127.0.0.1", "9108")%string
  else
    let idx := lastIndexOf raw ":" in
    if 0 <? idx then (slice raw 0 idx, sliceFrom raw (idx + 1))
    else ("127.0.0.1", "9108")%string.

(** [if (!host || host === '0.0.0.0' || host === '::') host = '127.0.0.1'] *)
Definition loopbackIfWildcard (host : string) : string :=
  if String.eqb host "" || String.eqb host "0.0.0.0" || String.eqb host "::"
  then "127.0.0.1"%string else host.

(** [resolveBackendBaseUrl(listen)]; [listen] is the string
    [String(listen || '')] of the source. *)
Definition resolveBackendBaseUrl (listen : string) : string :=
  let raw := trim listen in
  if String.eqb raw "" then defaultBaseUrl
  else
    let '(host, port) := splitListen raw in
    "http://" +:+ loopbackIfWildcard host +:+ ":" +:+ port.

End BaseUrl.


(** ** The world outside the program *)

(** The two signals the source sends. *)
Inductive Signal := SIGTERM | SIGKILL.

(** How a child process ends: with an exit code ([child.exitCode]) or by
    a signal ([child.signalCode]; [child.exitCode] then stays [null]). *)
Inductive ExitKind := ExitCode (c : Z) | ExitSignal (s : Signal).

(** What the operating system does with one process.  Delays are in
    milliseconds; [None] means "never" (for a reaction: the request has
    no effect on the process). *)
Record Script := {
  sc_pid : option N;                    (* [child.pid]; [undefined] when not started *)
  sc_self : option (N * ExitKind);      (* ends by itself, that long after the spawn *)
  sc_onTerm : option (N * ExitKind);    (* reaction to SIGTERM *)
  sc_onKill : option (N * ExitKind);    (* reaction to SIGKILL *)
  sc_onTaskkill : option (N * ExitKind);(* reaction to [taskkill /PID pid /T /F] *)
  sc_killThrows : Signal -> bool        (* [child.kill(sig)] throws (EINVAL, ENOSYS) *)
}.

(** A [ChildProcess] object of Node, with the fields the source reads. *)
Record Proc := {
  p_script : Script;
  p_exitCode : option Z;          (* [child.exitCode] *)
  p_signalCode : option Signal;   (* [child.signalCode] *)
  p_killed : bool;                (* [child.killed]: a signal was delivered by [child.kill] *)
  p_lifecycle : bool;             (* the listener of [attachAgentLifecycle] is registered *)
  p_due : option (N * ExitKind)   (* the instant at which the process ends, once decided *)
}.

(** [x !== null] *)
Definition notNull {A : Type} (x : option A) : bool :=
  match x with Some _ => true | None => false end.

(** The 'exit' event of the object has fired. *)
Definition exited (p : Proc) : bool :=
  notNull (p_exitCode p) || notNull (p_signalCode p).

(** What the document has under [telegram] once the source has run
    [parsed.telegram = parsed.telegram || {}]: a mapping, with the
    truthiness of its [enabled] (nothing, [null] or another falsy value
    has become [{}], whose [enabled] is [undefined]); or a truthy scalar
    or a sequence.  On those [enabled] reads [undefined], and what the
    source assigns to it is lost: on a scalar at once (the file is not
    in strict mode, so nothing is thrown), on a sequence when
    [YAML.stringify] writes the items only. *)
Inductive Telegram :=
| TelegramMapping (enabled : bool)
| TelegramOther.

(** The parsed configuration document, as far as the source reads it:
    [parsed.listen] (as [String(...)], empty when falsy) and
    [parsed.telegram].  A document that is a sequence has neither key and
    does not keep what is assigned to it either: it reads as no listen
    address and [TelegramOther]. *)
Record Config := {
  cfg_listen : string;
  cfg_telegram : Telegram
}.

(** [!!parsed.telegram.enabled] *)
Definition cfg_telegram_enabled (c : Config) : bool :=
  match cfg_telegram c with
  | TelegramMapping enabled => enabled
  | TelegramOther => false
  end.

(** The document keeps an assignment to [parsed.telegram.enabled]. *)
Definition holdsFlag (c : Config) : bool :=
  match cfg_telegram c with
  | TelegramMapping _ => true
  | TelegramOther => false
  end.

(** [{}], the value of [YAML.parse(text) || {}] for an empty document. *)
Definition emptyConfig : Config :=
  {| cfg_listen := ""; cfg_telegram := TelegramMapping false |}.

(** The text of a file: YAML that parses to a mapping, to a sequence or
    to nothing, or text on which [YAML.parse] throws. *)
Inductive FileContent := Unparsable | Parsed (c : Config).

(** The three commands the source hands to [spawn]. *)
Inductive Command :=
| CmdAgent (bin : string) (args : list string)   (* [spawn(binPath, args)] *)
| CmdCargo (args : list string)                  (* [spawn('cargo', ['run', '--', ...args])] *)
| CmdTaskkill (pid : N).                         (* [spawn('taskkill', ['/PID', pid, '/T', '/F'])] *)

(** What the program did to the operating system, in order. *)
Inductive Event :=
| EvSpawn (h : nat) (c : Command)
| EvKill (h : nat) (s : Signal).

(** The answer to one [fetch]. *)
Inductive FetchResult :=
| FetchRejects                 (* network error: the promise rejects *)
| FetchResponse (ok : bool).   (* a response; [ok] is [response.ok] *)

Record FetchOutcome := {
  fo_result : FetchResult;
  fo_dur : N                   (* how long the request takes *)
}.

(** Everything the program cannot decide. *)
Record Env := {
  win32 : bool;                          (* [process.platform === 'win32'] *)
  isPackaged : bool;                     (* [app.isPackaged] *)
  existsSync : string -> bool;           (* [fsSync.existsSync] *)
  pathJoin : list string -> string;      (* [path.join] *)
  pathIsAbsolute : string -> bool;       (* [path.isAbsolute] *)
  userData : string;                     (* [app.getPath('userData')] *)
  resourcesPath : string;                (* [process.resourcesPath] *)
  projectRoot : string;                  (* [path.join(__dirname, '..')] *)
  script : nat -> Script;                (* the n-th process the program spawns *)
  healthz : string -> N -> FetchOutcome; (* the answer to a GET of that URL issued at that time *)
  ioDelay : N;                           (* how long a file operation takes *)
  writable : string -> bool              (* [fs.writeFile] to that path succeeds *)
}.

(** The module-level variables of the source, the child-process objects
    it created (a handle is an index into [procs]), the files, the clock
    ([Date.now()], in milliseconds) and the trace. *)
Record World := {
  now : N;
  procs : list Proc;
  files : gmap string FileContent;
  agentChild : option nat;
  telegramEnabledRuntime : bool;
  backendBaseUrlRuntime : string;
  agentTransitioning : bool;
  trace : list Event
}.

Definition setNow (t : N) (w : World) : World :=
  {| now := t; procs := procs w; files := files w; agentChild := agentChild w;
     telegramEnabledRuntime := telegramEnabledRuntime w;
     backendBaseUrlRuntime := backendBaseUrlRuntime w;
     agentTransitioning := agentTransitioning w; trace := trace w |}.

Definition setProcs (ps : list Proc) (w : World) : World :=
  {| now := now w; procs := ps; files := files w; agentChild := agentChild w;
     telegramEnabledRuntime := telegramEnabledRuntime w;
     backendBaseUrlRuntime := backendBaseUrlRuntime w;
     agentTransitioning := agentTransitioning w; trace := trace w |}.

Definition setFiles (fs : gmap string FileContent) (w : World) : World :=
  {| now := now w; procs := procs w; files := fs; agentChild := agentChild w;
     telegramEnabledRuntime := telegramEnabledRuntime w;
     backendBaseUrlRuntime := backendBaseUrlRuntime w;
     agentTransitioning := agentTransitioning w; trace := trace w |}.

Definition setAgentChild (c : option nat) (w : World) : World :=
  {| now := now w; procs := procs w; files := files w; agentChild := c;
     telegramEnabledRuntime := telegramEnabledRuntime w;
     backendBaseUrlRuntime := backendBaseUrlRuntime w;
     agentTransitioning := agentTransitioning w; trace := trace w |}.

Definition setTelegramEnabledRuntime (b : bool) (w : World) : World :=
  {| now := now w; procs := procs w; files := files w; agentChild := agentChild w;
     telegramEnabledRuntime := b;
     backendBaseUrlRuntime := backendBaseUrlRuntime w;
     agentTransitioning := agentTransitioning w; trace := trace w |}.

Definition setBackendBaseUrlRuntime (u : string) (w : World) : World :=
  {| now := now w; procs := procs w; files := files w; agentChild := agentChild w;
     telegramEnabledRuntime := telegramEnabledRuntime w;
     backendBaseUrlRuntime := u;
     agentTransitioning := agentTransitioning w; trace := trace w |}.

Definition setAgentTransitioning (b : bool) (w : World) : World :=
  {| now := now w; procs := procs w; files := files w; agentChild := agentChild w;
     telegramEnabledRuntime := telegramEnabledRuntime w;
     backendBaseUrlRuntime := backendBaseUrlRuntime w;
     agentTransitioning := b; trace := trace w |}.

Definition logEvent (e : Event) (w : World) : World :=
  {| now := now w; procs := procs w; files := files w; agentChild := agentChild w;
     telegramEnabledRuntime := telegramEnabledRuntime w;
     backendBaseUrlRuntime := backendBaseUrlRuntime w;
     agentTransitioning := agentTransitioning w; trace := trace w ++ [e] |}.

(** The module-level initialisers of the source, with the files and the
    clock of the machine. *)
Definition initialWorld (t : N) (fs : gmap string FileContent) : World :=
  {| now := t; procs := []; files := fs; agentChild := None;
     telegramEnabledRuntime := false;
     backendBaseUrlRuntime := "http://127.0.0.1:9108";
     agentTransitioning := false; trace := [] |}.

Definition setDue (d : option (N * ExitKind)) (p : Proc) : Proc :=
  {| p_script := p_script p; p_exitCode := p_exitCode p; p_signalCode := p_signalCode p;
     p_killed := p_killed p; p_lifecycle := p_lifecycle p; p_due := d |}.

Definition setKilled (b : bool) (p : Proc) : Proc :=
  {| p_script := p_script p; p_exitCode := p_exitCode p; p_signalCode := p_signalCode p;
     p_killed := b; p_lifecycle := p_lifecycle p; p_due := p_due p |}.

Definition setLifecycle (b : bool) (p : Proc) : Proc :=
  {| p_script := p_script p; p_exitCode := p_exitCode p; p_signalCode := p_signalCode p;
     p_killed := p_killed p; p_lifecycle := b; p_due := p_due p |}.

(** The 'exit' event: Node stores the code or the signal in the object. *)
Definition markExited (k : ExitKind) (p : Proc) : Proc :=
  match k with
  | ExitCode c =>
      {| p_script := p_script p; p_exitCode := Some c; p_signalCode := p_signalCode p;
         p_killed := p_killed p; p_lifecycle := p_lifecycle p; p_due := p_due p |}
  | ExitSignal s =>
      {| p_script := p_script p; p_exitCode := p_exitCode p; p_signalCode := Some s;
         p_killed := p_killed p; p_lifecycle := p_lifecycle p; p_due := p_due p |}
  end.

(** The process is to end [r] after [t], unless it ends earlier anyway. *)
Definition schedule (r : option (N * ExitKind)) (t : N) (p : Proc) : Proc :=
  match r with
  | None => p
  | Some (d, k) =>
      match p_due p with
      | Some (t0, _) => if (t0 <=? t + d)%N then p else setDue (Some (t + d, k)%N) p
      | None => setDue (Some (t + d, k)%N) p
      end
  end.

(** The way the process ends, if it does so no later than [t] and its
    'exit' event has not fired yet. *)
Definition dueBy (t : N) (p : Proc) : option ExitKind :=
  if exited p then None
  else match p_due p with
       | Some (t0, k) => if (t0 <=? t)%N then Some k else None
       | None => None
       end.

Definition settle (t : N) (p : Proc) : Proc :=
  match dueBy t p with
  | Some k => markExited k p
  | None => p
  end.

(** The listener of [attachAgentLifecycle] runs for the tracked child:
    [if (agentChild === child) { agentChild = null; telegramEnabledRuntime = false; }] *)
Definition lifecycleFires (t : N) (w : World) : bool :=
  match agentChild w with
  | Some h =>
      match procs w !! h with
      | Some p => p_lifecycle p && notNull (dueBy t p)
      | None => false
      end
  | None => false
  end.

(** [d] milliseconds pass while the program is suspended: the processes
    that end in that time fire their 'exit' events. *)
Definition advance (d : N) (w : World) : World :=
  let t := (now w + d)%N in
  let fired := lifecycleFires t w in
  {| now := t;
     procs := settle t <$> procs w;
     files := files w;
     agentChild := if fired then None else agentChild w;
     telegramEnabledRuntime := if fired then false else telegramEnabledRuntime w;
     backendBaseUrlRuntime := backendBaseUrlRuntime w;
     agentTransitioning := agentTransitioning w;
     trace := trace w |}.

(** ** Asynchronous programs

    An [async] function is a tree: synchronous steps on the world
    ([Do]), suspensions on something the environment settles ([Await]),
    and the two ways to finish.  [Spin] marks a loop that used up the
    iterations it was given; the theorems show it is never reached. *)

Inductive Request : Type -> Type :=
| ReadFile (path : string) : Request (option FileContent)    (* [fs.readFile]; [None]: rejects *)
| WriteFile (path : string) (c : Config) : Request bool      (* [fs.writeFile]; [false]: rejects *)
| Fetch (url : string) : Request FetchResult                 (* [fetch(url, { method: 'GET' })] *)
| Sleep (ms : N) : Request unit                              (* [setTimeout(resolve, ms)] *)
| ExitOrTimer (child : nat) (ms : N) : Request unit.         (* 'exit' of the child, or the timer *)

Inductive Async (R : Type) : Type :=
| Ret (r : R)
| Throw (e : string)
| Spin
| Do {X : Type} (f : World -> X * World) (k : X -> Async R)
| Await {X : Type} (rq : Request X) (k : X -> Async R).

Arguments Ret {R} r.
Arguments Throw {R} e.
Arguments Spin {R}.
Arguments Do {R X} f k.
Arguments Await {R X} rq k.

Fixpoint bind {A B : Type} (m : Async A) (k : A -> Async B) : Async B :=
  match m with
  | Ret a => k a
  | Throw e => Throw e
  | Spin => Spin
  | Do f k' => Do f (fun x => bind (k' x) k)
  | Await rq k' => Await rq (fun x => bind (k' x) k)
  end.

#[export] Instance async_ret : MRet Async := fun _ x => Ret x.
#[export] Instance async_bind : MBind Async := fun _ _ k m => bind m k.

(** [try { m } catch (err) { h(err) }]; [err] is the message of the error. *)
Fixpoint tryCatch {A : Type} (m : Async A) (h : string -> Async A) : Async A :=
  match m with
  | Ret a => Ret a
  | Throw e => h e
  | Spin => Spin
  | Do f k => Do f (fun x => tryCatch (k x) h)
  | Await rq k => Await rq (fun x => tryCatch (k x) h)
  end.

(** [try { m } finally { g }] for a synchronous [g]. *)
Fixpoint tryFinally {A : Type} (m : Async A) (g : World -> World) : Async A :=
  match m with
  | Ret a => Do (fun w => (tt, g w)) (fun _ => Ret a)
  | Throw e => Do (fun w => (tt, g w)) (fun _ => Throw e)
  | Spin => Spin
  | Do f k => Do f (fun x => tryFinally (k x) g)
  | Await rq k => Await rq (fun x => tryFinally (k x) g)
  end.

(** Read a module-level variable, or anything else of the world. *)
Definition get {X : Type} (f : World -> X) : Async X :=
  Do (fun w => (f w, w)) Ret.

(** A synchronous assignment. *)
Definition modify (f : World -> World) : Async unit :=
  Do (fun w => (tt, f w)) Ret.

(** [await p] for each kind of promise. *)
Definition await {X : Type} (rq : Request X) : Async X := Await rq Ret.

(** How a run of a program ends. *)
Inductive Outcome (R : Type) : Type :=
| Returned (r : R)
| Thrown (e : string)
| Diverged.

Arguments Returned {R} r.
Arguments Thrown {R} e.
Arguments Diverged {R}.

(** The synchronous part of a program up to its next suspension. *)
Fixpoint turn {R : Type} (m : Async R) (w : World) : Async R * World :=
  match m with
  | Do f k => let '(x, w') := f w in turn (k x) w'
  | _ => (m, w)
  end.

(** [String(err)] for an [Error] with that message. *)
Definition errorToString (e : string) : string := "Error: " +:+ e.

(** ** The operations of the source *)
Section Program.

Variable env : Env.

(** *** The environment's side *)

(** [spawn(...)]: a new child-process object; [taskkill] also decides
    the fate of the live processes with that pid. *)
Definition newProc (sc : Script) (t : N) : Proc :=
  {| p_script := sc; p_exitCode := None; p_signalCode := None; p_killed := false;
     p_lifecycle := false;
     p_due := match sc_self sc with Some (d, k) => Some ((t + d)%N, k) | None => None end |}.

Definition taskkillHits (pid : N) (t : N) (p : Proc) : Proc :=
  if exited p then p
  else if bool_decide (sc_pid (p_script p) = Some pid)
       then schedule (sc_onTaskkill (p_script p)) t p
       else p.

Definition spawnProc (c : Command) (w : World) : nat * World :=
  let h := length (procs w) in
  let ps := match c with
            | CmdTaskkill pid => taskkillHits pid (now w) <$> procs w
            | _ => procs w
            end in
  (h, logEvent (EvSpawn h c) (setProcs (ps ++ [newProc (script env h) (now w)]) w)).

(** The three ways [child.kill(sig)] ends in Node: it throws, or it
    returns whether the signal was delivered; a delivered signal sets
    [child.killed]; an object whose process has ended has no handle left
    and gets [false]. *)
Inductive KillResult := KillThrows | KillReturns (delivered : bool).

Definition reaction (sig : Signal) (sc : Script) : option (N * ExitKind) :=
  match sig with SIGTERM => sc_onTerm sc | SIGKILL => sc_onKill sc end.

Definition killProc (h : nat) (sig : Signal) (w : World) : KillResult * World :=
  let w1 := logEvent (EvKill h sig) w in
  match procs w !! h with
  | None => (KillReturns false, w1)
  | Some p =>
      if exited p then (KillReturns false, w1)
      else if sc_killThrows (p_script p) sig then (KillThrows, w1)
      else (KillReturns true,
            setProcs (<[h := schedule (reaction sig (p_script p)) (now w) (setKilled true p)]>
                        (procs w)) w1)
  end.

(** How long [ExitOrTimer] stays suspended: until the 'exit' event of a
    live child, at most [ms]. *)
Definition exitWait (child : nat) (ms : N) (w : World) : N :=
  match procs w !! child with
  | Some p =>
      if exited p then ms
      else match p_due p with
           | Some (t, _) => N.min ms (t - now w)
           | None => ms
           end
  | None => ms
  end.

(** What the environment answers to a suspended program, and the world
    the program finds when it resumes. *)
Definition respond {X : Type} (rq : Request X) (w : World) : X * World :=
  match rq in Request X return X * World with
  | ReadFile path => (files w !! path, advance (ioDelay env) w)
  | WriteFile path c =>
      if writable env path
      then (true, advance (ioDelay env) (setFiles (<[path := Parsed c]> (files w)) w))
      else (false, advance (ioDelay env) w)
  | Fetch url =>
      let o := healthz env url (now w) in
      (fo_result o, advance (fo_dur o) w)
  | Sleep ms => (tt, advance ms w)
  | ExitOrTimer child ms => (tt, advance (exitWait child ms w) w)
  end.

(** A whole run, with the environment [env]. *)
Fixpoint run {R : Type} (m : Async R) (w : World) : Outcome R * World :=
  match m with
  | Ret r => (Returned r, w)
  | Throw e => (Thrown e, w)
  | Spin => (Diverged, w)
  | Do f k => let '(x, w') := f w in run (k x) w'
  | Await rq k => let '(x, w') := respond rq w in run (k x) w'
  end.

End Program.

Section Operations.

Variable env : Env.

(** *** Paths *)

Definition runtimeConfigPath : string :=
  pathJoin env [userData env; "config.yaml"].

Definition exeName : string :=
  if win32 env then "monitord.exe" else "monitord".

Definition defaultMonitordBin : string :=
  if isPackaged env then pathJoin env [resourcesPath env; "bin"; exeName]
  else
    let primaryBin := pathJoin env [projectRoot env; "build_target"; "debug"; exeName] in
    if existsSync env primaryBin then primaryBin
    else
      let verifyBin :=
        pathJoin env [projectRoot env; "build_target_verify"; "debug"; exeName] in
      if existsSync env verifyBin then verifyBin else primaryBin.

Definition resolveProjectPath (p : string) : string :=
  if String.eqb p "" then p
  else if pathIsAbsolute env p then p
  else if isPackaged env then pathJoin env [resourcesPath env; p]
  else pathJoin env [projectRoot env; p].

Definition resolveConfigPath (p : string) : string :=
  if String.eqb p "" then runtimeConfigPath
  else if pathIsAbsolute env p then p
  else
    let normalized := JsString.dropDotSlash (JsString.backslashesToSlashes p) in
    if String.eqb normalized "config.yaml" then runtimeConfigPath
    else if isPackaged env then pathJoin env [resourcesPath env; normalized]
    else pathJoin env [projectRoot env; p].

(** *** The configuration file *)

Definition readFile (path : string) : Async FileContent :=
  r ← await (ReadFile path);
  match r with
  | Some text => Ret text
  | None => Throw "ENOENT: no such file or directory"
  end.

Definition writeFile (path : string) (c : Config) : Async unit :=
  r ← await (WriteFile path c);
  if r : bool then Ret tt else Throw "EACCES: permission denied".

(** [YAML.parse(text) || {}] *)
Definition yamlParse (text : FileContent) : Async Config :=
  match text with
  | Parsed c => Ret c
  | Unparsable => Throw "YAMLParseError"
  end.

(** The document that [YAML.stringify(parsed)] writes after
    [parsed.telegram.enabled = b]. *)
Definition withTelegramEnabled (c : Config) (b : bool) : Config :=
  match cfg_telegram c with
  | TelegramMapping _ => {| cfg_listen := cfg_listen c; cfg_telegram := TelegramMapping b |}
  | TelegramOther => c
  end.

Definition setTelegramEnabledInConfig (configPath : string) (enabled : bool) : Async bool :=
  tryCatch
    (text ← readFile configPath;
     parsed ← yamlParse text;
     let target := enabled in
     let current := cfg_telegram_enabled parsed in
     if Bool.eqb current target then Ret false
     else (writeFile configPath (withTelegramEnabled parsed target);; Ret true))
    (fun _ => Ret false).

Definition readListenFromConfig (configPath : string) : Async string :=
  tryCatch
    (text ← readFile configPath;
     parsed ← yamlParse text;
     Ret (if String.eqb (cfg_listen parsed) "" then "127.0.0.1:9108"%string
          else cfg_listen parsed))
    (fun _ => Ret "127.0.0.1:9108"%string).

(** *** Processes *)

Definition buildArgs (configPath : string) (telegramEnabled : bool) : list string :=
  ["--config"%string; configPath].

Definition spawnAgentProcess (binPath configPath : string) (telegramEnabled : bool)
  : Async nat :=
  let args := buildArgs configPath telegramEnabled in
  if existsSync env binPath then Do (spawnProc env (CmdAgent binPath args)) Ret
  else if isPackaged env
       then Throw ("Не найден исполняемый файл агента: " +:+ binPath)%string
       else Do (spawnProc env (CmdCargo args)) Ret.

(** [child.kill(sig)] *)
Definition childKill (child : nat) (sig : Signal) : Async bool :=
  Do (killProc child sig)
     (fun r => match r with
               | KillThrows => Throw "kill EINVAL"
               | KillReturns b => Ret b
               end).

(** [waitForExit(child, timeoutMs)]; a handle that is not in the world
    stands for [!child]. *)
Definition waitForExit (child : nat) (timeoutMs : N) : Async unit :=
  c ← get (fun w => procs w !! child);
  match c with
  | None => Ret tt
  | Some p =>
      if notNull (p_exitCode p) || p_killed p then Ret tt
      else await (ExitOrTimer child timeoutMs)
  end.

Definition attachAgentLifecycle (child : nat) : Async unit :=
  modify (fun w => setProcs (alter (setLifecycle true) child (procs w)) w).

(** [if (agentChild === child) { agentChild = null; telegramEnabledRuntime = false; }] *)
Definition forgetChild (child : nat) (w : World) : World :=
  if bool_decide (agentChild w = Some child)
  then setTelegramEnabledRuntime false (setAgentChild None w)
  else w.

(** The truthiness of [child.pid]. *)
Definition truthyPid (pid : option N) : bool :=
  match pid with
  | Some n => negb (n =? 0)%N
  | None => false
  end.

Definition childPid (child : nat) (w : World) : option N :=
  match procs w !! child with
  | Some p => sc_pid (p_script p)
  | None => None
  end.

Definition stopAgentProcess : Async bool :=
  tracked ← get agentChild;
  match tracked with
  | None => Ret true
  | Some child =>
      tryFinally
        (tryCatch
           (pid ← get (childPid child);
            (if win32 env && truthyPid pid
             then killer ← Do (spawnProc env (CmdTaskkill (default 0%N pid))) Ret;
                  waitForExit killer 5000
             else childKill child SIGTERM;; Ret tt);;
            waitForExit child 7000;;
            c ← get (fun w => procs w !! child);
            (if match c with
                | Some p => negb (notNull (p_exitCode p)) && negb (p_killed p)
                | None => false
                end
             then childKill child SIGKILL;; waitForExit child 2000
             else Ret tt);;
            Ret true)
           (fun _ => Ret false))
        (forgetChild child)
  end.

(** *** The health probe *)

(** One iteration of the [while] loop of [waitForBackendReady], and the
    rest of the loop after it. *)
Fixpoint pollLoop (fuel : nat) (baseUrl : string) (child : nat) (startedAt timeoutMs : N)
  : Async bool :=
  match fuel with
  | O => Spin
  | S fuel' =>
      t ← get now;
      if (t - startedAt <? timeoutMs)%N then
        c ← get (fun w => procs w !! child);
        if match c with
           | Some p => notNull (p_exitCode p)
           | None => true
           end
        then Ret false
        else
          ok ← tryCatch
                 (response ← await (Fetch (baseUrl +:+ "/healthz"));
                  match response with
                  | FetchResponse ok => Ret ok
                  | FetchRejects => Throw "fetch failed"
                  end)
                 (fun _ => Ret false);
          if ok : bool then Ret true
          else (await (Sleep 150);; pollLoop fuel' baseUrl child startedAt timeoutMs)
      else Ret false
  end.

(** Iterations that the loop can need: every one that goes round adds
    at least 150 ms to the clock. *)
Definition pollFuel (timeoutMs : N) : nat := N.to_nat (timeoutMs / 150) + 2.

Definition waitForBackendReady (baseUrl : string) (child : nat) (timeoutMs : N)
  : Async bool :=
  startedAt ← get now;
  pollLoop (pollFuel timeoutMs) baseUrl child startedAt timeoutMs.

(** *** Starting *)

(** The two shapes [startAgentManaged] returns:
    [{ ok: true, baseUrl }] and [{ ok: false, message, baseUrl }]. *)
Inductive Started :=
| StartedOk (baseUrl : string)
| StartedFailed (message baseUrl : string).

Definition startedOk (s : Started) : bool :=
  match s with StartedOk _ => true | StartedFailed _ _ => false end.

Definition healthMessage : string := "Сервис не вышел в готовность (healthz)".

Definition startAgentManaged (binPath configPath : string) (telegramEnabled : bool)
    (syncTelegramConfig : bool) : Async Started :=
  (if syncTelegramConfig
   then setTelegramEnabledInConfig configPath telegramEnabled;; Ret tt
   else Ret tt);;
  child ← spawnAgentProcess binPath configPath telegramEnabled;
  modify (setAgentChild (Some child));;
  modify (setTelegramEnabledRuntime telegramEnabled);;
  attachAgentLifecycle child;;
  listen ← readListenFromConfig configPath;
  let baseUrl := BaseUrl.resolveBackendBaseUrl listen in
  modify (setBackendBaseUrlRuntime baseUrl);;
  ready ← waitForBackendReady baseUrl child 30000;
  if negb ready
  then stopAgentProcess;; Ret (StartedFailed healthMessage baseUrl)
  else Ret (StartedOk baseUrl).

(** *** The serializer's wrapper and the handlers *)

(** The function [withAgentOp] chains after the previous operation:
    [agentTransitioning = true; try { return await fn(); } finally { agentTransitioning = false; }] *)
Definition agentOp {R : Type} (fn : Async R) : Async R :=
  modify (setAgentTransitioning true);;
  tryFinally fn (setAgentTransitioning false).

(** [{ ok, message }] *)
Record Reply := {
  ok : bool;
  message : string
}.

(** The payload of [agent:start]; an absent property is [None]. *)
Record StartPayload := {
  pl_binPath : option string;
  pl_configPath : option string;
  pl_telegramEnabled : bool
}.

(** [(payload && payload.x) || d] for a string property. *)
Definition orDefault (x : option string) (d : string) : string :=
  match x with
  | Some s => if String.eqb s "" then d else s
  | None => d
  end.

Definition ensureBackendStartedBody : Async unit :=
  tracked ← get agentChild;
  if notNull tracked then Ret tt
  else
    let configPath := resolveConfigPath "./config.yaml" in
    let binPath := defaultMonitordBin in
    started ← startAgentManaged binPath configPath false false;
    if negb (startedOk started)
    then setTelegramEnabledInConfig configPath false;;
         startAgentManaged binPath configPath false false;;
         Ret tt
    else Ret tt.

(** The three values [agent:start] computes from its payload. *)
Definition startBinPath (payload : option StartPayload) : string :=
  let rawBinPath := orDefault (payload ≫= pl_binPath) defaultMonitordBin in
  resolveProjectPath rawBinPath.

Definition startConfigPath (payload : option StartPayload) : string :=
  resolveConfigPath (orDefault (payload ≫= pl_configPath) "./config.yaml").

Definition startTelegramEnabled (payload : option StartPayload) : bool :=
  from_option pl_telegramEnabled false payload.

Definition agentStartBody (payload : option StartPayload) : Async Reply :=
  tracked ← get agentChild;
  if notNull tracked
  then Ret {| ok := false; message := "Агент уже запущен" |}
  else
    let binPath := startBinPath payload in
    let configPath := startConfigPath payload in
    let telegramEnabled := startTelegramEnabled payload in
    tryCatch
      (started ← startAgentManaged binPath configPath telegramEnabled true;
       match started with
       | StartedFailed m _ => Ret {| ok := false; message := m |}
       | StartedOk _ =>
           Ret {| ok := true;
                  message := if telegramEnabled
                             then "Сервис запущен с Telegram-ботом"
                             else "Сервис запущен без Telegram-бота" |}
       end)
      (fun err =>
         modify (setAgentChild None);;
         Ret {| ok := false;
                message := "Не удалось запустить агент: " +:+ errorToString err |}).

Definition agentStopBody : Async Reply :=
  tracked ← get agentChild;
  if negb (notNull tracked)
  then Ret {| ok := false; message := "Агент не запущен" |}
  else
    tryCatch
      (stopAgentProcess;; Ret {| ok := true; message := "Агент остановлен" |})
      (fun err =>
         Ret {| ok := false; message := "Ошибка остановки: " +:+ errorToString err |}).

Definition toggleOkMessage (targetEnabled : bool) : string :=
  if targetEnabled
  then "Telegram-бот включен (сервис перезапущен)"
  else "Telegram-бот выключен (сервис перезапущен)".

Definition toggleRecoveredMessage (m : string) : string :=
  "Не удалось переключить Telegram (" +:+ m +:+ "). Сервис восстановлен в прошлом режиме.".

Definition toggleDoubleFailureMessage (m : string) : string :=
  "Не удалось переключить Telegram (" +:+ m +:+ ") и восстановить предыдущий режим.".

Definition toggleErrorMessage (err : string) : string :=
  "Ошибка переключения Telegram: " +:+ errorToString err.

Definition startedMessage (s : Started) : string :=
  match s with StartedFailed m _ => m | StartedOk _ => "undefined" end.

Definition telegramSetEnabledBody (enabled : bool) : Async Reply :=
  let configPath := resolveConfigPath "./config.yaml" in
  let binPath := defaultMonitordBin in
  let targetEnabled := enabled in
  prevEnabled ← get telegramEnabledRuntime;
  tryCatch
    (stopAgentProcess;;
     started ← startAgentManaged binPath configPath targetEnabled true;
     if negb (startedOk started)
     then
       rollback ← startAgentManaged binPath configPath prevEnabled true;
       if startedOk rollback
       then Ret {| ok := false; message := toggleRecoveredMessage (startedMessage started) |}
       else Ret {| ok := false; message := toggleDoubleFailureMessage (startedMessage started) |}
     else Ret {| ok := true; message := toggleOkMessage targetEnabled |})
    (fun err => Ret {| ok := false; message := toggleErrorMessage err |}).

(** The path of the file the toggle and the automatic start use. *)
Definition defaultConfigPath : string := resolveConfigPath "./config.yaml".

Definition missingBinaryMessage (binPath : string) : string :=
  "Не найден исполняемый файл агента: " +:+ binPath.

(** The handlers as the serializer runs them. *)
Definition agentStart (payload : option StartPayload) : Async Reply :=
  agentOp (agentStartBody payload).

Definition agentStop : Async Reply := agentOp agentStopBody.

Definition telegramSetEnabled (enabled : bool) : Async Reply :=
  agentOp (telegramSetEnabledBody enabled).

Definition ensureBackendStarted : Async unit := agentOp ensureBackendStartedBody.

End Operations.

(** *** [agent:status] *)

Record Status := {
  running : bool;
  pid : option N;
  telegramEnabled : bool;
  baseUrl : string;
  transitioning : bool
}.

Definition agentStatus (w : World) : Status :=
  {| running := notNull (agentChild w);
     pid := match agentChild w with
            | Some child => childPid child w
            | None => None
            end;
     telegramEnabled := telegramEnabledRuntime w;
     baseUrl := backendBaseUrlRuntime w;
     transitioning := agentTransitioning w |}.

(** ** The serializer as an event loop

    [agentOpChain] is either the initial [Promise.resolve()] or
    [run.catch(() => {})] for the [run] of the operation submitted last;
    the latter settles (always fulfilled) once that [run] has settled.
    The callback passed to [then] is the same for both outcomes of the
    chain, so a job only records the promise it waits for. *)

Inductive ChainRef :=
| ChainResolved          (* [Promise.resolve()] *)
| ChainAfter (j : nat).  (* [run_j.catch(() => {})] *)

Inductive JobState (R : Type) : Type :=
| Waiting (fn : Async R)    (* the callback of [then] has not run yet *)
| Suspended (m : Async R)   (* inside the callback, at an [await] *)
| Settled (o : Outcome R).  (* [run] is fulfilled or rejected *)

Arguments Waiting {R} fn.
Arguments Suspended {R} m.
Arguments Settled {R} o.

Record Job (R : Type) : Type := {
  dep : ChainRef;
  state : JobState R
}.

Arguments dep {R} j.
Arguments state {R} j.

(** The main process between two turns: the world, the operations given
    to [withAgentOp], the chain, and the tasks started outside of it
    (the [stopAgentProcess()] of 'before-quit'). *)
Record Loop (R : Type) : Type := {
  world : World;
  jobs : list (Job R);
  agentOpChain : ChainRef;
  loose : list (Async bool)
}.

Arguments world {R} l.
Arguments jobs {R} l.
Arguments agentOpChain {R} l.
Arguments loose {R} l.

Definition idle {R : Type} (w : World) : Loop R :=
  {| world := w; jobs := []; agentOpChain := ChainResolved; loose := [] |}.

Definition isSettled {R : Type} (s : JobState R) : bool :=
  match s with Settled _ => true | _ => false end.

Definition isSuspended {R : Type} (s : JobState R) : bool :=
  match s with Suspended _ => true | _ => false end.

Definition isWaiting {R : Type} (s : JobState R) : bool :=
  match s with Waiting _ => true | _ => false end.

Definition jobSettled {R : Type} (js : list (Job R)) (j : nat) : bool :=
  match js !! j with
  | Some jb => isSettled (state jb)
  | None => false
  end.

Definition chainSettled {R : Type} (js : list (Job R)) (c : ChainRef) : bool :=
  match c with
  | ChainResolved => true
  | ChainAfter j => jobSettled js j
  end.

(** [withAgentOp(fn)]:
    [run = agentOpChain.then(...); agentOpChain = run.catch(() => {}); return run] *)
Definition withAgentOp {R : Type} (fn : Async R) (l : Loop R) : Loop R :=
  let run := length (jobs l) in
  {| world := world l;
     jobs := jobs l ++ [{| dep := agentOpChain l; state := Waiting fn |}];
     agentOpChain := ChainAfter run;
     loose := loose l |}.

(** Where a program stands after a turn. *)
Definition afterTurn {R : Type} (m : Async R) : JobState R :=
  match m with
  | Ret r => Settled (Returned r)
  | Throw e => Settled (Thrown e)
  | _ => Suspended m
  end.

(** What a request does to the world apart from taking time. *)
Definition effect {X : Type} (rq : Request X) : X -> World -> World :=
  match rq in Request X return X -> World -> World with
  | WriteFile path c =>
      fun (done : bool) w => if done then setFiles (<[path := Parsed c]> (files w)) w else w
  | _ => fun _ w => w
  end.

(** Any answer, after any time: what a resumed program may find. *)
Definition answers {X : Type} (rq : Request X) (w : World) (x : X) (w' : World) : Prop :=
  exists d : N, w' = advance d (effect rq x w).

Inductive Label :=
| LSubmit           (* a caller invokes a handler: [withAgentOp(fn)] *)
| LStart (j : nat)  (* the chain has settled: the callback of job [j] runs to its first [await] *)
| LResume (j : nat) (* job [j] resumes and runs to its next [await] *)
| LFork             (* a task starts outside the chain *)
| LLoose (i : nat)  (* such a task resumes *)
| LStatus           (* a caller invokes 'agent:status' *)
| LTick.            (* time passes, 'exit' events fire *)

Definition setJob {R : Type} (j : nat) (s : JobState R) (l : Loop R) (w : World) : Loop R :=
  {| world := w;
     jobs := alter (fun jb => {| dep := dep jb; state := s |}) j (jobs l);
     agentOpChain := agentOpChain l;
     loose := loose l |}.

Definition isAwait {R : Type} (m : Async R) : bool :=
  match m with Await _ _ => true | _ => false end.

(** The turn a suspended program takes when the environment [env]
    answers its request. *)
Definition resumed {R : Type} (env : Env) (m : Async R) (w : World) : Async R * World :=
  match m with
  | Await rq k => let '(x, w1) := respond env rq w in turn (k x) w1
  | _ => (m, w)
  end.

Section EventLoop.

Context {R : Type}.

(** Which programs callers submit, and which run outside the chain. *)
Variable submitted : Async R -> Prop.
Variable forked : Async bool -> Prop.

Inductive step : Loop R -> Label -> Loop R -> Prop :=
| step_submit l fn :
    submitted fn ->
    step l LSubmit (withAgentOp fn l)
| step_start l j jb fn m w' :
    jobs l !! j = Some jb ->
    state jb = Waiting fn ->
    chainSettled (jobs l) (dep jb) = true ->
    turn (agentOp fn) (world l) = (m, w') ->
    step l (LStart j) (setJob j (afterTurn m) l w')
| step_resume l j jb X (rq : Request X) k x w1 m w' :
    jobs l !! j = Some jb ->
    state jb = Suspended (Await rq k) ->
    answers rq (world l) x w1 ->
    turn (k x) w1 = (m, w') ->
    step l (LResume j) (setJob j (afterTurn m) l w')
| step_fork l t m w' :
    forked t ->
    turn t (world l) = (m, w') ->
    step l LFork
      {| world := w'; jobs := jobs l; agentOpChain := agentOpChain l;
         loose := loose l ++ [m] |}
| step_loose l i X (rq : Request X) k x w1 m w' :
    loose l !! i = Some (Await rq k) ->
    answers rq (world l) x w1 ->
    turn (k x) w1 = (m, w') ->
    step l (LLoose i)
      {| world := w'; jobs := jobs l; agentOpChain := agentOpChain l;
         loose := <[i := m]> (loose l) |}
| step_status l :
    (* not given to [withAgentOp], no [await]: one turn, nothing changes,
       the caller gets [agentStatus (world l)] *)
    step l LStatus l
| step_tick l d :
    step l LTick
      {| world := advance d (world l); jobs := jobs l;
         agentOpChain := agentOpChain l; loose := loose l |}.

(** An execution and the labels of its steps, oldest first. *)
Inductive exec : Loop R -> list Label -> Loop R -> Prop :=
| exec_nil l : exec l [] l
| exec_snoc l ls l1 lb l2 : exec l ls l1 -> step l1 lb l2 -> exec l (ls ++ [lb]) l2.

End EventLoop.

(** The jobs that took a turn, in the order of the turns. *)
Fixpoint turnsOf (ls : list Label) : list nat :=
  match ls with
  | [] => []
  | LStart j :: ls' => j :: turnsOf ls'
  | LResume j :: ls' => j :: turnsOf ls'
  | _ :: ls' => turnsOf ls'
  end.

(** The program never assigns [agentTransitioning]. *)
Fixpoint keepsFlag {R : Type} (m : Async R) : Prop :=
  match m with
  | Do f k =>
      (forall w, agentTransitioning (f w).2 = agentTransitioning w) /\
      (forall x, keepsFlag (k x))
  | Await _ k => forall x, keepsFlag (k x)
  | _ => True
  end.

(** The rest of an operation inside the wrapper of [withAgentOp]. *)
Definition guarded {R : Type} (m : Async R) : Prop :=
  exists m0, keepsFlag m0 /\ m = tryFinally m0 (setAgentTransitioning false).

(** A suspended operation resumes inside the wrapper. *)
Definition resumesGuarded {R : Type} (m : Async R) : Prop :=
  match m with
  | Await _ k => forall x, guarded (k x)
  | _ => True
  end.

(** What the event loop keeps, for programs that leave the flag to the
    wrapper: the shape of the chain, the order of the jobs, the flag
    while one is suspended, and the order of the turns taken. *)
Record Serialized {R : Type} (labels : list Label) (l : Loop R) : Prop := {
  ser_chain :
    agentOpChain l = match length (jobs l) with
                     | O => ChainResolved
                     | S n => ChainAfter n
                     end;
  ser_deps :
    forall j jb, jobs l !! j = Some jb ->
      dep jb = match j with O => ChainResolved | S i => ChainAfter i end;
  ser_order :
    forall i j ji jj, (i < j)%nat ->
      jobs l !! i = Some ji -> jobs l !! j = Some jj ->
      isWaiting (state jj) = false -> isSettled (state ji) = true;
  ser_flag :
    forall j jb, jobs l !! j = Some jb -> isSuspended (state jb) = true ->
      agentTransitioning (world l) = true;
  ser_progs :
    forall j jb, jobs l !! j = Some jb ->
      match state jb with
      | Waiting fn => keepsFlag fn
      | Suspended m => resumesGuarded m
      | Settled _ => True
      end;
  ser_loose :
    forall i m, loose l !! i = Some m -> keepsFlag m;
  ser_turns :
    Forall (fun j => exists jb, jobs l !! j = Some jb /\ isWaiting (state jb) = false)
           (turnsOf labels);
  ser_sorted : StronglySorted le (turnsOf labels)
}.

(** How many operations callers have submitted. *)
Fixpoint submissions (ls : list Label) : nat :=
  match ls with
  | [] => O
  | LSubmit :: ls' => S (submissions ls')
  | _ :: ls' => submissions ls'
  end.

(** [m'] is what is left of the program [m] after some of its steps. *)
Inductive residual {R : Type} : Async R -> Async R -> Prop :=
| residual_here m : residual m m
| residual_do {X : Type} (f : World -> X * World) k w m' :
    residual (k (f w).1) m' -> residual (Do f k) m'
| residual_await {X : Type} (rq : Request X) k x m' :
    residual (k x) m' -> residual (Await rq k) m'.

(** The job runs a function that was submitted, inside the wrapper of
    [withAgentOp]: it waits with it, is suspended in it, or has settled
    with the way it ended. *)
Definition runsGiven {R : Type} (submitted : Async R -> Prop) (jb : Job R) : Prop :=
  exists fn, submitted fn /\
    match state jb with
    | Waiting f => f = fn
    | Suspended m => residual (agentOp fn) m
    | Settled (Returned r) => residual (agentOp fn) (Ret r)
    | Settled (Thrown e) => residual (agentOp fn) (Throw e)
    | Settled Diverged => False
    end.

(** ** A program logic for the operations

    [wp A E m Q w]: started in [w], the program [m] finds [A] whenever it
    suspends and [Q] when it finishes, for every answer and world that
    [E] lets it find when it resumes. *)
Fixpoint wp {R : Type} (A : World -> Prop)
    (E : forall X : Type, Request X -> World -> X -> World -> Prop)
    (m : Async R) (Q : Outcome R -> World -> Prop) (w : World) : Prop :=
  match m with
  | Ret r => Q (Returned r) w
  | Throw e => Q (Thrown e) w
  | Spin => Q Diverged w
  | Do f k => wp A E (k (f w).1) Q (f w).2
  | Await rq k => A w /\ forall x w', E _ rq w x w' -> wp A E (k x) Q w'
  end.

(** The environment [env], and nothing asked at suspensions. *)
Definition byEnv (env : Env) (X : Type) (rq : Request X) (w : World) (x : X) (w' : World)
  : Prop :=
  respond env rq w = (x, w').

Definition anyWorld (w : World) : Prop := True.

(** Anything may have happened while the program was suspended, as long
    as it kept [I]. *)
Definition byAnyone (I : World -> Prop) (X : Type) (rq : Request X) (w : World) (x : X)
    (w' : World) : Prop :=
  I w'.

(** From a world with [I], the program keeps [I] at every suspension and
    at its end, whatever else runs in between. *)
Definition keeps (I : World -> Prop) {R : Type} (m : Async R) : Prop :=
  forall w, I w -> wp I (byAnyone I) m (fun _ w' => I w') w.

(** The same for a program that resumes from a suspension. *)
Definition resumesKeeping (I : World -> Prop) {R : Type} (m : Async R) : Prop :=
  match m with
  | Await _ k => forall x, keeps I (k x)
  | _ => True
  end.

(** What the event loop keeps when every program that enters it keeps
    [I]. *)
Record Sound {R : Type} (I : World -> Prop) (l : Loop R) : Prop := {
  sound_world : I (world l);
  sound_jobs :
    forall j jb, jobs l !! j = Some jb ->
      match state jb with
      | Waiting fn => keeps I fn
      | Suspended m => resumesKeeping I m
      | Settled _ => True
      end;
  sound_loose :
    forall i m, loose l !! i = Some m -> resumesKeeping I m
}.

(** ** Invariants of the world *)

(** The tracked child is a live object with the lifecycle listener. *)
Definition trackedAlive (w : World) : Prop :=
  forall h, agentChild w = Some h ->
    exists p, procs w !! h = Some p /\ exited p = false /\ p_lifecycle p = true.

(** With no tracked child the runtime flag is off. *)
Definition flagOffWhenStopped (w : World) : Prop :=
  agentChild w = None -> telegramEnabledRuntime w = false.

(** The state of the child [h] once [startAgentManaged] has registered
    it with the flag [b]: tracked and alive, or gone with the variables
    reset by its 'exit' listener or by a stop. *)
Definition childState (h : nat) (b : bool) (w : World) : Prop :=
  (agentChild w = Some h /\ telegramEnabledRuntime w = b /\
   exists p, procs w !! h = Some p /\ exited p = false /\ p_lifecycle p = true)
  \/
  (agentChild w = None /\ telegramEnabledRuntime w = false).

(** [telegram.enabled] as the file at [path] has it. *)
Definition persistedEnabled (path : string) (w : World) : option bool :=
  match files w !! path with
  | Some (Parsed c) => Some (cfg_telegram_enabled c)
  | _ => None
  end.

Definition hasExited (h : nat) (w : World) : bool :=
  match procs w !! h with
  | Some p => exited p
  | None => false
  end.

(** The agent runs as the child [h] started with the flag [b], unless
    that child has ended by itself: then its 'exit' listener has reset
    the variables. *)
Definition runningOrExited (h : nat) (b : bool) (w : World) : Prop :=
  (agentChild w = Some h /\ telegramEnabledRuntime w = b /\ hasExited h w = false)
  \/
  (agentChild w = None /\ telegramEnabledRuntime w = false /\ hasExited h w = true).

(** The child's exit code is set, or there is no such child: the test
    [!child || child.exitCode !== null]. *)
Definition exitSeen (child : nat) (w : World) : Prop :=
  match procs w !! child with
  | Some p => notNull (p_exitCode p) = true
  | None => True
  end.

(** [SIGTERM], or [taskkill] for its pid, was sent to the child. *)
Definition terminationAsked (h : nat) (w : World) : Prop :=
  In (EvKill h SIGTERM) (trace w) \/
  exists k pid, childPid h w = Some pid /\ In (EvSpawn k (CmdTaskkill pid)) (trace w).

(** Tracked, or gone with the runtime flag reset. *)
Definition trackedOrReset (h : nat) (w : World) : Prop :=
  agentChild w = Some h \/ (agentChild w = None /\ telegramEnabledRuntime w = false).

(** Predicates that the passage of time keeps, and those that spawning
    and signalling keep as well. *)
Definition timeStable (P : World -> Prop) : Prop :=
  forall d w, P w -> P (advance d w).

Definition procStable (env : Env) (P : World -> Prop) : Prop :=
  timeStable P /\
  (forall h sig w, P w -> P (killProc h sig w).2) /\
  (forall c w, P w -> P (spawnProc env c w).2).

Definition isSpawn (e : Event) : bool :=
  match e with EvSpawn _ (CmdAgent _ _) | EvSpawn _ (CmdCargo _) => true | _ => false end.

(** What a call of [startAgentManaged] leaves, by the shape of its
    result; [w] is the world at the call, so the child it spawns is the
    next handle. *)
Definition startedAs (env : Env) (bin : string) (b : bool) (w : World)
    (o : Outcome Started) (w' : World) : Prop :=
  let h := length (procs w) in
  match o with
  | Diverged => False
  | Thrown e =>
      existsSync env bin = false /\ isPackaged env = true /\
      e = missingBinaryMessage bin /\
      agentChild w' = None /\
      telegramEnabledRuntime w' = telegramEnabledRuntime w /\
      trace w' = trace w /\ length (procs w') = length (procs w)
  | Returned (StartedOk u) =>
      runningOrExited h b w' /\ length (procs w') = S (length (procs w)) /\
      (exists c, trace w' = trace w ++ [EvSpawn h c] /\ isSpawn (EvSpawn h c) = true) /\
      (exists url t, fo_result (healthz env url t) = FetchResponse true)
  | Returned (StartedFailed m u) =>
      m = healthMessage /\ agentChild w' = None /\ telegramEnabledRuntime w' = false /\
      (exists c, In (EvSpawn h c) (trace w') /\ isSpawn (EvSpawn h c) = true) /\
      (hasExited h w' = true \/ terminationAsked h w')
  end.

(** The configuration file after a call that was to write the flag. *)
Definition configAfter (env : Env) (cfg : string) (b sync : bool) (w w' : World) : Prop :=
  if sync
  then forall c, files w !! cfg = Some (Parsed c) -> writable env cfg = true ->
         files w' !! cfg = Some (Parsed (withTelegramEnabled c b))
  else files w' = files w.

(** How many times the agent was spawned. *)
Definition spawnCount (w : World) : nat := length (filter (fun e => isSpawn e = true) (trace w)).

(** The processes whose 'exit' has not fired. *)
Definition liveCount (w : World) : nat :=
  length (filter (fun p => exited p = false) (procs w)).

(** The reply of a start that came up. *)
Definition startReply (b : bool) : Reply :=
  {| ok := true;
     message := if b then "Сервис запущен с Telegram-ботом"
                else "Сервис запущен без Telegram-бота" |}.

Definition alreadyRunningReply : Reply :=
  {| ok := false; message := "Агент уже запущен" |}.

(** The four replies of [telegram:set-enabled]. *)
Definition toggleOkReply (target : bool) : Reply :=
  {| ok := true; message := toggleOkMessage target |}.

Definition toggleRecoveredReply : Reply :=
  {| ok := false; message := toggleRecoveredMessage healthMessage |}.

Definition toggleDoubleFailureReply : Reply :=
  {| ok := false; message := toggleDoubleFailureMessage healthMessage |}.

Definition toggleErrorReply (env : Env) : Reply :=
  {| ok := false;
     message := toggleErrorMessage (missingBinaryMessage (defaultMonitordBin env)) |}.

(** How a toggle that was called with the runtime flag [prev] ends:
    the reply, and the world it leaves. *)
Definition toggleFinished (env : Env) (prev target : bool) (w : World)
    (r : Reply) (w' : World) : Prop :=
  (r = toggleOkReply target /\
   exists h, runningOrExited h target w')
  \/
  (r = toggleRecoveredReply /\
   exists h, runningOrExited h prev w')
  \/
  (r = toggleDoubleFailureReply /\
   agentChild w' = None /\ telegramEnabledRuntime w' = false)
  \/
  (r = toggleErrorReply env /\
   existsSync env (defaultMonitordBin env) = false /\ isPackaged env = true /\
   agentChild w' = None /\ telegramEnabledRuntime w' = false).

(** The configuration file after an operation that leaves an agent
    tracked: the document it had, with the runtime flag written to
    it. *)
Definition fileFollowsFlag (env : Env) (cfg : string) (w w' : World) : Prop :=
  forall c, files w !! cfg = Some (Parsed c) -> writable env cfg = true ->
    agentChild w' <> None ->
    files w' !! cfg = Some (Parsed (withTelegramEnabled c (telegramEnabledRuntime w'))).

(** The three operations a caller may ask for. *)
Inductive Operation :=
| OpStart (payload : option StartPayload)
| OpStop
| OpToggle (target : bool).

(** The function the handler gives to [withAgentOp]. *)
Definition operationBody (env : Env) (op : Operation) : Async Reply :=
  match op with
  | OpStart payload => agentStartBody env payload
  | OpStop => agentStopBody env
  | OpToggle target => telegramSetEnabledBody env target
  end.

(** The operation as the serializer runs it. *)
Definition operation (env : Env) (op : Operation) : Async Reply :=
  agentOp (operationBody env op).

(** What is given to [withAgentOp]: the three operations, and the
    automatic start of [ensureBackendStarted], whose function returns
    [undefined]. *)
Inductive Handler :=
| Caller (op : Operation)
| AutoStart.

Definition handlerBody (env : Env) (h : Handler) : Async (option Reply) :=
  match h with
  | Caller op => r ← operationBody env op; Ret (Some r)
  | AutoStart => ensureBackendStartedBody env;; Ret None
  end.

Definition isHandler (env : Env) (fn : Async (option Reply)) : Prop :=
  exists h, fn = handlerBody env h.

(** The only task started outside the chain: 'before-quit' calls
    [stopAgentProcess()] and does not wait for it. *)
Definition isQuitStop (env : Env) (t : Async bool) : Prop :=
  t = stopAgentProcess env.

(** The configuration file the operation works on. *)
Definition operationConfigPath (env : Env) (op : Operation) : string :=
  match op with
  | OpStart payload => startConfigPath env payload
  | _ => defaultConfigPath env
  end.

(** A start that passes its guard. *)
Definition passesGuard (op : Operation) (w : World) : Prop :=
  match op with
  | OpStart _ => agentChild w = None
  | _ => True
  end.

(** ** Example environments *)
Module Examples.

Definition configPath : string := "/home/user/.config/monitord-desktop/config.yaml".

(** A process that runs until it is told to stop and then obeys. *)
Definition obedient (pid : N) : Script :=
  {| sc_pid := Some pid; sc_self := None;
     sc_onTerm := Some (40%N, ExitCode 0);
     sc_onKill := Some (1%N, ExitSignal SIGKILL);
     sc_onTaskkill := Some (30%N, ExitCode 1);
     sc_killThrows := fun _ => false |}.

(** A process that ignores SIGTERM. *)
Definition stubborn (pid : N) : Script :=
  {| sc_pid := Some pid; sc_self := None;
     sc_onTerm := None;
     sc_onKill := Some (1%N, ExitSignal SIGKILL);
     sc_onTaskkill := Some (30%N, ExitCode 1);
     sc_killThrows := fun _ => false |}.

(** A process that another process kills 100 ms after its start. *)
Definition shotDown (pid : N) : Script :=
  {| sc_pid := Some pid; sc_self := Some (100%N, ExitSignal SIGKILL);
     sc_onTerm := Some (40%N, ExitCode 0);
     sc_onKill := Some (1%N, ExitSignal SIGKILL);
     sc_onTaskkill := Some (30%N, ExitCode 1);
     sc_killThrows := fun _ => false |}.

Definition neverHealthy (url : string) (t : N) : FetchOutcome :=
  {| fo_result := FetchRejects; fo_dur := 3 |}.

Definition healthyFrom (t0 : N) (url : string) (t : N) : FetchOutcome :=
  {| fo_result := if (t0 <=? t)%N then FetchResponse true else FetchRejects; fo_dur := 3 |}.

(** The first process becomes healthy, later ones never do: the health
    endpoint answers until the first stop, at [t1]. *)
Definition healthyUntil (t1 : N) (url : string) (t : N) : FetchOutcome :=
  {| fo_result := if (t <? t1)%N then FetchResponse true else FetchRejects; fo_dur := 3 |}.

(** Healthy except between [a] and [b]. *)
Definition healthyOutside (a b : N) (url : string) (t : N) : FetchOutcome :=
  {| fo_result := if (t <? a)%N || (b <=? t)%N then FetchResponse true else FetchRejects;
     fo_dur := 3 |}.

(** A packaged Linux installation. *)
Definition linux (present : string -> bool) (sc : nat -> Script)
    (hz : string -> N -> FetchOutcome) : Env :=
  {| win32 := false; isPackaged := true; existsSync := present;
     pathJoin := String.concat "/";
     pathIsAbsolute := fun p => JsString.startsWith p "/";
     userData := "/home/user/.config/monitord-desktop";
     resourcesPath := "/opt/monitord/resources";
     projectRoot := "/opt/monitord/resources/app";
     script := sc; healthz := hz; ioDelay := 1; writable := fun _ => true |}.

Definition everywhere (p : string) : bool := true.

Definition onlyAt (q p : string) : bool := String.eqb p q.

Definition configOff : gmap string FileContent :=
  {[ configPath := Parsed {| cfg_listen := "0.0.0.0:9108"; cfg_telegram := TelegramMapping false |} ]}.

Definition fresh : World := initialWorld 1000 configOff.

Definition withBot : option StartPayload :=
  Some {| pl_binPath := None; pl_configPath := None; pl_telegramEnabled := true |}.

Definition customBinary : option StartPayload :=
  Some {| pl_binPath := Some "/usr/local/bin/monitord"%string; pl_configPath := None;
          pl_telegramEnabled := false |}.

(** Never healthy, and the process ignores SIGTERM. *)
Definition sick : Env := linux everywhere (fun n => stubborn (4000 + N.of_nat n)) neverHealthy.

(** Healthy at once. *)
Definition sound : Env := linux everywhere (fun n => obedient (4000 + N.of_nat n)) (healthyFrom 0).

(** Healthy at once, the process ignores SIGTERM. *)
Definition deaf : Env := linux everywhere (fun n => stubborn (4000 + N.of_nat n)) (healthyFrom 0).

(** Only a binary outside the installation exists. *)
Definition relocated : Env :=
  linux (onlyAt "/usr/local/bin/monitord") (fun n => obedient (4000 + N.of_nat n))
    (healthyFrom 0).

(** Healthy at the first start, not when restarted, healthy again when
    rolled back. *)
Definition relapsing : Env :=
  linux everywhere (fun n => obedient (4000 + N.of_nat n)) (healthyOutside 1006 31100).

(** Healthy at the first start and never again. *)
Definition failing : Env :=
  linux everywhere (fun n => obedient (4000 + N.of_nat n)) (healthyUntil 1006).

(** Healthy two seconds after the start. *)
Definition slow : Env :=
  linux everywhere (fun n => obedient (4000 + N.of_nat n)) (healthyFrom 3000).

(** The process is killed from outside while the probe waits. *)
Definition doomed : Env := linux everywhere (fun n => shotDown (4000 + N.of_nat n)) neverHealthy.


(** The agent of [deaf], started and healthy. *)
Definition deafRunning : World := (run deaf (agentStart deaf None) fresh).2.

(** A child that a signal from outside has ended, 50 ms ago. *)
Definition afterTheShot : World :=
  advance 150
    (spawnProc doomed (CmdAgent "/opt/monitord/resources/bin/monitord" ["--config"%string; configPath])
       fresh).2.


(** A caller asks for a start and for a stop; the start runs up to its
    first suspension; a caller asks for the status; the start takes two
    more turns; the caller asks again. *)
Definition busyLabels : list Label :=
  [LSubmit; LSubmit; LStart 0; LStatus; LResume 0; LResume 0; LStatus].

Definition twoSubmitted : Loop (option Reply) :=
  withAgentOp (handlerBody sick (Caller OpStop))
    (withAgentOp (handlerBody sick (Caller (OpStart withBot))) (idle fresh)).

(** The start runs up to the read of the configuration file. *)
Definition firstTurn : Async (option Reply) * World :=
  turn (agentOp (handlerBody sick (Caller (OpStart withBot)))) (world twoSubmitted).

Definition busyLoop : Loop (option Reply) :=
  setJob 0 (afterTurn firstTurn.1) twoSubmitted firstTurn.2.

(** It resumes with the text of the file and suspends again to write it. *)
Definition secondTurn : Async (option Reply) * World :=
  resumed sick firstTurn.1 (world busyLoop).

Definition writingLoop : Loop (option Reply) :=
  setJob 0 (afterTurn secondTurn.1) busyLoop secondTurn.2.

(** It resumes, spawns the agent and suspends to read the listen
    address. *)
Definition thirdTurn : Async (option Reply) * World :=
  resumed sick secondTurn.1 (world writingLoop).

Definition spawnedLoop : Loop (option Reply) :=
  setJob 0 (afterTurn thirdTurn.1) writingLoop thirdTurn.2.

End Examples.

(** ** The rest of [main.js]

    The functions beside the agent lifecycle: the icon files, the first
    run, and the two handlers that read and write the configuration
    document. *)

(** No closing bracket. *)
Definition notClosing (c : ascii) : bool := negb (Ascii.eqb c "]").

Section Shell.

Variable env : Env.

(** [__dirname] of [main.js]. *)
Variable dirname : string.

Definition defaultConfigTemplatePath : string :=
  if isPackaged env then pathJoin env [resourcesPath env; "config.yaml.example"]
  else pathJoin env [projectRoot env; "config.yaml.example"].

Definition iconsBasePath : string :=
  if isPackaged env then pathJoin env [resourcesPath env; "icons"]
  else pathJoin env [dirname; "assets"; "icons"].

(** The loop of both [pick...IconPath] functions:
    [for (const file of candidates) { const full = path.join(base, file);
       if (fsSync.existsSync(full)) return full; } return null;] *)
Fixpoint firstExisting (base : string) (candidates : list string) : option string :=
  match candidates with
  | [] => None
  | file :: rest =>
      let full := pathJoin env [base; file] in
      if existsSync env full then Some full else firstExisting base rest
  end.

Definition trayCandidates : list string :=
  if win32 env
  then ["tray-32.png"; "tray-24.png"; "tray-20.png"; "tray-16.png"; "app-256.png"]%string
  else ["tray-16.png"; "tray-24.png"; "tray-32.png"; "app-256.png"]%string.

Definition pickTrayIconPath : option string :=
  let base := iconsBasePath in
  firstExisting base trayCandidates.

Definition windowCandidates : list string :=
  if win32 env
  then ["app.ico"; "app-256.png"; "app-128.png"]%string
  else ["app-256.png"; "app-128.png"; "app.ico"]%string.

Definition pickWindowIconPath : option string :=
  let base := iconsBasePath in
  firstExisting base windowCandidates.

(** The document of the fallback text of [ensureRuntimeConfigExists], as
    far as the program reads it. *)
Definition fallbackConfig : Config :=
  {| cfg_listen := "127.0.0.1:9108"; cfg_telegram := TelegramMapping false |}.

(** [ensureRuntimeConfigExists()].  The [fs.mkdir] of the directory
    before each [fs.writeFile] belongs to the write: [writable] says that
    both succeed.  [allowed_chat_ids], which the program never reads, is
    not part of [Config]. *)
Definition ensureRuntimeConfigExists : Async string :=
  let targetPath := runtimeConfigPath env in
  if existsSync env targetPath then Ret targetPath
  else
    let templatePath := defaultConfigTemplatePath in
    tryCatch
      (template ← readFile templatePath;
       parsed ← yamlParse template;
       writeFile targetPath (withTelegramEnabled parsed false);;
       Ret targetPath)
      (fun _ =>
         writeFile targetPath fallbackConfig;;
         Ret targetPath).

(** *** [config:load-structured] and [config:save-structured] *)

(** [{ ok: true, data }] or [{ ok: false, message }] *)
Inductive LoadReply :=
| LoadOk (data : Config)
| LoadFailed (message : string).

(** [{ ok: true }] or [{ ok: false, message }] *)
Inductive SaveReply :=
| SaveOk
| SaveFailed (message : string).

(** The payload of [config:save-structured]; an absent property is
    [None]. *)
Record SavePayload := {
  sp_configPath : option string;
  sp_data : option Config
}.

Definition configLoadStructured (configPath : option string) : Async LoadReply :=
  tryCatch
    (let fullPath := resolveConfigPath env (orDefault configPath "./config.yaml") in
     text ← readFile fullPath;
     parsed ← yamlParse text;
     Ret (LoadOk parsed))
    (fun err => Ret (LoadFailed (errorToString err))).

(** An absent payload makes [payload.configPath] throw inside the
    [try]. *)
Definition configSaveStructured (payload : option SavePayload) : Async SaveReply :=
  tryCatch
    (match payload with
     | None => Throw "Cannot read properties of undefined (reading 'configPath')"
     | Some pl =>
         let fullPath := resolveConfigPath env (orDefault (sp_configPath pl) "./config.yaml") in
         let data := default emptyConfig (sp_data pl) in
         writeFile fullPath data;;
         Ret SaveOk
     end)
    (fun err => Ret (SaveFailed (errorToString err))).

End Shell.

(** What [readListenFromConfig] returns for a file: [parsed.listen], or
    the default when the file cannot be read or parsed or has no listen
    address. *)
Definition listenOf (f : option FileContent) : string :=
  match f with
  | Some (Parsed c) => if String.eqb (cfg_listen c) "" then "127.0.0.1:9108"%string
                       else cfg_listen c
  | _ => "127.0.0.1:9108"%string
  end.

(** The child [child] is tracked and its object is [p]. *)
Definition hangs (child : nat) (p : Proc) (w : World) : Prop :=
  agentChild w = Some child /\ procs w !! child = Some p.

(** The two replies of [agent:stop] that can occur. *)
Definition stoppedReply : Reply := {| ok := true; message := "Агент остановлен" |}.

Definition notRunningReply : Reply := {| ok := false; message := "Агент не запущен" |}.

(** The files after [setTelegramEnabledInConfig]: as before, or with
    the flag of this one document set. *)
Definition flagWritten (path : string) (b : bool) (before after : gmap string FileContent)
  : Prop :=
  after = before \/
  exists c, before !! path = Some (Parsed c) /\
            after = <[path := Parsed (withTelegramEnabled c b)]> before.

(** When the flag is set, some operation is suspended. *)
Definition flagHasOwner {R : Type} (l : Loop R) : Prop :=
  agentTransitioning (world l) = true ->
  exists j jb, jobs l !! j = Some jb /\ isSuspended (state jb) = true.

(** The child that a start has registered, alive, and what the start
    has logged. *)
Definition started (env : Env) (h : nat) (b : bool) (c : Command) (w w' : World) : Prop :=
  (exists p, hangs h p w' /\ exited p = false /\ p_script p = script env h) /\
  telegramEnabledRuntime w' = b /\
  trace w' = trace w ++ [EvSpawn h c].

(** ** Operations that rely on the serializer

    While an operation is suspended the others that run keep [I] and
    change the world only along [Rl]: the operation finds [I] and [Rl]
    from the world in which it suspended. *)
Definition byRely (I : World -> Prop) (Rl : World -> World -> Prop) (X : Type)
    (rq : Request X) (w : World) (x : X) (w' : World) : Prop :=
  I w' /\ Rl w w'.

Definition keepsUnder (I : World -> Prop) (Rl : World -> World -> Prop) {R : Type}
    (m : Async R) : Prop :=
  forall w, I w -> wp I (byRely I Rl) m (fun _ w' => I w') w.

(** The same for a program suspended in some world [ws] from which the
    present world [w] has been reached along [Rl]. *)
Definition resumesUnder (I : World -> Prop) (Rl : World -> World -> Prop) {R : Type}
    (m : Async R) (w : World) : Prop :=
  match m with
  | Await _ k =>
      exists ws, Rl ws w /\
        forall x w', I w' -> Rl ws w' ->
          wp I (byRely I Rl) (k x) (fun _ w'' => I w'') w'
  | _ => True
  end.

(** Every synchronous step of the program changes the world along
    [Rl]. *)
Fixpoint guarantees (Rl : World -> World -> Prop) {R : Type} (m : Async R) : Prop :=
  match m with
  | Do f k => (forall w, Rl w (f w).2) /\ (forall x, guarantees Rl (k x))
  | Await _ k => forall x, guarantees Rl (k x)
  | _ => True
  end.

(** What the event loop keeps when the operations given to
    [withAgentOp] keep [I] relying on [Rl], and the tasks outside the
    chain keep [I] and guarantee [Rl]. *)
Record Tidy {R : Type} (I : World -> Prop) (Rl : World -> World -> Prop) (l : Loop R)
  : Prop := {
  tidy_world : I (world l);
  tidy_jobs :
    forall j jb, jobs l !! j = Some jb ->
      match state jb with
      | Waiting fn => keepsUnder I Rl fn
      | Suspended m => resumesUnder I Rl m (world l)
      | Settled _ => True
      end;
  tidy_loose :
    forall i m, loose l !! i = Some m ->
      resumesKeeping I m /\
      match m with
      | Await _ k => forall x, guarantees Rl (k x)
      | _ => True
      end
}.

(** From a world with [I] the program keeps [I] at every suspension
    and at its end, whatever else runs in between, and does not throw. *)
Definition calm (I : World -> Prop) {R : Type} (m : Async R) : Prop :=
  forall w, I w ->
    wp I (byAnyone I) m (fun o w' => I w' /\ forall e, o <> Thrown e) w.

(** Nobody else starts an agent: with no child tracked, none is tracked
    later. *)
Definition staysStopped (w w' : World) : Prop :=
  agentChild w = None -> agentChild w' = None.

(** More example environments. *)
Module Scenes.

(** A development checkout on Linux. *)
Definition checkout (present : string -> bool) (sc : nat -> Script)
    (hz : string -> N -> FetchOutcome) : Env :=
  {| win32 := false; isPackaged := false; existsSync := present;
     pathJoin := String.concat "/";
     pathIsAbsolute := fun p => JsString.startsWith p "/";
     userData := "/home/dev/.config/monitord-desktop";
     resourcesPath := "/usr/lib/electron/resources";
     projectRoot := "/home/dev/monitord";
     script := sc; healthz := hz; ioDelay := 1; writable := fun _ => true |}.

(** A packaged installation on Windows. *)
Definition windows (present : string -> bool) (sc : nat -> Script)
    (hz : string -> N -> FetchOutcome) : Env :=
  {| win32 := true; isPackaged := true; existsSync := present;
     pathJoin := String.concat "\";
     pathIsAbsolute := fun p => JsString.startsWith p "C:\";
     userData := "C:\Users\user\AppData\Roaming\monitord-desktop";
     resourcesPath := "C:\Program Files\monitord\resources";
     projectRoot := "C:\Program Files\monitord\resources\app";
     script := sc; healthz := hz; ioDelay := 1; writable := fun _ => true |}.

(** A process on which neither [taskkill] nor SIGTERM has an effect. *)
Definition hung (pid : N) : Script :=
  {| sc_pid := Some pid; sc_self := None;
     sc_onTerm := None;
     sc_onKill := Some (1%N, ExitSignal SIGKILL);
     sc_onTaskkill := None;
     sc_killThrows := fun _ => false |}.

(** A process that cannot be signalled. *)
Definition untouchable (pid : N) : Script :=
  {| sc_pid := Some pid; sc_self := None;
     sc_onTerm := None; sc_onKill := None; sc_onTaskkill := None;
     sc_killThrows := fun _ => true |}.

(** The n-th process gets the pid 4000 + n. *)
Definition numbered (sc : N -> Script) (n : nat) : Script := sc (4000 + N.of_nat n)%N.

(** A checkout in which only the second debug build exists. *)
Definition devBox : Env :=
  checkout (Examples.onlyAt "/home/dev/monitord/build_target_verify/debug/monitord")
    (numbered Examples.obedient) Examples.neverHealthy.

(** A Windows installation whose agent hangs. *)
Definition winBox : Env :=
  windows Examples.everywhere (numbered hung) (Examples.healthyFrom 0).

(** An installation whose agent cannot be signalled. *)
Definition lockedBox : Env :=
  Examples.linux Examples.everywhere (numbered untouchable) (Examples.healthyFrom 0).

(** A process that ends with code 1, 10 ms after its start. *)
Definition crashing (pid : N) : Script :=
  {| sc_pid := Some pid; sc_self := Some (10%N, ExitCode 1);
     sc_onTerm := Some (40%N, ExitCode 0);
     sc_onKill := Some (1%N, ExitSignal SIGKILL);
     sc_onTaskkill := Some (30%N, ExitCode 1);
     sc_killThrows := fun _ => false |}.

Definition crashBox : Env :=
  Examples.linux Examples.everywhere (numbered crashing) (Examples.healthyFrom 0).

(** The agent of [crashBox], spawned and gone 10 ms ago. *)
Definition crashed : World :=
  advance 20
    (spawnProc crashBox
       (CmdAgent "/opt/monitord/resources/bin/monitord" ["--config"%string; Examples.configPath])
       Examples.fresh).2.

(** A configuration with the bot enabled. *)
Definition configOn : gmap string FileContent :=
  {[ Examples.configPath :=
       Parsed {| cfg_listen := "127.0.0.1:9108"; cfg_telegram := TelegramMapping true |} ]}.

Definition freshOn : World := initialWorld 1000 configOn.

(** An installation without its executable. *)
Definition gutted : Env :=
  Examples.linux (fun _ => false) (numbered Examples.obedient) (Examples.healthyFrom 0).

(** The agent of [winBox], started. *)
Definition winRunning : World :=
  (run winBox (agentStart winBox None) Examples.fresh).2.

(** The agent of [lockedBox], started. *)
Definition lockedRunning : World :=
  (run lockedBox (agentStart lockedBox None) Examples.fresh).2.

End Scenes.

(** * Properties

    ** The base address *)
Module BaseUrlFacts.
Import JsString BaseUrl.

Lemma length_append (a b : string) :
  String.length (a +:+ b) = (String.length a + String.length b)%nat.
Proof. induction a as [|c a IH]; simpl; [reflexivity | now rewrite IH]. Qed.

Lemma substring_all (s : string) : String.substring 0 (String.length s) s = s.
Proof. induction s as [|c s IH]; simpl; [reflexivity | now rewrite IH]. Qed.

Lemma substring_prefix (a b : string) :
  String.substring 0 (String.length a) (a +:+ b) = a.
Proof.
  induction a as [|c a IH]; simpl.
  - now destruct b.
  - now rewrite IH.
Qed.

Lemma substring_skip (a b : string) (n : nat) :
  String.substring (String.length a) n (a +:+ b) = String.substring 0 n b.
Proof. induction a as [|c a IH]; simpl; [reflexivity | exact IH]. Qed.

Lemma allChars_append (p : ascii -> bool) (a b : string) :
  allChars p (a +:+ b) = allChars p a && allChars p b.
Proof.
  induction a as [|c a IH]; simpl; [reflexivity|].
  rewrite IH. now rewrite andb_assoc.
Qed.

Lemma allChars_weaken (p q : ascii -> bool) (s : string) :
  (forall c, p c = true -> q c = true) ->
  allChars p s = true -> allChars q s = true.
Proof.
  intros Hpq. induction s as [|c s IH]; simpl; [reflexivity|].
  intros [Hc Hs]%andb_true_iff. rewrite (Hpq _ Hc). simpl. auto.
Qed.

Functional Scheme trimStart_ind := Induction for trimStart Sort Prop.

(** The tests on bytes, as arithmetic. *)
Ltac bytes :=
  unfold white, decode1, decode2, decode3, isContinuation, isWhiteSpace in *;
  repeat match goal with
         | H : context [if ?b then _ else _] |- _ => destruct b eqn:?
         | |- context [if ?b then _ else _] => destruct b eqn:?
         end;
  rewrite ?andb_true_iff, ?andb_false_iff, ?orb_true_iff, ?orb_false_iff,
          ?N.leb_le, ?N.leb_gt, ?N.ltb_lt, ?N.ltb_ge, ?N.eqb_eq, ?N.eqb_neq in *;
  try discriminate; try lia.

(** No white-space character starts with a continuation byte, and the
    bytes after the first are continuation bytes. *)
Lemma continuation_not_white1 (b : ascii) :
  isContinuation b = true -> white (decode1 b) = false.
Proof. intros H. bytes. Qed.

Lemma continuation_not_white2 (b x : ascii) :
  isContinuation b = true -> white (decode2 b x) = false.
Proof. intros H. bytes. Qed.

Lemma continuation_not_white3 (b x y : ascii) :
  isContinuation b = true -> white (decode3 b x y) = false.
Proof. intros H. bytes. Qed.

Lemma white2_continuation (a b : ascii) :
  white (decode2 a b) = true -> isContinuation b = true.
Proof. intros H. bytes. Qed.

Lemma white3_continuation (a b c : ascii) :
  white (decode3 a b c) = true -> isContinuation b = true /\ isContinuation c = true.
Proof. intros H. bytes. Qed.

Lemma not_continuation_white2 (a b : ascii) :
  isContinuation b = false -> white (decode2 a b) = false.
Proof.
  intros H. destruct (white (decode2 a b)) eqn:Hw; [|reflexivity].
  apply white2_continuation in Hw. congruence.
Qed.

Lemma not_continuation_white3 (a b c : ascii) :
  isContinuation b = false \/ isContinuation c = false -> white (decode3 a b c) = false.
Proof.
  intros H. destruct (white (decode3 a b c)) eqn:Hw; [|reflexivity].
  apply white3_continuation in Hw as [Hb Hc]. destruct H; congruence.
Qed.

(** A white-space character stands at the head of [s]. *)
Definition headWhite (s : string) : bool :=
  match s with
  | String a s1 =>
      white (decode1 a) ||
      match s1 with
      | String b s2 =>
          white (decode2 a b) ||
          match s2 with
          | String c _ => white (decode3 a b c)
          | EmptyString => false
          end
      | EmptyString => false
      end
  | EmptyString => false
  end.

(** [s] is empty or does not begin with a continuation byte. *)
Definition headFree (s : string) : Prop :=
  match s with
  | String x _ => isContinuation x = false
  | EmptyString => True
  end.

Lemma length_trimStart (s : string) : (String.length (trimStart s) <= String.length s)%nat.
Proof. functional induction (trimStart s); simpl in *; lia. Qed.

Lemma trimStart_stuck (s : string) : headWhite s = false -> trimStart s = s.
Proof.
  destruct s as [|a [|b [|c s3]]]; cbn [headWhite trimStart]; try reflexivity.
  - rewrite orb_false_r. now intros ->.
  - rewrite orb_false_r. now intros [-> ->]%orb_false_iff.
  - intros [-> [-> ->]%orb_false_iff]%orb_false_iff. reflexivity.
Qed.

Lemma trimStart_fixed (s : string) : trimStart s = s -> headWhite s = false.
Proof.
  functional induction (trimStart s); intros H; cbn [headWhite].
  - reflexivity.
  - pose proof (length_trimStart s1) as Hl. rewrite H in Hl. simpl in Hl. lia.
  - now rewrite e0.
  - pose proof (length_trimStart s2) as Hl. rewrite H in Hl. simpl in Hl. lia.
  - now rewrite e0, e2.
  - pose proof (length_trimStart s3) as Hl. rewrite H in Hl. simpl in Hl. lia.
  - now rewrite e0, e2, e4.
Qed.

Lemma trimStart_blank_headFree (s : string) : trimStart s = EmptyString -> headFree s.
Proof.
  destruct s as [|x s]; [exact (fun _ => I)|]. intros H. cbn [headFree].
  destruct (isContinuation x) eqn:Hx; [|reflexivity].
  rewrite trimStart_stuck in H; [discriminate|].
  cbn [headWhite]. rewrite (continuation_not_white1 x Hx).
  destruct s as [|b [|c s3]]; [reflexivity| |].
  - now rewrite (continuation_not_white2 x b Hx).
  - now rewrite (continuation_not_white2 x b Hx), (continuation_not_white3 x b c Hx).
Qed.

(** Appending text that starts a new character does not make a
    white-space character at the head. *)
Lemma headWhite_app (s r : string) :
  s <> EmptyString -> headFree r -> headWhite (s +:+ r) = headWhite s.
Proof.
  intros Hs Hr. destruct s as [|a [|b [|c s3]]]; [congruence| | |reflexivity].
  - change (String a "" +:+ r) with (String a r). cbn [headWhite].
    destruct r as [|x [|y r]]; [reflexivity| |]; cbn [headFree] in Hr.
    + now rewrite (not_continuation_white2 a x Hr).
    + rewrite (not_continuation_white2 a x Hr), (not_continuation_white3 a x y); auto.
  - change (String a (String b "") +:+ r) with (String a (String b r)). cbn [headWhite].
    destruct r as [|x r]; [reflexivity|]. cbn [headFree] in Hr.
    rewrite (not_continuation_white3 a b x); auto.
Qed.

(** [trimStart] of a string followed by text that starts a new
    character. *)
Lemma trimStart_app (s r : string) :
  headFree r ->
  trimStart (s +:+ r) = if String.eqb (trimStart s) "" then trimStart r else trimStart s +:+ r.
Proof.
  intros Hr.
  assert (forall t, t <> EmptyString -> headWhite t = false ->
            trimStart (t +:+ r) = if String.eqb t "" then trimStart r else t +:+ r) as Hstuck.
  { intros t Ht Hw. apply String.eqb_neq in Ht as Ht'. rewrite Ht'.
    apply trimStart_stuck. now rewrite headWhite_app. }
  functional induction (trimStart s).
  - reflexivity.
  - change (String a s1 +:+ r) with (String a (s1 +:+ r)). cbn [trimStart]. now rewrite e0.
  - apply Hstuck; [discriminate|]. cbn [headWhite]. now rewrite e0.
  - change (String a (String b s2) +:+ r) with (String a (String b (s2 +:+ r))).
    cbn [trimStart]. now rewrite e0, e2.
  - apply Hstuck; [discriminate|]. cbn [headWhite]. now rewrite e0, e2.
  - change (String a (String b (String c s3)) +:+ r)
      with (String a (String b (String c (s3 +:+ r)))).
    cbn [trimStart]. now rewrite e0, e2, e4.
  - apply Hstuck; [discriminate|]. cbn [headWhite]. now rewrite e0, e2, e4.
Qed.

Lemma allChars_trimStart (p : ascii -> bool) (s : string) :
  allChars p s = true -> allChars p (trimStart s) = true.
Proof.
  functional induction (trimStart s); cbn [allChars]; intros H; try exact H.
  - apply andb_true_iff in H as [_ H]. auto.
  - apply andb_true_iff in H as [_ [_ H]%andb_true_iff]. auto.
  - apply andb_true_iff in H as [_ [_ [_ H]%andb_true_iff]%andb_true_iff]. auto.
Qed.

Lemma allChars_trimEnd (p : ascii -> bool) (s : string) :
  allChars p s = true -> allChars p (trimEnd s) = true.
Proof.
  induction s as [|c s IH]; [reflexivity|]. cbn [allChars trimEnd].
  intros [Hc Hs]%andb_true_iff. specialize (IH Hs).
  destruct (isWhiteSpaceChar _); [reflexivity|]. cbn [allChars]. now rewrite Hc, IH.
Qed.

Lemma allChars_trim (p : ascii -> bool) (s : string) :
  allChars p s = true -> allChars p (trim s) = true.
Proof. intros H. unfold trim. now apply allChars_trimEnd, allChars_trimStart. Qed.

(** An ASCII character that is no white space. *)
Definition plain (x : ascii) : Prop :=
  (byte x < 128)%N /\ white (decode1 x) = false.

Lemma plain_not_continuation (x : ascii) : plain x -> isContinuation x = false.
Proof. intros [H _]. bytes. Qed.

Lemma plain_not_white2 (x y : ascii) : plain x -> white (decode2 x y) = false.
Proof. intros [H _]. bytes. Qed.

Lemma plain_not_white3 (x y z : ascii) : plain x -> white (decode3 x y z) = false.
Proof. intros [H _]. bytes. Qed.

(** A string in which such a character stands is not one white-space
    character. *)
Lemma not_whiteSpaceChar (c : ascii) (a : string) (x : ascii) (q : string) :
  plain x -> isWhiteSpaceChar (String c (a +:+ String x q)) = false.
Proof.
  intros Hx%plain_not_continuation. destruct a as [|d [|e a]].
  - change (String c ("" +:+ String x q)) with (String c (String x q)).
    cbn [isWhiteSpaceChar]. destruct q as [|y [|z q]]; [| |reflexivity].
    + now apply not_continuation_white2.
    + apply not_continuation_white3. now left.
  - change (String c (String d "" +:+ String x q)) with (String c (String d (String x q))).
    cbn [isWhiteSpaceChar]. destruct q; [|reflexivity].
    apply not_continuation_white3. now right.
  - now destruct a.
Qed.

(** [trimEnd] stops at such a character. *)
Lemma trimEnd_before (a : string) (x : ascii) (q : string) :
  plain x -> trimEnd (a +:+ String x q) = a +:+ String x (trimEnd q).
Proof.
  intros Hx. induction a as [|c a IH].
  - change ("" +:+ String x q) with (String x q). cbn [trimEnd].
    destruct (trimEnd q) as [|y [|z t]]; cbn [isWhiteSpaceChar].
    + now rewrite (proj2 Hx).
    + now rewrite (plain_not_white2 x y Hx).
    + destruct t; [|reflexivity]. now rewrite (plain_not_white3 x y z Hx).
  - change (String c a +:+ String x q) with (String c (a +:+ String x q)).
    cbn [trimEnd]. rewrite IH. now rewrite (not_whiteSpaceChar c a x (trimEnd q) Hx).
Qed.

Lemma plain_colon : plain ":".
Proof. split; reflexivity. Qed.

Lemma plain_closing : plain "]".
Proof. split; reflexivity. Qed.

(** White space only: [trimStart] leaves nothing, and then neither does
    [trimEnd]. *)
Lemma blank_trimEnd (s : string) : trimStart s = EmptyString -> trimEnd s = EmptyString.
Proof.
  functional induction (trimStart s); try discriminate; intros H.
  - reflexivity.
  - cbn [trimEnd]. rewrite (IHs0 H). cbn [isWhiteSpaceChar]. now rewrite e0.
  - apply white2_continuation in e2 as Hb.
    cbn [trimEnd]. rewrite (IHs0 H). cbn [isWhiteSpaceChar].
    rewrite (continuation_not_white1 b Hb). cbn [isWhiteSpaceChar]. now rewrite e2.
  - apply white3_continuation in e4 as Hbc. destruct Hbc as [Hb Hc].
    cbn [trimEnd]. rewrite (IHs0 H). cbn [isWhiteSpaceChar].
    rewrite (continuation_not_white1 c Hc). cbn [isWhiteSpaceChar].
    rewrite (continuation_not_white2 b c Hb). cbn [isWhiteSpaceChar]. now rewrite e4.
Qed.

Lemma trimEnd_append_blank (s post : string) :
  trimStart post = EmptyString -> trimEnd (s +:+ post) = trimEnd s.
Proof.
  intros H. induction s as [|c s IH]; [now apply blank_trimEnd|].
  change (String c s +:+ post) with (String c (s +:+ post)).
  cbn [trimEnd]. now rewrite IH.
Qed.

Lemma trim_append_blank (s post : string) :
  trimStart post = EmptyString -> trim (s +:+ post) = trim s.
Proof.
  intros H. unfold trim.
  rewrite (trimStart_app s post (trimStart_blank_headFree post H)), H.
  destruct (String.eqb_spec (trimStart s) "") as [->|_]; [reflexivity|].
  now apply trimEnd_append_blank.
Qed.

Lemma trimStart_prepend_blank (pre s : string) :
  trimStart pre = EmptyString -> trimStart (pre +:+ s) = trimStart s.
Proof.
  functional induction (trimStart pre); try discriminate; intros H.
  - reflexivity.
  - change (String a s1 +:+ s) with (String a (s1 +:+ s)). cbn [trimStart].
    rewrite e0. auto.
  - change (String a (String b s2) +:+ s) with (String a (String b (s2 +:+ s))).
    cbn [trimStart]. rewrite e0, e2. auto.
  - change (String a (String b (String c s3)) +:+ s)
      with (String a (String b (String c (s3 +:+ s)))).
    cbn [trimStart]. rewrite e0, e2, e4. auto.
Qed.

Lemma trim_padded (pre s post : string) :
  trimStart pre = EmptyString -> trimStart post = EmptyString ->
  trim (pre +:+ s +:+ post) = trim s.
Proof.
  intros Hpre Hpost. unfold trim. rewrite (trimStart_prepend_blank pre _ Hpre).
  exact (trim_append_blank s post Hpost).
Qed.

(** A string without a colon holds neither separator. *)
Lemma no_colon_no_separator (s : string) :
  allChars notColon s = true ->
  lastOccurrence ":" s = None /\ lastOccurrence "]:" s = None.
Proof.
  induction s as [|c s IH]; [auto|].
  cbn [allChars]. unfold notColon at 1. intros [Hc Hs]%andb_true_iff.
  apply negb_true_iff in Hc. rewrite Ascii.eqb_sym in Hc.
  destruct (IH Hs) as [H1 H2]. cbn [lastOccurrence]. rewrite H1, H2. split.
  - cbn [isPrefix]. now rewrite Hc.
  - cbn [isPrefix]. destruct s as [|c2 s]; [now rewrite andb_false_r|].
    cbn [allChars] in Hs. unfold notColon at 1 in Hs.
    apply andb_true_iff in Hs as [Hc2 _]. apply negb_true_iff in Hc2.
    rewrite Ascii.eqb_sym in Hc2. rewrite Hc2. cbn [andb]. now rewrite andb_false_r.
Qed.

Lemma lastOccurrence_colon (a p : string) :
  allChars notColon p = true ->
  lastOccurrence ":" (a +:+ ":" +:+ p) = Some (String.length a).
Proof.
  intros Hp. induction a as [|c a IH].
  - destruct (no_colon_no_separator _ Hp) as [H1 _].
    change (lastOccurrence ":" (String ":" p) = Some 0%nat).
    cbn [lastOccurrence]. rewrite H1. reflexivity.
  - change (lastOccurrence ":" (String c (a +:+ ":" +:+ p)) = Some (S (String.length a))).
    cbn [lastOccurrence]. now rewrite IH.
Qed.

Lemma lastOccurrence_bracket (a p : string) :
  allChars notColon p = true ->
  lastOccurrence "]:" (a +:+ "]:" +:+ p) = Some (String.length a).
Proof.
  intros Hp. induction a as [|c a IH].
  - destruct (no_colon_no_separator _ Hp) as [_ H2].
    change (lastOccurrence "]:" (String "]" (String ":" p)) = Some 0%nat).
    cbn [lastOccurrence]. rewrite H2. reflexivity.
  - change (lastOccurrence "]:" (String c (a +:+ "]:" +:+ p)) = Some (S (String.length a))).
    cbn [lastOccurrence]. now rewrite IH.
Qed.

(** The two [slice] calls around a separator of length [n] at [length a]. *)
Lemma slice_before (a b : string) (skip : nat) :
  (skip <= 1)%nat ->
  slice (String.substring 0 skip "[" +:+ a +:+ b) (Z.of_nat skip)
        (Z.of_nat (skip + String.length a)) = a.
Proof.
  intros Hs. unfold slice, clampIndex.
  rewrite !length_append.
  assert (String.length (String.substring 0 skip "[") = skip) as Hl
    by (destruct skip as [|[|]]; simpl; lia).
  rewrite Hl.
  destruct (Z.ltb_spec (Z.of_nat skip) 0); [lia|].
  destruct (Z.ltb_spec (Z.of_nat (skip + String.length a)) 0); [lia|].
  rewrite !Z.min_l by lia.
  replace (Z.to_nat (Z.of_nat (skip + String.length a) - Z.of_nat skip))
    with (String.length a) by lia.
  rewrite Nat2Z.id.
  rewrite <- Hl at 1. rewrite substring_skip. apply substring_prefix.
Qed.

Lemma sliceFrom_after (a b : string) :
  sliceFrom (a +:+ b) (Z.of_nat (String.length a)) = b.
Proof.
  unfold sliceFrom, slice, clampIndex. rewrite length_append.
  destruct (Z.ltb_spec (Z.of_nat (String.length a)) 0); [lia|].
  destruct (Z.ltb_spec (Z.of_nat (String.length a + String.length b)) 0); [lia|].
  rewrite !Z.min_l by lia. rewrite Nat2Z.id.
  replace (Z.to_nat _) with (String.length b) by lia.
  rewrite substring_skip. apply substring_all.
Qed.


Lemma append_assoc (a b c : string) : (a +:+ b) +:+ c = a +:+ b +:+ c.
Proof.
  induction a as [|x a IH]; [reflexivity|].
  change (String x ((a +:+ b) +:+ c) = String x (a +:+ b +:+ c)). now rewrite IH.
Qed.

Lemma startsWith_append (a b : string) :
  a <> EmptyString -> startsWith (a +:+ b) "[" = startsWith a "[".
Proof. destruct a as [|c a]; [congruence | reflexivity]. Qed.

Lemma split_plain (host port : string) :
  host <> EmptyString -> startsWith host "[" = false ->
  allChars notColon port = true ->
  splitListen (host +:+ ":" +:+ port) = (host, port).
Proof.
  intros Hne Hb Hp. unfold splitListen.
  rewrite (startsWith_append _ _ Hne), Hb.
  unfold lastIndexOf. rewrite (lastOccurrence_colon _ _ Hp).
  assert (0 < Z.of_nat (String.length host)) as Hlen
    by (destruct host; [congruence | simpl; lia]).
  apply Z.ltb_lt in Hlen as ->. f_equal.
  - exact (slice_before host (":" +:+ port) 0 (Nat.le_0_l 1)).
  - rewrite <- (append_assoc host ":" port).
    replace (Z.of_nat (String.length host) + 1)
      with (Z.of_nat (String.length (host +:+ ":"))) by (rewrite length_append; simpl; lia).
    apply sliceFrom_after.
Qed.

Lemma split_bracket (host port : string) :
  allChars notColon port = true ->
  splitListen ("[" +:+ host +:+ "]:" +:+ port) = (host, port).
Proof.
  intros Hp. unfold splitListen.
  change (startsWith ("[" +:+ host +:+ "]:" +:+ port) "[") with true. cbv iota.
  unfold lastIndexOf.
  rewrite <- (append_assoc "[" host ("]:" +:+ port)).
  rewrite (lastOccurrence_bracket _ _ Hp).
  assert (0 < Z.of_nat (String.length ("[" +:+ host))) as Hlen by (simpl; lia).
  apply Z.ltb_lt in Hlen as ->. f_equal.
  - rewrite append_assoc.
    exact (slice_before host ("]:" +:+ port) 1 (Nat.le_refl 1)).
  - rewrite <- (append_assoc ("[" +:+ host) "]:" port).
    replace (Z.of_nat (String.length ("[" +:+ host)) + 2)
      with (Z.of_nat (String.length (("[" +:+ host) +:+ "]:")))
      by (rewrite length_append; simpl; lia).
    apply sliceFrom_after.
Qed.

Lemma trimStart_plain_head (x : ascii) (s : string) :
  plain x -> trimStart (String x s) = String x s.
Proof.
  intros Hx. apply trimStart_stuck. cbn [headWhite]. rewrite (proj2 Hx).
  destruct s as [|y [|z s]]; [reflexivity| |].
  - now rewrite (plain_not_white2 x y Hx).
  - now rewrite (plain_not_white2 x y Hx), (plain_not_white3 x y z Hx).
Qed.

(** A listen address without white space around it is what [trim]
    returns. *)
Lemma trim_listen (host port : string) :
  host <> EmptyString -> trimStart host = host -> trimEnd port = port ->
  trim (host +:+ ":" +:+ port) = host +:+ ":" +:+ port.
Proof.
  intros Hne Hh Hp. unfold trim.
  rewrite (trimStart_app host (":" +:+ port)) by reflexivity.
  rewrite Hh. apply String.eqb_neq in Hne as ->.
  change (":" +:+ port) with (String ":" port).
  now rewrite (trimEnd_before host ":" port plain_colon), Hp.
Qed.

Lemma resolve_trimmed (raw : string) :
  trim raw = raw -> raw <> EmptyString ->
  resolveBackendBaseUrl raw =
  "http://" +:+ loopbackIfWildcard (splitListen raw).1 +:+ ":" +:+ (splitListen raw).2.
Proof.
  intros Hs Hne. unfold resolveBackendBaseUrl. rewrite Hs.
  apply String.eqb_neq in Hne as ->. now destruct (splitListen raw).
Qed.

Lemma loopbackIfWildcard_other (host : string) :
  host <> EmptyString -> host <> "0.0.0.0"%string -> host <> "::"%string ->
  loopbackIfWildcard host = host.
Proof.
  intros H1 H2 H3. unfold loopbackIfWildcard.
  apply String.eqb_neq in H1 as ->, H2 as ->, H3 as ->. reflexivity.
Qed.

End BaseUrlFacts.

Module BaseUrlTheorems.
Import JsString BaseUrl BaseUrlFacts.

Lemma resolve_unbracketed (host port : string) :
  allChars notColon port = true -> trimEnd port = port ->
  host <> EmptyString -> trimStart host = host ->
  startsWith host "[" = false ->
  resolveBackendBaseUrl (host +:+ ":" +:+ port) =
  "http://" +:+ loopbackIfWildcard host +:+ ":" +:+ port.
Proof.
  intros Hc Hp Hne Hh Hb.
  rewrite resolve_trimmed.
  - now rewrite (split_plain host port Hne Hb Hc).
  - now apply trim_listen.
  - destruct host; [congruence | discriminate].
Qed.

Lemma resolve_bracketed (host port : string) :
  allChars notColon port = true -> trimEnd port = port ->
  resolveBackendBaseUrl ("[" +:+ host +:+ "]:" +:+ port) =
  "http://" +:+ loopbackIfWildcard host +:+ ":" +:+ port.
Proof.
  intros Hc Hp.
  rewrite resolve_trimmed.
  - now rewrite (split_bracket host port Hc).
  - change ("[" +:+ host +:+ "]:" +:+ port) with ("[" +:+ host +:+ "]" +:+ ":" +:+ port).
    rewrite <- (append_assoc host "]" (":" +:+ port)).
    rewrite <- (append_assoc "[" (host +:+ "]") (":" +:+ port)).
    apply trim_listen; [discriminate | | exact Hp].
    exact (trimStart_plain_head "[" (host +:+ "]") ltac:(split; reflexivity)).
  - discriminate.
Qed.

(** C8, as the source has it: a wildcard host, IPv4 [0.0.0.0] or IPv6
    [[::]], is replaced by the IPv4 loopback [127.0.0.1] with the
    configured port; any other host written without brackets is kept
    with its port.  The port is what follows the last colon, and the
    address is taken without the white space around it, which the
    function trims. *)
Theorem wildcard_hosts_resolve_to_ipv4_loopback (port : string) :
  allChars notColon port = true ->
  trimEnd port = port ->
  resolveBackendBaseUrl ("0.0.0.0:" +:+ port) = "http://127.0.0.1:" +:+ port /\
  resolveBackendBaseUrl ("[::]:" +:+ port) = "http://127.0.0.1:" +:+ port /\
  (forall host : string,
      host <> EmptyString -> trimStart host = host ->
      startsWith host "[" = false ->
      host <> "0.0.0.0"%string -> host <> "::"%string ->
      resolveBackendBaseUrl (host +:+ ":" +:+ port) = "http://" +:+ host +:+ ":" +:+ port).
Proof.
  intros Hc Hp. split; [|split].
  - exact (resolve_unbracketed "0.0.0.0" port Hc Hp ltac:(discriminate) eq_refl eq_refl).
  - exact (resolve_bracketed "::" port Hc Hp).
  - intros host Hne Hh Hb H4 H6. rewrite (resolve_unbracketed host port Hc Hp Hne Hh Hb).
    now rewrite loopbackIfWildcard_other.
Qed.

Lemma wildcard_hosts_resolve_witness :
  resolveBackendBaseUrl "0.0.0.0:9108" = "http://127.0.0.1:9108"%string /\
  resolveBackendBaseUrl "[::]:9108" = "http://127.0.0.1:9108"%string /\
  resolveBackendBaseUrl "monitor.lan:9108" = "http://monitor.lan:9108"%string.
Proof.
  destruct (wildcard_hosts_resolve_to_ipv4_loopback "9108" eq_refl eq_refl) as (H1 & H2 & H3).
  split; [|split].
  - exact H1.
  - exact H2.
  - apply (H3 "monitor.lan"%string); [discriminate | reflexivity | reflexivity
                                     | discriminate | discriminate].
Defined.

(** A bracketed host that is no wildcard comes out without its
    brackets. *)
Lemma bracketed_host_loses_brackets (host port : string) :
  allChars notColon port = true -> trimEnd port = port ->
  host <> EmptyString -> host <> "0.0.0.0"%string -> host <> "::"%string ->
  resolveBackendBaseUrl ("[" +:+ host +:+ "]:" +:+ port) =
  "http://" +:+ host +:+ ":" +:+ port.
Proof.
  intros Hc Hp Hne H4 H6. rewrite (resolve_bracketed host port Hc Hp).
  now rewrite loopbackIfWildcard_other.
Qed.

(** C8 as stated fails: for the IPv6 wildcard the result is the IPv4
    loopback, not an IPv6 loopback address. *)
Lemma ipv6_wildcard_not_ipv6_loopback :
  resolveBackendBaseUrl "[::]:9108" = "http://127.0.0.1:9108"%string /\
  resolveBackendBaseUrl "[::]:9108" <> "http://[::1]:9108"%string /\
  resolveBackendBaseUrl "[::]:9108" <> "http://::1:9108"%string.
Proof. split; [reflexivity | split; discriminate]. Qed.

(** C10: a listen string without a colon, so without a host:port
    separator, gives the default base address whatever host it names. *)
Theorem listen_without_separator_gives_default (listen : string) :
  allChars notColon listen = true ->
  resolveBackendBaseUrl listen = "http://127.0.0.1:9108"%string.
Proof.
  intros H. unfold resolveBackendBaseUrl.
  destruct (String.eqb_spec (trim listen) "") as [_|_]; [reflexivity|].
  pose proof (no_colon_no_separator _ (allChars_trim _ _ H)) as [H1 H2].
  unfold splitListen, lastIndexOf. rewrite H1, H2.
  now destruct (startsWith (trim listen) "[").
Qed.

Lemma listen_without_separator_witness :
  resolveBackendBaseUrl "localhost" = "http://127.0.0.1:9108"%string /\
  resolveBackendBaseUrl "   " = "http://127.0.0.1:9108"%string /\
  resolveBackendBaseUrl "" = "http://127.0.0.1:9108"%string.
Proof.
  split; [|split]; apply listen_without_separator_gives_default; reflexivity.
Defined.

End BaseUrlTheorems.

Module BaseUrlExamples.
Import JsString BaseUrl.

Example resolve_plain :
  resolveBackendBaseUrl "192.168.1.5:9200" = "http://192.168.1.5:9200"%string.
Proof. reflexivity. Qed.

Example resolve_v4_wildcard :
  resolveBackendBaseUrl "0.0.0.0:9108" = "http://127.0.0.1:9108"%string.
Proof. reflexivity. Qed.

Example resolve_v6_wildcard :
  resolveBackendBaseUrl "[::]:9108" = "http://127.0.0.1:9108"%string.
Proof. reflexivity. Qed.

Example resolve_v6_loopback :
  resolveBackendBaseUrl "[::1]:9108" = "http://::1:9108"%string.
Proof. reflexivity. Qed.

Example resolve_bare_host :
  resolveBackendBaseUrl "localhost" = "http://127.0.0.1:9108"%string.
Proof. reflexivity. Qed.

Example resolve_port_only :
  resolveBackendBaseUrl ":8080" = "http://127.0.0.1:9108"%string.
Proof. reflexivity. Qed.

Example resolve_padded :
  resolveBackendBaseUrl "  example.org:80  " = "http://example.org:80"%string.
Proof. reflexivity. Qed.

(** U+00A0 in front, U+2028 and U+FEFF behind. *)
Example resolve_padded_beyond_ascii :
  resolveBackendBaseUrl
    (ofBytes [194; 160] +:+ "example.org:80" +:+ ofBytes [226; 128; 168; 239; 187; 191])%N
  = "http://example.org:80"%string.
Proof. reflexivity. Qed.

(** U+0085 and U+200B are no white space for [trim]. *)
Example resolve_keeps_other_controls :
  resolveBackendBaseUrl ("example.org:80" +:+ ofBytes [226; 128; 139])%N
  = ("http://example.org:80" +:+ ofBytes [226; 128; 139])%N /\
  resolveBackendBaseUrl (ofBytes [194; 133] +:+ "example.org:80")%N
  = ("http://" +:+ ofBytes [194; 133] +:+ "example.org:80")%N.
Proof. split; reflexivity. Qed.

End BaseUrlExamples.

(** ** Rules of the program logic *)
Section Logic.

Context (A : World -> Prop).
Context (E : forall X : Type, Request X -> World -> X -> World -> Prop).

Lemma wp_mono {R : Type} (m : Async R) (Q Q' : Outcome R -> World -> Prop) (w : World) :
  (forall o w', Q o w' -> Q' o w') -> wp A E m Q w -> wp A E m Q' w.
Proof.
  intros HQ. revert w.
  induction m as [r|e| |X f k IH|X rq k IH]; intros w; cbn [wp]; auto.
  intros [HA Hk]. split; [exact HA|]. intros x w' HE. apply IH. now apply Hk.
Qed.

(** What [bind] leaves to its continuation. *)
Definition andThen {X R : Type} (k : X -> Async R) (Q : Outcome R -> World -> Prop)
  : Outcome X -> World -> Prop :=
  fun o w' =>
    match o with
    | Returned x => wp A E (k x) Q w'
    | Thrown e => Q (Thrown e) w'
    | Diverged => Q Diverged w'
    end.

Lemma wp_bind {X R : Type} (m : Async X) (k : X -> Async R)
    (Q : Outcome R -> World -> Prop) (w : World) :
  wp A E m (andThen k Q) w -> wp A E (m ≫= k) Q w.
Proof.
  change (m ≫= k) with (bind m k). revert w.
  induction m as [r|e| |Y f k' IH|Y rq k' IH]; intros w; cbn [wp bind andThen]; auto.
  intros [HA Hk]. split; [exact HA|]. intros x w' HE. apply IH. now apply Hk.
Qed.

Definition orCatch {R : Type} (h : string -> Async R) (Q : Outcome R -> World -> Prop)
  : Outcome R -> World -> Prop :=
  fun o w' =>
    match o with
    | Thrown e => wp A E (h e) Q w'
    | _ => Q o w'
    end.

Lemma wp_tryCatch {R : Type} (m : Async R) (h : string -> Async R)
    (Q : Outcome R -> World -> Prop) (w : World) :
  wp A E m (orCatch h Q) w -> wp A E (tryCatch m h) Q w.
Proof.
  revert w.
  induction m as [r|e| |Y f k' IH|Y rq k' IH]; intros w; cbn [wp tryCatch orCatch]; auto.
  intros [HA Hk]. split; [exact HA|]. intros x w' HE. apply IH. now apply Hk.
Qed.

Definition andFinally {R : Type} (g : World -> World) (Q : Outcome R -> World -> Prop)
  : Outcome R -> World -> Prop :=
  fun o w' =>
    match o with
    | Diverged => Q Diverged w'
    | _ => Q o (g w')
    end.

Lemma wp_tryFinally {R : Type} (m : Async R) (g : World -> World)
    (Q : Outcome R -> World -> Prop) (w : World) :
  wp A E m (andFinally g Q) w -> wp A E (tryFinally m g) Q w.
Proof.
  revert w.
  induction m as [r|e| |Y f k' IH|Y rq k' IH]; intros w; cbn [wp tryFinally andFinally]; auto.
  intros [HA Hk]. split; [exact HA|]. intros x w' HE. apply IH. now apply Hk.
Qed.

Lemma wp_conj {R : Type} (m : Async R) (Q1 Q2 : Outcome R -> World -> Prop) (w : World) :
  wp A E m Q1 w -> wp A E m Q2 w -> wp A E m (fun o w' => Q1 o w' /\ Q2 o w') w.
Proof.
  revert w.
  induction m as [r|e| |Y f k' IH|Y rq k' IH]; intros w; cbn [wp]; auto.
  intros [HA Hk1] [_ Hk2]. split; [exact HA|]. intros x w' HE. apply IH; auto.
Qed.

End Logic.

(** The logic at the deterministic environment is the run. *)
Lemma wp_run (env : Env) {R : Type} (m : Async R) (Q : Outcome R -> World -> Prop)
    (w : World) :
  wp anyWorld (byEnv env) m Q w <-> Q (run env m w).1 (run env m w).2.
Proof.
  revert w.
  induction m as [r|e| |X f k IH|X rq k IH]; intros w; cbn [wp run]; try tauto.
  - destruct (f w) as [x w'] eqn:Hf. cbn [fst snd]. apply IH.
  - destruct (respond env rq w) as [x w'] eqn:Hr. rewrite <- IH. split.
    + intros [_ Hk]. now apply Hk.
    + intros Hw. split; [exact I|]. intros x' w'' HE.
      unfold byEnv in HE. rewrite Hr in HE. now inversion HE; subst.
Qed.

Lemma run_bind (env : Env) {X R : Type} (m : Async X) (k : X -> Async R) (w : World) :
  run env (m ≫= k) w =
  match run env m w with
  | (Returned x, w') => run env (k x) w'
  | (Thrown e, w') => (Thrown e, w')
  | (Diverged, w') => (Diverged, w')
  end.
Proof.
  change (m ≫= k) with (bind m k). revert w.
  induction m as [r|e| |Y f k' IH|Y rq k' IH]; intros w; cbn [run bind]; auto.
  - destruct (f w) as [x w']. apply IH.
  - destruct (respond env rq w) as [x w']. apply IH.
Qed.

(** ** The world under the passage of time *)


Lemma settle_exited (t : N) (p : Proc) : exited p = true -> settle t p = p.
Proof. intros H. unfold settle, dueBy. now rewrite H. Qed.

Lemma settle_not_due (t : N) (p : Proc) : dueBy t p = None -> settle t p = p.
Proof. intros H. unfold settle. now rewrite H. Qed.

Lemma markExited_exited (k : ExitKind) (p : Proc) : exited (markExited k p) = true.
Proof. destruct k; unfold exited; cbn; [reflexivity | apply orb_true_r]. Qed.

Lemma settle_script (t : N) (p : Proc) : p_script (settle t p) = p_script p.
Proof. unfold settle. destruct (dueBy t p) as [[c|s]|]; reflexivity. Qed.

Lemma settle_lifecycle (t : N) (p : Proc) : p_lifecycle (settle t p) = p_lifecycle p.
Proof. unfold settle. destruct (dueBy t p) as [[c|s]|]; reflexivity. Qed.

Lemma settle_keeps_exited (t : N) (p : Proc) :
  exited p = true -> exited (settle t p) = true.
Proof. intros H. now rewrite settle_exited. Qed.

Lemma advance_lookup (d : N) (w : World) (h : nat) :
  procs (advance d w) !! h = settle (now w + d) <$> procs w !! h.
Proof. unfold advance. cbn [procs]. apply list_lookup_fmap. Qed.

Lemma advance_tracked (d : N) (w : World) (h : nat) :
  agentChild (advance d w) = Some h ->
  agentChild w = Some h /\ lifecycleFires (now w + d) w = false.
Proof.
  unfold advance. cbn [agentChild].
  destruct (lifecycleFires (now w + d) w); [discriminate | auto].
Qed.

Lemma advance_untracked (d : N) (w : World) :
  agentChild (advance d w) = None ->
  telegramEnabledRuntime (advance d w) = false \/
  (agentChild w = None /\ telegramEnabledRuntime (advance d w) = telegramEnabledRuntime w).
Proof.
  unfold advance. cbn [agentChild telegramEnabledRuntime].
  destruct (lifecycleFires (now w + d) w); auto.
Qed.

Lemma trackedAlive_advance : timeStable trackedAlive.
Proof.
  intros d w Hw h Hh. apply advance_tracked in Hh as [Hh Hf].
  destruct (Hw h Hh) as (p & Hp & Hex & Hl).
  exists p. rewrite advance_lookup, Hp. cbn.
  unfold lifecycleFires in Hf. rewrite Hh, Hp, Hl in Hf. cbn in Hf.
  destruct (dueBy (now w + d) p) eqn:Hd; [discriminate|].
  rewrite (settle_not_due _ _ Hd). auto.
Qed.

Lemma flagOffWhenStopped_advance : timeStable flagOffWhenStopped.
Proof.
  intros d w Hw Hn. destruct (advance_untracked _ _ Hn) as [H|[H1 H2]]; [exact H|].
  rewrite H2. now apply Hw.
Qed.

Lemma childState_advance (h : nat) (b : bool) : timeStable (childState h b).
Proof.
  intros d w [(Hh & Hb & p & Hp & Hex & Hl)|[Hn Hb]].
  - destruct (lifecycleFires (now w + d) w) eqn:Hf.
    + right. unfold advance. cbn. now rewrite Hf.
    + left. unfold advance at 1 2. cbn [agentChild telegramEnabledRuntime].
      rewrite Hf. repeat split; [exact Hh | exact Hb|].
      exists p. rewrite advance_lookup, Hp. cbn.
      unfold lifecycleFires in Hf. rewrite Hh, Hp, Hl in Hf. cbn in Hf.
      destruct (dueBy (now w + d) p) eqn:Hd; [discriminate|].
      rewrite (settle_not_due _ _ Hd). auto.
  - right. unfold advance, lifecycleFires. cbn. rewrite Hn. auto.
Qed.

Lemma stopped_advance :
  timeStable (fun w => agentChild w = None /\ telegramEnabledRuntime w = false).
Proof.
  intros d w [Hn Hb]. unfold advance, lifecycleFires. cbn. rewrite Hn. auto.
Qed.

Lemma timeStable_and (P Q : World -> Prop) :
  timeStable P -> timeStable Q -> timeStable (fun w => P w /\ Q w).
Proof. intros HP HQ d w [? ?]. split; [apply HP | apply HQ]; assumption. Qed.

Lemma timeStable_files (F : gmap string FileContent -> Prop) :
  timeStable (fun w => F (files w)).
Proof. intros d w H. exact H. Qed.

Lemma timeStable_trace (F : list Event -> Prop) :
  timeStable (fun w => F (trace w)).
Proof. intros d w H. exact H. Qed.

Lemma timeStable_flag (F : bool -> Prop) :
  timeStable (fun w => F (agentTransitioning w)).
Proof. intros d w H. exact H. Qed.

Lemma timeStable_clock (t : N) : timeStable (fun w => (t <= now w)%N).
Proof. intros d w H. unfold advance. cbn [now]. lia. Qed.

Lemma timeStable_length (n : nat) : timeStable (fun w => length (procs w) = n).
Proof. intros d w H. unfold advance. cbn [procs]. now rewrite length_fmap. Qed.

Lemma timeStable_exited (h : nat) : timeStable (fun w => hasExited h w = true).
Proof.
  intros d w H. unfold hasExited in *. rewrite advance_lookup.
  destruct (procs w !! h) as [p|]; [|discriminate]. cbn.
  now apply settle_keeps_exited.
Qed.

Lemma timeStable_childPid (h : nat) (x : option N) :
  timeStable (fun w => childPid h w = x).
Proof.
  intros d w H. unfold childPid in *. rewrite advance_lookup.
  destruct (procs w !! h) as [p|]; [|exact H]. cbn. now rewrite settle_script.
Qed.

(** The child has ended or is no longer the tracked one with a pending
    'exit': what a stop that finds [agentChild] empty relies on. *)
Lemma childState_gone (h : nat) (b : bool) (w : World) :
  childState h b w -> agentChild w = None \/ agentChild w = Some h.
Proof. intros [(H & _)|(H & _)]; auto. Qed.

Lemma goneOrTracked_advance (h : nat) :
  timeStable (fun w => agentChild w = Some h \/ hasExited h w = true).
Proof.
  intros d w [Hh|Hx].
  - destruct (lifecycleFires (now w + d) w) eqn:Hf.
    + right. unfold hasExited. rewrite advance_lookup.
      unfold lifecycleFires in Hf. rewrite Hh in Hf.
      destruct (procs w !! h) as [p|]; [|discriminate]. cbn.
      apply andb_true_iff in Hf as [_ Hd]. unfold settle.
      destruct (dueBy (now w + d) p); [apply markExited_exited | discriminate].
    + left. unfold advance. cbn [agentChild]. now rewrite Hf.
  - right. now apply timeStable_exited.
Qed.

(** ** The operations, one by one *)

Ltac wp_simpl :=
  cbn [wp bind get modify await mbind async_bind tryCatch tryFinally fst snd
       andThen orCatch andFinally yamlParse].

(** Resume from a suspension with the answer of the environment. *)
Ltac wp_resume :=
  split; [exact I|];
  let x := fresh "x" in
  let w' := fresh "w'" in
  let HE := fresh "HE" in
  intros x w' HE; unfold byEnv in HE; cbn [respond] in HE.

Section OperationFacts.

Variable env : Env.

Local Abbreviation WP := (wp anyWorld (byEnv env)).
Local Abbreviation procStable := (procStable env).


(** *** [waitForBackendReady] *)

Lemma pollLoop_spec (P : World -> Prop) (url : string) (child : nat) (t0 T : N) :
  timeStable P ->
  forall (fuel : nat) (w : World),
    P w -> (t0 <= now w)%N ->
    (1 <= fuel)%nat -> (t0 + T <= now w + 150 * N.of_nat (fuel - 1))%N ->
    WP (pollLoop fuel url child t0 T)
       (fun o w' =>
          P w' /\ (now w <= now w')%N /\
          exists b, o = Returned b /\
            (b = true ->
             exists t, fo_result (healthz env (url +:+ "/healthz") t) = FetchResponse true) /\
            (b = false -> (T <= now w' - t0)%N \/ exitSeen child w'))
       w.
Proof.
  intros HP. induction fuel as [|n IH]; intros w Hw Ht0 Hfuel Hbound; [lia|].
  cbn [pollLoop]. wp_simpl.
  destruct (N.ltb_spec (now w - t0) T) as [Hlt|Hge].
  - wp_simpl. destruct (procs w !! child) as [p|] eqn:Hp.
    + destruct (notNull (p_exitCode p)) eqn:Hx.
      * wp_simpl. split; [exact Hw|]. split; [lia|]. exists false.
        split; [reflexivity|]. split; [discriminate|]. intros _. right.
        unfold exitSeen. now rewrite Hp.
      * wp_simpl. wp_resume. inversion HE; subst; clear HE.
        assert (forall w1, P w1 -> (now w <= now w1)%N ->
                  WP (Await (Sleep 150)
                        (fun _ => pollLoop n url child t0 T))
                     (fun o w' =>
                        P w' /\ (now w <= now w')%N /\
                        exists b, o = Returned b /\
                          (b = true ->
                           exists t, fo_result (healthz env (url +:+ "/healthz") t)
                                     = FetchResponse true) /\
                          (b = false -> (T <= now w' - t0)%N \/ exitSeen child w'))
                     w1) as Hnext.
        { intros w1 Hw1 Hle. cbn [wp]. wp_resume. inversion HE; subst; clear HE.
          eapply wp_mono; [|apply IH].
          - cbn beta. intros o w2 (H1 & H2 & H3). split; [exact H1|].
            split; [|exact H3]. unfold advance in H2. cbn [now] in H2. lia.
          - now apply HP.
          - unfold advance. cbn [now]. lia.
          - lia.
          - unfold advance. cbn [now]. lia. }
        destruct (fo_result (healthz env (url +:+ "/healthz") (now w))) as [|[|]] eqn:Hr;
          wp_simpl.
        -- apply Hnext; [now apply HP | unfold advance; cbn [now]; lia].
        -- split; [now apply HP|]. split; [unfold advance; cbn [now]; lia|].
           exists true. split; [reflexivity|]. split; [|discriminate].
           intros _. now exists (now w).
        -- apply Hnext; [now apply HP | unfold advance; cbn [now]; lia].
    + wp_simpl. split; [exact Hw|]. split; [lia|]. exists false.
      split; [reflexivity|]. split; [discriminate|]. intros _. right.
      unfold exitSeen. now rewrite Hp.
  - wp_simpl. split; [exact Hw|]. split; [lia|]. exists false.
    split; [reflexivity|]. split; [discriminate|]. intros _. now left.
Qed.

Lemma pollFuel_pos (T : N) : (1 <= pollFuel T)%nat.
Proof. unfold pollFuel. generalize (N.to_nat (T / 150)). intros q. lia. Qed.

Lemma pollFuel_enough (T : N) : (T <= 150 * N.of_nat (pollFuel T - 1))%N.
Proof.
  unfold pollFuel.
  assert (N.of_nat (N.to_nat (T / 150) + 2 - 1) = (T / 150 + 1)%N) as ->.
  { generalize (T / 150)%N. intros q. lia. }
  pose proof (N.div_mod T 150 ltac:(lia)).
  pose proof (N.mod_lt T 150 ltac:(lia)).
  generalize dependent (T / 150)%N. generalize dependent (T mod 150)%N. intros. lia.
Qed.

Lemma waitForBackendReady_spec (P : World -> Prop) (url : string) (child : nat) (T : N)
    (w : World) :
  timeStable P -> P w ->
  WP (waitForBackendReady url child T)
     (fun o w' =>
        P w' /\ (now w <= now w')%N /\
        exists b, o = Returned b /\
          (b = true ->
           exists t, fo_result (healthz env (url +:+ "/healthz") t) = FetchResponse true) /\
          (b = false -> (T <= now w' - now w)%N \/ exitSeen child w'))
     w.
Proof.
  intros HP Hw. unfold waitForBackendReady. wp_simpl.
  apply pollLoop_spec; [exact HP | exact Hw | lia | apply pollFuel_pos |].
  pose proof (pollFuel_enough T). lia.
Qed.

(** *** Predicates that spawning and signalling keep *)

Lemma killProc_fields (h : nat) (sig : Signal) (w : World) :
  let w' := (killProc h sig w).2 in
  now w' = now w /\ files w' = files w /\ agentChild w' = agentChild w /\
  telegramEnabledRuntime w' = telegramEnabledRuntime w /\
  backendBaseUrlRuntime w' = backendBaseUrlRuntime w /\
  agentTransitioning w' = agentTransitioning w /\
  trace w' = trace w ++ [EvKill h sig] /\
  length (procs w') = length (procs w).
Proof.
  unfold killProc. destruct (procs w !! h) as [p|]; [|cbn; tauto].
  destruct (exited p); [cbn; tauto|].
  destruct (sc_killThrows (p_script p) sig); [cbn; tauto|].
  cbn. rewrite length_insert. tauto.
Qed.

Lemma schedule_fields (r : option (N * ExitKind)) (t : N) (p : Proc) :
  let p' := schedule r t p in
  p_script p' = p_script p /\ p_exitCode p' = p_exitCode p /\
  p_signalCode p' = p_signalCode p /\ p_killed p' = p_killed p /\
  p_lifecycle p' = p_lifecycle p.
Proof.
  unfold schedule. destruct r as [[d k]|]; [|cbn; tauto].
  destruct (p_due p) as [[t0 k0]|]; [destruct (t0 <=? t + d)%N|]; cbn; tauto.
Qed.

Lemma schedule_exited (r : option (N * ExitKind)) (t : N) (p : Proc) :
  exited (schedule r t p) = exited p.
Proof.
  destruct (schedule_fields r t p) as (_ & H1 & H2 & _). unfold exited.
  now rewrite H1, H2.
Qed.

(** What [killProc] leaves of any child: the same script, exit state and
    listener. *)
Lemma killProc_lookup (h : nat) (sig : Signal) (w : World) (i : nat) (p : Proc) :
  procs w !! i = Some p ->
  exists p', procs (killProc h sig w).2 !! i = Some p' /\
    p_script p' = p_script p /\ exited p' = exited p /\
    p_exitCode p' = p_exitCode p /\ p_lifecycle p' = p_lifecycle p.
Proof.
  intros Hi. unfold killProc.
  destruct (procs w !! h) as [q|] eqn:Hh; [|exists p; cbn; auto].
  destruct (exited q) eqn:Hx; [exists p; cbn; auto|].
  destruct (sc_killThrows (p_script q) sig); [exists p; cbn; auto|].
  cbn [snd procs setProcs logEvent].
  destruct (decide (h = i)) as [->|Hne].
  - rewrite Hi in Hh. inversion Hh; subst q.
    rewrite list_lookup_insert_eq by (now apply lookup_lt_Some in Hi).
    eexists. split; [reflexivity|].
    destruct (schedule_fields (reaction sig (p_script p)) (now w) (setKilled true p))
      as (H1 & H2 & H3 & _ & H5).
    rewrite schedule_exited. cbn in *. rewrite H1, H2, H5. auto.
  - rewrite list_lookup_insert_ne by exact Hne. exists p. auto.
Qed.

Lemma taskkillHits_fields (pid t : N) (p : Proc) :
  let p' := taskkillHits pid t p in
  p_script p' = p_script p /\ exited p' = exited p /\
  p_exitCode p' = p_exitCode p /\ p_lifecycle p' = p_lifecycle p.
Proof.
  unfold taskkillHits. destruct (exited p) eqn:Hx; [cbn; auto|].
  destruct (bool_decide _); [|cbn; auto].
  destruct (schedule_fields (sc_onTaskkill (p_script p)) t p) as (H1 & H2 & H3 & _ & H5).
  cbn. rewrite schedule_exited. auto.
Qed.

Lemma spawnProc_fields (c : Command) (w : World) :
  let w' := (spawnProc env c w).2 in
  (spawnProc env c w).1 = length (procs w) /\
  now w' = now w /\ files w' = files w /\ agentChild w' = agentChild w /\
  telegramEnabledRuntime w' = telegramEnabledRuntime w /\
  backendBaseUrlRuntime w' = backendBaseUrlRuntime w /\
  agentTransitioning w' = agentTransitioning w /\
  trace w' = trace w ++ [EvSpawn (length (procs w)) c] /\
  length (procs w') = S (length (procs w)).
Proof.
  unfold spawnProc. cbn. rewrite length_app. cbn.
  destruct c; rewrite ?length_fmap; repeat split; lia.
Qed.

Lemma spawnProc_lookup (c : Command) (w : World) (i : nat) (p : Proc) :
  procs w !! i = Some p ->
  exists p', procs (spawnProc env c w).2 !! i = Some p' /\
    p_script p' = p_script p /\ exited p' = exited p /\
    p_exitCode p' = p_exitCode p /\ p_lifecycle p' = p_lifecycle p.
Proof.
  intros Hi. unfold spawnProc. cbn [snd procs setProcs logEvent].
  destruct c as [bin args|args|pid].
  1,2: exists p; split; [now apply lookup_app_l_Some | auto].
  exists (taskkillHits pid (now w) p). split.
  - apply lookup_app_l_Some. now rewrite list_lookup_fmap, Hi.
  - apply taskkillHits_fields.
Qed.

Lemma spawnProc_new (c : Command) (w : World) :
  procs (spawnProc env c w).2 !! length (procs w) =
  Some (newProc (script env (length (procs w))) (now w)).
Proof.
  unfold spawnProc. cbn [snd procs setProcs logEvent].
  destruct c; rewrite lookup_app_r by (rewrite ?length_fmap; lia);
    rewrite ?length_fmap, Nat.sub_diag; reflexivity.
Qed.

Lemma procStable_and (P Q : World -> Prop) :
  procStable P -> procStable Q -> procStable (fun w => P w /\ Q w).
Proof.
  intros (P1 & P2 & P3) (Q1 & Q2 & Q3). split; [|split].
  - now apply timeStable_and.
  - intros h sig w [? ?]. split; [apply P2 | apply Q2]; assumption.
  - intros c w [? ?]. split; [apply P3 | apply Q3]; assumption.
Qed.

Lemma procStable_files (F : gmap string FileContent -> Prop) :
  procStable (fun w => F (files w)).
Proof.
  split; [apply timeStable_files|]. split.
  - intros h sig w H. destruct (killProc_fields h sig w) as (_ & -> & _). exact H.
  - intros c w H. destruct (spawnProc_fields c w) as (_ & _ & -> & _). exact H.
Qed.

Lemma procStable_flag (F : bool -> Prop) :
  procStable (fun w => F (agentTransitioning w)).
Proof.
  split; [apply timeStable_flag|]. split.
  - intros h sig w H.
    destruct (killProc_fields h sig w) as (_ & _ & _ & _ & _ & -> & _). exact H.
  - intros c w H.
    destruct (spawnProc_fields c w) as (_ & _ & _ & _ & _ & _ & -> & _). exact H.
Qed.

Lemma procStable_baseUrl (F : string -> Prop) :
  procStable (fun w => F (backendBaseUrlRuntime w)).
Proof.
  split; [intros d w H; exact H|]. split.
  - intros h sig w H.
    destruct (killProc_fields h sig w) as (_ & _ & _ & _ & -> & _). exact H.
  - intros c w H.
    destruct (spawnProc_fields c w) as (_ & _ & _ & _ & _ & -> & _). exact H.
Qed.

Lemma procStable_inTrace (e : Event) : procStable (fun w => In e (trace w)).
Proof.
  split; [intros d w H; exact H|]. split.
  - intros h sig w H.
    destruct (killProc_fields h sig w) as (_ & _ & _ & _ & _ & _ & -> & _).
    apply in_or_app. now left.
  - intros c w H.
    destruct (spawnProc_fields c w) as (_ & _ & _ & _ & _ & _ & _ & -> & _).
    apply in_or_app. now left.
Qed.

Lemma trackedOrReset_advance (h : nat) : timeStable (trackedOrReset h).
Proof.
  intros d w [Hh|[Hn Hb]]; unfold trackedOrReset, advance; cbn.
  - destruct (lifecycleFires (now w + d) w); auto.
  - unfold lifecycleFires. rewrite Hn. auto.
Qed.

Lemma procStable_trackedOrReset (h : nat) : procStable (trackedOrReset h).
Proof.
  split; [apply trackedOrReset_advance|]. split.
  - intros h' sig w H. unfold trackedOrReset.
    destruct (killProc_fields h' sig w) as (_ & _ & -> & -> & _). exact H.
  - intros c w H. unfold trackedOrReset.
    destruct (spawnProc_fields c w) as (_ & _ & _ & -> & -> & _). exact H.
Qed.

Lemma procStable_exited (h : nat) : procStable (fun w => hasExited h w = true).
Proof.
  split; [apply timeStable_exited|]. split.
  - intros h' sig w H. unfold hasExited in *.
    destruct (procs w !! h) as [p|] eqn:Hp; [|discriminate].
    destruct (killProc_lookup h' sig w h p Hp) as (p' & -> & _ & -> & _). exact H.
  - intros c w H. unfold hasExited in *.
    destruct (procs w !! h) as [p|] eqn:Hp; [|discriminate].
    destruct (spawnProc_lookup c w h p Hp) as (p' & -> & _ & -> & _). exact H.
Qed.

Lemma childPid_kill (h h' : nat) (sig : Signal) (w : World) (x : N) :
  childPid h w = Some x -> childPid h (killProc h' sig w).2 = Some x.
Proof.
  unfold childPid. destruct (procs w !! h) as [p|] eqn:Hp; [|discriminate].
  destruct (killProc_lookup h' sig w h p Hp) as (p' & -> & -> & _). auto.
Qed.

Lemma childPid_spawn (h : nat) (c : Command) (w : World) (x : N) :
  childPid h w = Some x -> childPid h (spawnProc env c w).2 = Some x.
Proof.
  unfold childPid. destruct (procs w !! h) as [p|] eqn:Hp; [|discriminate].
  destruct (spawnProc_lookup c w h p Hp) as (p' & -> & -> & _). auto.
Qed.

Lemma procStable_terminationAsked (h : nat) : procStable (terminationAsked h).
Proof.
  split; [|split].
  - intros d w [H|(k & x & Hx & H)]; [now left|]. right. exists k, x.
    split; [now apply (timeStable_childPid h (Some x)) | exact H].
  - intros h' sig w H. unfold terminationAsked.
    destruct (killProc_fields h' sig w) as (_ & _ & _ & _ & _ & _ & -> & _).
    destruct H as [H|(k & x & Hx & H)].
    + left. apply in_or_app. now left.
    + right. exists k, x. split; [now apply childPid_kill|]. apply in_or_app. now left.
  - intros c w H. unfold terminationAsked.
    destruct (spawnProc_fields c w) as (_ & _ & _ & _ & _ & _ & _ & -> & _).
    destruct H as [H|(k & x & Hx & H)].
    + left. apply in_or_app. now left.
    + right. exists k, x. split; [now apply childPid_spawn|]. apply in_or_app. now left.
Qed.

(** *** [waitForExit] *)

Lemma waitForExit_spec (P : World -> Prop) (child : nat) (ms : N) (w : World) :
  timeStable P -> P w ->
  WP (waitForExit child ms) (fun o w' => o = Returned tt /\ P w') w.
Proof.
  intros HP Hw. unfold waitForExit. wp_simpl.
  destruct (procs w !! child) as [p|]; [|wp_simpl; auto].
  destruct (notNull (p_exitCode p) || p_killed p); wp_simpl; [auto|].
  wp_resume. inversion HE; subst. split; [reflexivity | now apply HP].
Qed.

(** *** [stopAgentProcess] *)

Lemma forgetChild_untracks (h : nat) (w : World) :
  trackedOrReset h w ->
  agentChild (forgetChild h w) = None /\ telegramEnabledRuntime (forgetChild h w) = false.
Proof.
  unfold forgetChild. intros [Hh|[Hn Hb]].
  - rewrite bool_decide_eq_true_2 by exact Hh. cbn. auto.
  - rewrite bool_decide_eq_false_2 by congruence. auto.
Qed.

(** What [stopAgentProcess] needs of a predicate to keep it: it
    signals, it waits, and on Windows it spawns [taskkill]. *)
Definition stopStable (P : World -> Prop) : Prop :=
  timeStable P /\
  (forall h sig w, P w -> P (killProc h sig w).2) /\
  (win32 env = true -> forall pid w, P w -> P (spawnProc env (CmdTaskkill pid) w).2).

Lemma procStable_stopStable (P : World -> Prop) : procStable P -> stopStable P.
Proof. intros (H1 & H2 & H3). split; [exact H1|]. split; [exact H2|]. intros _ pid. apply H3. Qed.

Lemma stopStable_and (P Q : World -> Prop) :
  stopStable P -> stopStable Q -> stopStable (fun w => P w /\ Q w).
Proof.
  intros (P1 & P2 & P3) (Q1 & Q2 & Q3). split; [|split].
  - now apply timeStable_and.
  - intros h sig w [? ?]. split; [apply P2 | apply Q2]; assumption.
  - intros Hwin pid w [? ?]. split; [apply P3 | apply Q3]; assumption.
Qed.

Lemma stopAgentProcess_keeps (P : World -> Prop) (w : World) :
  stopStable P -> (forall h w', P w' -> P (forgetChild h w')) -> P w ->
  WP (stopAgentProcess env)
     (fun o w' =>
        P w' /\ (exists r, o = Returned r) /\
        (agentChild w = None -> w' = w) /\
        (forall h, agentChild w = Some h ->
           agentChild w' = None /\ telegramEnabledRuntime w' = false /\
           terminationAsked h w'))
     w.
Proof.
  intros HP Hforget Hw. unfold stopAgentProcess. wp_simpl.
  destruct (agentChild w) as [child|] eqn:Hc; wp_simpl.
  2: { split; [exact Hw|]. split; [now exists true|]. split; [auto | discriminate]. }
  set (S1 := fun w' => P w' /\ trackedOrReset child w').
  set (S2 := fun w' => S1 w' /\ terminationAsked child w').
  assert (stopStable S1) as HS1
    by (apply stopStable_and;
        [exact HP | apply procStable_stopStable, procStable_trackedOrReset]).
  assert (stopStable S2) as HS2
    by (apply stopStable_and;
        [exact HS1 | apply procStable_stopStable, procStable_terminationAsked]).
  assert (S1 w) as Hw1 by (split; [exact Hw | now left]).
  (* what the [finally] block makes of any world in which S2 holds *)
  assert (forall (o : Outcome bool) w', (exists r, o = Returned r) -> S2 w' ->
            P (forgetChild child w') /\ (exists r, o = Returned r) /\
            (Some child = None -> forgetChild child w' = w) /\
            (forall h, Some child = Some h ->
               agentChild (forgetChild child w') = None /\
               telegramEnabledRuntime (forgetChild child w') = false /\
               terminationAsked h (forgetChild child w'))) as Hfin.
  { intros o w' Ho [[HPw Htr] Hta]. split; [now apply Hforget|].
    split; [exact Ho|]. split; [discriminate|]. intros h [= <-].
    destruct (forgetChild_untracks _ _ Htr) as [H1 H2]. repeat split; try assumption.
    unfold forgetChild. destruct (bool_decide _); [|exact Hta].
    exact Hta. }
  apply wp_tryFinally, wp_tryCatch. wp_simpl.
  (* after the termination request *)
  assert (forall w1, S2 w1 ->
            WP (waitForExit child 7000;;
                c ← get (fun w => procs w !! child);
                (if match c with
                    | Some p => negb (notNull (p_exitCode p)) && negb (p_killed p)
                    | None => false
                    end
                 then childKill child SIGKILL;; waitForExit child 2000
                 else Ret tt);;
                Ret true)
               (orCatch anyWorld (byEnv env) (fun _ => Ret false)
                  (andFinally (forgetChild child)
                     (fun o w' =>
                        P w' /\ (exists r, o = Returned r) /\
                        (Some child = None -> w' = w) /\
                        (forall h, Some child = Some h ->
                           agentChild w' = None /\ telegramEnabledRuntime w' = false /\
                           terminationAsked h w'))))
               w1) as Hrest.
  { intros w1 Hw2. apply wp_bind.
    eapply wp_mono; [|apply (waitForExit_spec S2); [apply HS2 | exact Hw2]].
    intros o w2 [-> Hw3]. cbn [andThen]. wp_simpl.
    destruct (match procs w2 !! child with
              | Some p => negb (notNull (p_exitCode p)) && negb (p_killed p)
              | None => false
              end).
    - unfold childKill. wp_simpl.
      pose proof (proj1 (proj2 HS2) child SIGKILL w2 Hw3) as Hw4.
      destruct (killProc child SIGKILL w2) as [[|b] w4]; cbn [fst snd] in *; wp_simpl.
      + apply Hfin; [now exists false | exact Hw4].
      + apply wp_bind.
        eapply wp_mono; [|apply (waitForExit_spec S2); [apply HS2 | exact Hw4]].
        intros o w5 [-> Hw5]. cbn [andThen]. wp_simpl.
        apply Hfin; [now exists true | exact Hw5].
    - wp_simpl. apply Hfin; [now exists true | exact Hw3]. }
  destruct (win32 env && truthyPid (childPid child w)) eqn:Hwin.
  - wp_simpl.
    destruct (spawnProc_fields (CmdTaskkill (default 0%N (childPid child w))) w)
      as (Hk & _ & _ & _ & _ & _ & _ & Htr & _).
    pose proof (proj2 (proj2 HS1) (proj1 (proj1 (andb_true_iff _ _) Hwin))
                  (default 0%N (childPid child w)) w Hw1) as Hw2.
    assert (S2 (spawnProc env (CmdTaskkill (default 0%N (childPid child w))) w).2) as Hw3.
    { split; [exact Hw2|]. right.
      apply andb_true_iff in Hwin as [_ Hpid].
      destruct (childPid child w) as [x|] eqn:Hx; [|discriminate].
      exists (length (procs w)), x. split; [now apply childPid_spawn|].
      rewrite Htr. apply in_or_app. right. now left. }
    apply wp_bind.
    eapply wp_mono; [|apply (waitForExit_spec S2); [apply HS2 | exact Hw3]].
    intros o w2 [-> Hw4]. cbn [andThen]. now apply Hrest.
  - unfold childKill. wp_simpl.
    pose proof (proj1 (proj2 HS1) child SIGTERM w Hw1) as Hw2.
    destruct (killProc_fields child SIGTERM w) as (_ & _ & _ & _ & _ & _ & Htr & _).
    assert (S2 (killProc child SIGTERM w).2) as Hw3.
    { split; [exact Hw2|]. left. rewrite Htr. apply in_or_app. right. now left. }
    destruct (killProc child SIGTERM w) as [[|b] w2]; cbn [fst snd] in *; wp_simpl.
    + apply Hfin; [now exists false | exact Hw3].
    + now apply Hrest.
Qed.

Lemma stopAgentProcess_spec (P : World -> Prop) (w : World) :
  procStable P -> (forall h w', P w' -> P (forgetChild h w')) -> P w ->
  WP (stopAgentProcess env)
     (fun o w' =>
        P w' /\ (exists r, o = Returned r) /\
        (agentChild w = None -> w' = w) /\
        (forall h, agentChild w = Some h ->
           agentChild w' = None /\ telegramEnabledRuntime w' = false /\
           terminationAsked h w'))
     w.
Proof. intros HP. apply stopAgentProcess_keeps. now apply procStable_stopStable. Qed.

(** *** The configuration file *)

Lemma withTelegramEnabled_same (c : Config) :
  withTelegramEnabled c (cfg_telegram_enabled c) = c.
Proof. now destruct c as [l [b|]]. Qed.

Lemma withTelegramEnabled_twice (c : Config) (a b : bool) :
  withTelegramEnabled (withTelegramEnabled c a) b = withTelegramEnabled c b.
Proof. now destruct c as [l [x|]]. Qed.

Lemma withTelegramEnabled_flag (c : Config) (b : bool) :
  holdsFlag c = true -> cfg_telegram_enabled (withTelegramEnabled c b) = b.
Proof. destruct c as [l [x|]]; [reflexivity | discriminate]. Qed.

Lemma setTelegramEnabledInConfig_spec (P : World -> Prop) (path : string) (b : bool)
    (w : World) :
  timeStable P -> (forall fs w', P w' -> P (setFiles fs w')) -> P w ->
  WP (setTelegramEnabledInConfig path b)
     (fun o w' =>
        P w' /\ (exists r, o = Returned r) /\
        (forall c, files w !! path = Some (Parsed c) -> writable env path = true ->
           files w' !! path = Some (Parsed (withTelegramEnabled c b))))
     w.
Proof.
  intros HP HF Hw. unfold setTelegramEnabledInConfig, readFile, writeFile.
  apply wp_tryCatch. wp_simpl. wp_resume. inversion HE; subst; clear HE.
  destruct (files w !! path) as [[|c]|] eqn:Hf; wp_simpl.
  - split; [now apply HP|]. split; [now exists false | discriminate].
  - destruct (Bool.eqb (cfg_telegram_enabled c) b) eqn:Hb; wp_simpl.
    + split; [now apply HP|]. split; [now exists false|].
      intros c' [= <-] _. apply Bool.eqb_prop in Hb as <-.
      now rewrite withTelegramEnabled_same.
    + wp_resume. destruct (writable env path) eqn:Hwr; inversion HE; subst; clear HE;
        wp_simpl.
      * split; [now apply HP, HF, HP|]. split; [now exists true|].
        intros c' [= <-] _. unfold advance, setFiles. cbn [files].
        apply lookup_insert_eq.
      * split; [now apply HP, HP|]. split; [now exists false | intros ? _ [=]].
  - split; [now apply HP|]. split; [now exists false | discriminate].
Qed.

Lemma readListenFromConfig_spec (P : World -> Prop) (path : string) (w : World) :
  timeStable P -> P w ->
  WP (readListenFromConfig path) (fun o w' => P w' /\ exists s, o = Returned s) w.
Proof.
  intros HP Hw. unfold readListenFromConfig, readFile.
  apply wp_tryCatch. wp_simpl. wp_resume. inversion HE; subst; clear HE.
  destruct (files w !! path) as [[|c]|]; wp_simpl;
    (split; [now apply HP | eauto]).
Qed.

(** *** [startAgentManaged] *)

Lemma childState_registered (h : nat) (b : bool) (c : Command) (w : World) :
  h = length (procs w) ->
  let w2 := setProcs (alter (setLifecycle true) h (procs (spawnProc env c w).2))
              (setTelegramEnabledRuntime b
                 (setAgentChild (Some h) (spawnProc env c w).2)) in
  childState h b w2 /\ hasExited h w2 = false.
Proof.
  intros ->. cbn zeta.
  assert (alter (setLifecycle true) (length (procs w)) (procs (spawnProc env c w).2)
            !! length (procs w)
          = Some (setLifecycle true (newProc (script env (length (procs w))) (now w))))
    as Hl by (rewrite list_lookup_alter_eq, spawnProc_new; reflexivity).
  split.
  - left. cbn [agentChild telegramEnabledRuntime procs setProcs setTelegramEnabledRuntime
               setAgentChild].
    repeat split. eexists. split; [exact Hl|]. split; reflexivity.
  - unfold hasExited. cbn [procs setProcs]. now rewrite Hl.
Qed.

Lemma startAgentManaged_spec (bin cfg : string) (b sync : bool) (w : World) :
  agentChild w = None ->
  WP (startAgentManaged env bin cfg b sync)
     (fun o w' =>
        agentTransitioning w' = agentTransitioning w /\
        configAfter env cfg b sync w w' /\
        startedAs env bin b w o w')
     w.
Proof.
  intros Hnone. unfold startAgentManaged.
  set (h := length (procs w)).
  (* from the spawn on *)
  assert (forall w1,
            agentChild w1 = None ->
            telegramEnabledRuntime w1 = telegramEnabledRuntime w ->
            trace w1 = trace w -> length (procs w1) = length (procs w) ->
            agentTransitioning w1 = agentTransitioning w ->
            WP (child ← spawnAgentProcess env bin cfg b;
                modify (setAgentChild (Some child));;
                modify (setTelegramEnabledRuntime b);;
                attachAgentLifecycle child;;
                listen ← readListenFromConfig cfg;
                let baseUrl := BaseUrl.resolveBackendBaseUrl listen in
                modify (setBackendBaseUrlRuntime baseUrl);;
                ready ← waitForBackendReady baseUrl child 30000;
                if negb ready
                then stopAgentProcess env;; Ret (StartedFailed healthMessage baseUrl)
                else Ret (StartedOk baseUrl))
               (fun o w' =>
                  agentTransitioning w' = agentTransitioning w /\
                  files w' = files w1 /\
                  startedAs env bin b w o w')
               w1) as Hrest.
  { intros w1 Hn1 Hr1 Ht1 Hl1 Hx1.
    assert (forall c, isSpawn (EvSpawn h c) = true ->
              WP (child ← Do (spawnProc env c) Ret;
                  modify (setAgentChild (Some child));;
                  modify (setTelegramEnabledRuntime b);;
                  attachAgentLifecycle child;;
                  listen ← readListenFromConfig cfg;
                  let baseUrl := BaseUrl.resolveBackendBaseUrl listen in
                  modify (setBackendBaseUrlRuntime baseUrl);;
                  ready ← waitForBackendReady baseUrl child 30000;
                  if negb ready
                  then stopAgentProcess env;; Ret (StartedFailed healthMessage baseUrl)
                  else Ret (StartedOk baseUrl))
                 (fun o w' =>
                    agentTransitioning w' = agentTransitioning w /\
                    files w' = files w1 /\
                    startedAs env bin b w o w')
                 w1) as Hspawned.
    { intros c Hc. unfold attachAgentLifecycle. wp_simpl.
      destruct (spawnProc_fields c w1) as (-> & _ & Hf2 & _ & _ & _ & Hx2 & Ht2 & Hl2).
      rewrite Hl1. fold h.
      set (w2 := setProcs _ _).
      pose (P3 := fun w' =>
                    (childState h b w' /\
                     (agentChild w' = Some h \/ hasExited h w' = true)) /\
                    (length (procs w') = S h /\ trace w' = trace w ++ [EvSpawn h c]) /\
                    (files w' = files w1 /\
                     agentTransitioning w' = agentTransitioning w)).
      assert (timeStable P3) as HP3.
      { repeat apply timeStable_and.
        - apply childState_advance.
        - apply goneOrTracked_advance.
        - apply timeStable_length.
        - apply (timeStable_trace (fun t => t = trace w ++ [EvSpawn h c])).
        - apply (timeStable_files (fun f => f = files w1)).
        - apply (timeStable_flag (fun x => x = agentTransitioning w)). }
      assert (P3 w2) as Hw2.
      { destruct (childState_registered h b c w1 ltac:(now rewrite Hl1)) as [Hcs _].
        split; [split; [exact Hcs | now left]|]. subst w2.
        cbn [procs trace files agentTransitioning
             setProcs setTelegramEnabledRuntime setAgentChild].
        split; [split|split].
        - rewrite length_alter, Hl2, Hl1. reflexivity.
        - rewrite Ht2, Ht1, Hl1. reflexivity.
        - exact Hf2.
        - now rewrite Hx2. }
      clearbody w2. apply wp_bind.
      eapply wp_mono; [|apply (readListenFromConfig_spec P3); [exact HP3 | exact Hw2]].
      intros o w3 [Hw3 [listen ->]]. cbn [andThen]. wp_simpl.
      set (baseUrl := BaseUrl.resolveBackendBaseUrl listen).
      assert (P3 (setBackendBaseUrlRuntime baseUrl w3)) as Hw4 by exact Hw3.
      apply wp_bind.
      eapply wp_mono;
        [|apply (waitForBackendReady_spec P3); [exact HP3 | exact Hw4]].
      intros o w5 (Hw5 & _ & ready & -> & Hok & _). cbn [andThen].
      destruct Hw5 as ((Hcs & Hgone) & (Hlen & Htr) & (Hfiles & Hflag)).
      destruct ready; cbn [negb]; wp_simpl.
      - split; [exact Hflag|]. split; [exact Hfiles|]. cbn [startedAs]. fold h.
        split.
        { destruct Hcs as [(Hh & Hb & p & Hp & Hx & _)|(Hn & Hb)].
          - left. unfold hasExited. rewrite Hp. auto.
          - right. destruct Hgone as [Hh|Hx]; [congruence | auto]. }
        split; [exact Hlen|].
        split; [now exists c|]. destruct (Hok eq_refl) as [t Ht]. eauto.
      - apply wp_bind.
        eapply wp_mono;
          [|apply (stopAgentProcess_spec
                     (fun w' => (files w' = files w1 /\
                                 agentTransitioning w' = agentTransitioning w) /\
                                In (EvSpawn h c) (trace w')))].
        + intros o w6 (((Hf6 & Hx6) & Hin) & [r ->] & Hsame & Hstop).
          cbn [andThen]. wp_simpl.
          split; [exact Hx6|]. split; [exact Hf6|]. cbn [startedAs]. fold h.
          split; [reflexivity|].
          destruct Hcs as [(Hh & _)|(Hn & Hb)].
          * destruct (Hstop h Hh) as (H1 & H2 & H3). eauto 8.
          * rewrite (Hsame Hn). destruct Hgone as [Hh|Hx]; [congruence|].
            rewrite (Hsame Hn) in Hin. eauto 8.
        + repeat apply procStable_and;
            [apply (procStable_files (fun f => f = files w1))
            |apply (procStable_flag (fun x => x = agentTransitioning w))
            |apply procStable_inTrace].
        + intros h' w' Hw'. unfold forgetChild. now destruct (bool_decide _).
        + split; [now split|]. rewrite Htr. apply in_or_app. right. now left. }
    unfold spawnAgentProcess. destruct (existsSync env bin) eqn:Hex.
    - now apply Hspawned.
    - destruct (isPackaged env) eqn:Hpk.
      + wp_simpl. repeat split; assumption.
      + now apply Hspawned. }
  apply wp_bind. destruct sync.
  - apply wp_bind.
    eapply wp_mono;
      [|apply (setTelegramEnabledInConfig_spec
                 (fun w' => (agentChild w' = None /\
                             telegramEnabledRuntime w' = telegramEnabledRuntime w) /\
                            (trace w' = trace w /\ length (procs w') = length (procs w)) /\
                            agentTransitioning w' = agentTransitioning w))].
    + intros o w1 (((Hn1 & Hr1) & (Ht1 & Hl1) & Hx1) & [r ->] & Hfile).
      cbn [andThen]. wp_simpl.
      eapply wp_mono; [|now apply Hrest].
      intros o w' (H1 & H2 & H3). split; [exact H1|]. split; [|exact H3].
      unfold configAfter. intros c Hc Hwr. rewrite H2. now apply Hfile.
    + intros d w' ((Hn & Hr) & (Ht & Hl) & Hx). unfold advance, lifecycleFires.
      cbn. rewrite Hn, length_fmap. auto.
    + intros fs w' H. exact H.
    + auto.
  - wp_simpl. eapply wp_mono; [|now apply Hrest].
    intros o w' (H1 & H2 & H3). split; [exact H1|]. split; [exact H2 | exact H3].
Qed.

(** *** The handlers *)

Lemma agentOp_spec {R : Type} (fn : Async R) (Q : Outcome R -> World -> Prop) (w : World) :
  WP fn (andFinally (setAgentTransitioning false) Q) (setAgentTransitioning true w) ->
  WP (agentOp fn) Q w.
Proof. intros H. unfold agentOp. wp_simpl. now apply wp_tryFinally. Qed.

Lemma agentStartBody_spec (payload : option StartPayload) (w : World) :
  agentChild w = None ->
  WP (agentStartBody env payload)
     (fun o w' =>
        agentTransitioning w' = agentTransitioning w /\
        configAfter env (startConfigPath env payload) (startTelegramEnabled payload) true w w' /\
        exists s,
          (match s with
           | Returned (StartedOk _) => o = Returned (startReply (startTelegramEnabled payload))
           | Returned (StartedFailed m _) => o = Returned {| ok := false; message := m |}
           | Thrown e =>
               o = Returned {| ok := false;
                               message := "Не удалось запустить агент: " +:+ errorToString e |}
           | Diverged => False
           end) /\
          startedAs env (startBinPath env payload) (startTelegramEnabled payload) w s w')
     w.
Proof.
  intros Hnone. unfold agentStartBody. wp_simpl. rewrite Hnone. cbn [notNull].
  apply wp_tryCatch, wp_bind.
  eapply wp_mono; [|now apply startAgentManaged_spec].
  intros o w' (Hflag & Hcfg & Hst). cbn [andThen orCatch].
  destruct o as [[u|m u]|e|]; wp_simpl.
  - split; [exact Hflag|]. split; [exact Hcfg|]. exists (Returned (StartedOk u)). auto.
  - split; [exact Hflag|]. split; [exact Hcfg|]. exists (Returned (StartedFailed m u)). auto.
  - split; [exact Hflag|]. split; [exact Hcfg|]. exists (Thrown e). split; [reflexivity|].
    cbn [startedAs] in *. destruct Hst as (H1 & H2 & H3 & H4 & H5 & H6 & H7).
    repeat split; assumption.
  - destruct Hst.
Qed.

Lemma agentStopBody_spec (w : World) :
  flagOffWhenStopped w ->
  WP (agentStopBody env)
     (fun o w' =>
        (exists r, o = Returned r) /\
        agentChild w' = None /\ telegramEnabledRuntime w' = false /\
        files w' = files w /\ agentTransitioning w' = agentTransitioning w /\
        (forall h, agentChild w = Some h ->
           o = Returned {| ok := true; message := "Агент остановлен" |} /\
           terminationAsked h w') /\
        (agentChild w = None ->
           o = Returned {| ok := false; message := "Агент не запущен" |} /\ w' = w))
     w.
Proof.
  intros Hoff. unfold agentStopBody. wp_simpl.
  destruct (agentChild w) as [h|] eqn:Hh; cbn [notNull negb].
  - apply wp_tryCatch, wp_bind.
    eapply wp_mono;
      [|apply (stopAgentProcess_spec
                 (fun w' => files w' = files w /\
                            agentTransitioning w' = agentTransitioning w))].
    + intros o w' ((Hf & Hx) & [r ->] & _ & Hstop). cbn [andThen orCatch]. wp_simpl.
      destruct (Hstop h Hh) as (H1 & H2 & H3).
      split; [eauto|]. split; [exact H1|]. split; [exact H2|]. split; [exact Hf|].
      split; [exact Hx|]. split; [|discriminate].
      intros h' [= <-]. auto.
    + apply procStable_and;
        [apply (procStable_files (fun f => f = files w))
        |apply (procStable_flag (fun x => x = agentTransitioning w))].
    + intros h' w' Hw'. unfold forgetChild. now destruct (bool_decide _).
    + auto.
  - wp_simpl. split; [eauto|]. split; [exact Hh|]. split; [now apply Hoff|].
    split; [reflexivity|]. split; [reflexivity|]. split; [discriminate | auto].
Qed.

Lemma persisted_of_file (cfg : string) (c : Config) (b : bool) (w : World) :
  holdsFlag c = true ->
  files w !! cfg = Some (Parsed (withTelegramEnabled c b)) ->
  persistedEnabled cfg w = Some b.
Proof.
  intros Hc H. unfold persistedEnabled. now rewrite H, withTelegramEnabled_flag.
Qed.

Lemma telegramSetEnabledBody_spec (target : bool) (w : World) :
  flagOffWhenStopped w ->
  WP (telegramSetEnabledBody env target)
     (fun o w' =>
        agentTransitioning w' = agentTransitioning w /\
        fileFollowsFlag env (defaultConfigPath env) w w' /\
        exists r, o = Returned r /\ toggleFinished env (telegramEnabledRuntime w) target w r w')
     w.
Proof.
  intros Hoff. unfold telegramSetEnabledBody. wp_simpl.
  set (prev := telegramEnabledRuntime w).
  fold (defaultConfigPath env).
  set (cfg := defaultConfigPath env).
  set (bin := defaultMonitordBin env).
  apply wp_tryCatch, wp_bind.
  eapply wp_mono;
    [|apply (stopAgentProcess_spec
               (fun w' => files w' = files w /\
                          agentTransitioning w' = agentTransitioning w))].
  2: { apply procStable_and;
         [apply (procStable_files (fun f => f = files w))
         |apply (procStable_flag (fun x => x = agentTransitioning w))]. }
  2: { intros h' w' Hw'. unfold forgetChild. now destruct (bool_decide _). }
  2: { auto. }
  intros o w1 ((Hf1 & Hx1) & [r1 ->] & Hsame & Hstop). cbn [andThen orCatch].
  assert (agentChild w1 = None /\ telegramEnabledRuntime w1 = false) as [Hn1 Hr1].
  { destruct (agentChild w) as [h0|] eqn:Hh0.
    - destruct (Hstop h0 eq_refl) as (H1 & H2 & _). auto.
    - rewrite (Hsame eq_refl). auto. }
  (* with nothing tracked the file does not matter *)
  assert (forall v, agentChild v = None -> fileFollowsFlag env cfg w v) as Hgone.
  { intros v Hv c _ _ Hc. congruence. }
  (* the child of the last start is tracked with its flag, or nothing is *)
  assert (forall h b v, runningOrExited h b v ->
            (forall c, files w !! cfg = Some (Parsed c) -> writable env cfg = true ->
               files v !! cfg = Some (Parsed (withTelegramEnabled c b))) ->
            fileFollowsFlag env cfg w v) as Hfollows.
  { intros h b v [(_ & Hb & _)|(Hn & _)] Hfile; [|now apply Hgone].
    intros c Hc Hwr _. rewrite Hb. now apply Hfile. }
  apply wp_bind.
  eapply wp_mono; [|apply (startAgentManaged_spec bin cfg target true w1 Hn1)].
  intros o w2 (Hx2 & Hcfg2 & Hst2). cbn [andThen orCatch].
  unfold configAfter in Hcfg2. rewrite Hf1 in Hcfg2.
  destruct o as [[u|m u]|e|]; cbn [startedAs] in Hst2; cbn [startedOk negb].
  - (* the restart came up *)
    wp_simpl. destruct Hst2 as (Hst2 & _). split; [congruence|].
    split; [exact (Hfollows _ _ _ Hst2 Hcfg2)|].
    eexists. split; [reflexivity|]. left. split; [reflexivity|]. eauto.
  - (* it did not: roll back *)
    destruct Hst2 as (-> & Hn2 & Hr2 & _).
    apply wp_bind.
    eapply wp_mono; [|apply (startAgentManaged_spec bin cfg prev true w2 Hn2)].
    intros o w3 (Hx3 & Hcfg3 & Hst3). cbn [andThen orCatch].
    unfold configAfter in Hcfg3.
    destruct o as [[u'|m' u']|e'|]; cbn [startedAs] in Hst3; cbn [startedOk startedMessage];
      wp_simpl.
    + destruct Hst3 as (Hst3 & _). split; [congruence|]. split.
      { apply (Hfollows _ _ _ Hst3). intros c Hc Hwr.
        rewrite <- (withTelegramEnabled_twice c target prev).
        apply Hcfg3; [now apply Hcfg2 | exact Hwr]. }
      eexists. split; [reflexivity|]. right. left. split; [reflexivity|]. eauto.
    + destruct Hst3 as (_ & Hn3 & Hr3 & _). split; [congruence|].
      split; [now apply Hgone|].
      eexists. split; [reflexivity|]. right. right. left. auto.
    + (* the binary was there a moment ago *)
      destruct Hst3 as (He & Hp & -> & Hn3 & Hr3 & _). split; [congruence|].
      split; [now apply Hgone|].
      eexists. split; [reflexivity|]. right. right. right. rewrite Hr3, Hr2. auto.
    + destruct Hst3.
  - destruct Hst2 as (He & Hp & -> & Hn2 & Hr2 & _). wp_simpl. split; [congruence|].
    split; [now apply Hgone|].
    eexists. split; [reflexivity|]. right. right. right. rewrite Hr2, Hr1. auto.
  - destruct Hst2.
Qed.

End OperationFacts.

(** ** The lifecycle operations, run to their end *)

Lemma run_returns (env : Env) {R : Type} (m : Async R) (w : World)
    (Q : Outcome R -> World -> Prop) :
  wp anyWorld (byEnv env) m Q w ->
  exists o w', run env m w = (o, w') /\ Q o w'.
Proof.
  intros H. apply wp_run in H. destruct (run env m w) as [o w']. eauto.
Qed.







(** The guard of [agent:start]. *)
Lemma start_guard (env : Env) (payload : option StartPayload) (w : World) (h : nat) :
  agentChild w = Some h ->
  run env (agentStart env payload) w
  = (Returned alreadyRunningReply, setAgentTransitioning false w).
Proof.
  intros Hh. unfold agentStart, agentOp, agentStartBody.
  cbn [run bind get modify mbind async_bind tryFinally agentChild setAgentTransitioning].
  rewrite Hh. reflexivity.
Qed.

(** What an operation that is not refused leaves. *)
Lemma operation_leaves_flag_in_file (env : Env) (op : Operation) (w : World) (c : Config) :
  flagOffWhenStopped w ->
  passesGuard op w ->
  files w !! operationConfigPath env op = Some (Parsed c) ->
  holdsFlag c = true ->
  writable env (operationConfigPath env op) = true ->
  exists r w',
    run env (operation env op) w = (Returned r, w') /\
    agentTransitioning w' = false /\
    (forall h, agentChild w' = Some h ->
       persistedEnabled (operationConfigPath env op) w' = Some (telegramEnabledRuntime w')) /\
    (agentChild w' = None -> telegramEnabledRuntime w' = false) /\
    (op = OpStop -> agentChild w' = None).
Proof.
  intros Hoff Hguard Hfile Hholds Hwr.
  destruct (run_returns env (operation env op) w
              (fun o w' =>
                 (exists r, o = Returned r) /\ agentTransitioning w' = false /\
                 (forall h, agentChild w' = Some h ->
                    persistedEnabled (operationConfigPath env op) w'
                    = Some (telegramEnabledRuntime w')) /\
                 (agentChild w' = None -> telegramEnabledRuntime w' = false) /\
                 (op = OpStop -> agentChild w' = None)))
    as (o & w' & Hrun & [r ->] & Hrest); [|now exists r, w'].
  unfold operation.
  destruct op as [payload| |target]; cbn [operationBody operationConfigPath passesGuard] in *.
  - apply agentOp_spec.
    eapply wp_mono; [|apply agentStartBody_spec; exact Hguard].
    intros o w' (_ & Hcfg & s & Ho & Hs). unfold configAfter in Hcfg.
    specialize (Hcfg c Hfile Hwr).
    assert (exists r, o = Returned r) as [r ->]
      by (destruct s as [[u|m u]|e|]; [eauto | eauto | eauto | destruct Ho]).
    cbn [andFinally]. split; [eauto|]. split; [reflexivity|].
    cbn [agentChild telegramEnabledRuntime setAgentTransitioning].
    unfold persistedEnabled. cbn [files setAgentTransitioning]. rewrite Hcfg.
    rewrite (withTelegramEnabled_flag c _ Hholds).
    destruct s as [[u|m u]|e|]; cbn [startedAs] in Hs.
    + destruct Hs as ([(Hh' & Hb & _)|(Hn & Hb & _)] & _).
      * split; [intros _ _; now rewrite Hb|]. split; [congruence | discriminate].
      * split; [congruence|]. split; [auto | discriminate].
    + destruct Hs as (_ & Hn & Hb & _).
      split; [congruence|]. split; [auto | discriminate].
    + destruct Hs as (_ & _ & _ & Hn & Hb & _).
      split; [congruence|]. split; [|discriminate].
      intros _. rewrite Hb. now apply Hoff.
    + destruct Hs.
  - apply agentOp_spec.
    eapply wp_mono; [|apply agentStopBody_spec; exact Hoff].
    intros o w' ([r ->] & Hn & Hb & _). cbn [andFinally].
    split; [eauto|]. split; [reflexivity|].
    cbn [agentChild telegramEnabledRuntime setAgentTransitioning].
    split; [congruence|]. split; auto.
  - apply agentOp_spec.
    eapply wp_mono; [|apply telegramSetEnabledBody_spec; exact Hoff].
    intros o w' (_ & Hfollows & r & -> & Hfin). cbn [andFinally].
    split; [eauto|]. split; [reflexivity|].
    cbn [agentChild telegramEnabledRuntime setAgentTransitioning].
    split; [|split; [|discriminate]].
    + intros h Hh. unfold persistedEnabled. cbn [files setAgentTransitioning].
      rewrite (Hfollows c Hfile Hwr ltac:(congruence)).
      now rewrite (withTelegramEnabled_flag c _ Hholds).
    + intros Hn.
      destruct Hfin as [(_ & h & Hst)|[(_ & h & Hst)|[(_ & _ & Hb)|(_ & _ & _ & _ & Hb)]]];
        try exact Hb.
      all: destruct Hst as [(Hh & _)|(_ & Hb & _)]; [congruence | exact Hb].
Qed.

(** Every operation returns a reply, whatever the files and the
    processes are. *)
Lemma operation_replies (env : Env) (op : Operation) (w : World) :
  flagOffWhenStopped w ->
  exists r w',
    run env (operation env op) w = (Returned r, w') /\
    agentTransitioning w' = false /\
    flagOffWhenStopped w' /\
    (op = OpStop -> agentChild w' = None).
Proof.
  intros Hoff.
  destruct (run_returns env (operation env op) w
              (fun o w' =>
                 (exists r, o = Returned r) /\ agentTransitioning w' = false /\
                 flagOffWhenStopped w' /\ (op = OpStop -> agentChild w' = None)))
    as (o & w' & Hrun & [r ->] & Hrest); [|now exists r, w'].
  unfold operation. destruct op as [payload| |target]; cbn [operationBody].
  - destruct (agentChild w) as [h|] eqn:Hh.
    + apply wp_run. fold (agentStart env payload). rewrite (start_guard env payload w h Hh).
      cbn [fst snd]. split; [eauto|]. split; [reflexivity|].
      unfold flagOffWhenStopped. cbn [agentChild setAgentTransitioning].
      split; [congruence | discriminate].
    + apply agentOp_spec.
      eapply wp_mono; [|apply agentStartBody_spec; exact Hh].
      intros o w' (_ & _ & s & Ho & Hs).
      assert (exists r, o = Returned r) as [r ->]
        by (destruct s as [[u|m u]|e|]; [eauto | eauto | eauto | destruct Ho]).
      cbn [andFinally]. split; [eauto|]. split; [reflexivity|].
      split; [|discriminate]. unfold flagOffWhenStopped.
      cbn [agentChild telegramEnabledRuntime setAgentTransitioning].
      destruct s as [[u|m u]|e|]; cbn [startedAs] in Hs.
      * destruct Hs as ([(Hc & _)|(_ & Hb & _)] & _); [congruence | auto].
      * destruct Hs as (_ & _ & Hb & _). auto.
      * destruct Hs as (_ & _ & _ & _ & Hb & _). intros _. rewrite Hb. now apply Hoff.
      * destruct Ho.
  - apply agentOp_spec.
    eapply wp_mono; [|apply agentStopBody_spec; exact Hoff].
    intros o w' ([r ->] & Hn & Hb & _). cbn [andFinally].
    split; [eauto|]. split; [reflexivity|]. split; [intros _; exact Hb | intros _; exact Hn].
  - apply agentOp_spec.
    eapply wp_mono; [|apply telegramSetEnabledBody_spec; exact Hoff].
    intros o w' (_ & _ & r & -> & Hfin). cbn [andFinally].
    split; [eauto|]. split; [reflexivity|]. split; [|discriminate].
    unfold flagOffWhenStopped.
    cbn [agentChild telegramEnabledRuntime setAgentTransitioning].
    destruct Hfin as [(_ & h & Hr)|[(_ & h & Hr)|[(_ & _ & Hb)|(_ & _ & _ & _ & Hb)]]];
      try (intros _; exact Hb).
    all: destruct Hr as [(Hc & _)|(_ & Hb & _)]; [congruence | auto].
Qed.



(** In that run the agent comes up with the flag on, and the file says
    so. *)
Example start_writes_the_flag :
  let w' := (run Examples.sound (operation Examples.sound (OpStart Examples.withBot))
               Examples.fresh).2 in
  running (agentStatus w') = true /\ telegramEnabled (agentStatus w') = true /\
  persistedEnabled Examples.configPath w' = Some true.
Proof. vm_compute. repeat split. Qed.

Lemma setAgentTransitioning_same (w : World) :
  agentTransitioning w = false -> setAgentTransitioning false w = w.
Proof. destruct w. cbn. now intros ->. Qed.




(** The scenarios of the specification, run. *)
Example scenario_A_slow_backend_comes_up :
  let '(o, w') := run Examples.slow (agentStart Examples.slow None) Examples.fresh in
  o = Returned (startReply false) /\
  running (agentStatus w') = true /\ telegramEnabled (agentStatus w') = false /\
  (2000 <= now w' - now Examples.fresh)%N.
Proof. vm_compute. repeat split; discriminate. Qed.

Example scenario_C_toggle_rolled_back :
  let w1 := (run Examples.relapsing (agentStart Examples.relapsing None) Examples.fresh).2 in
  let '(o, w') := run Examples.relapsing (telegramSetEnabled Examples.relapsing true) w1 in
  running (agentStatus w1) = true /\
  o = Returned toggleRecoveredReply /\
  running (agentStatus w') = true /\ telegramEnabled (agentStatus w') = false /\
  persistedEnabled Examples.configPath w' = Some false.
Proof. vm_compute. repeat split. Qed.

Example scenario_D_toggle_and_rollback_fail :
  let w1 := (run Examples.failing (agentStart Examples.failing None) Examples.fresh).2 in
  let '(o, w') := run Examples.failing (telegramSetEnabled Examples.failing true) w1 in
  running (agentStatus w1) = true /\
  o = Returned toggleDoubleFailureReply /\
  running (agentStatus w') = false /\ pid (agentStatus w') = None.
Proof. vm_compute. repeat split. Qed.

Example toggle_switches :
  let w1 := (run Examples.sound (agentStart Examples.sound None) Examples.fresh).2 in
  let '(o, w') := run Examples.sound (telegramSetEnabled Examples.sound true) w1 in
  o = Returned (toggleOkReply true) /\
  running (agentStatus w') = true /\ telegramEnabled (agentStatus w') = true /\
  persistedEnabled Examples.configPath w' = Some true.
Proof. vm_compute. repeat split. Qed.

(** ** Two places where the source misreads the child-process object *)

(** One iteration of the probe: the timeout test, the test of the exit
    code, one request; a response with [ok] ends the loop at once, any
    other answer and any network error is followed by 150 ms of sleep and
    the next iteration. *)
Lemma pollLoop_iteration (env : Env) (fuel : nat) (url : string) (child : nat)
    (t0 T : N) (w : World) :
  run env (pollLoop (S fuel) url child t0 T) w =
  if (now w - t0 <? T)%N then
    if match procs w !! child with
       | Some p => notNull (p_exitCode p)
       | None => true
       end
    then (Returned false, w)
    else
      let o := healthz env (url +:+ "/healthz") (now w) in
      match fo_result o with
      | FetchResponse true => (Returned true, advance (fo_dur o) w)
      | _ => run env (pollLoop fuel url child t0 T) (advance 150 (advance (fo_dur o) w))
      end
  else (Returned false, w).
Proof.
  cbn [pollLoop run bind get mbind async_bind fst snd].
  destruct (now w - t0 <? T)%N; [|reflexivity].
  cbn [run bind].
  destruct (match procs w !! child with
            | Some p => notNull (p_exitCode p)
            | None => true
            end); [reflexivity|].
  cbn [run bind tryCatch await mbind async_bind respond].
  destruct (fo_result (healthz env (url +:+ "/healthz") (now w))) as [|[|]]; reflexivity.
Qed.

(** The probe returns, and returns [false] only when the timeout has
    elapsed or the exit code of the child is set. *)
Lemma waitForBackendReady_returns (env : Env) (url : string) (child : nat) (T : N)
    (w : World) :
  exists b w',
    run env (waitForBackendReady url child T) w = (Returned b, w') /\
    (b = false -> (T <= now w' - now w)%N \/ exitSeen child w').
Proof.
  destruct (run_returns env (waitForBackendReady url child T) w
              (fun o w' =>
                 anyWorld w' /\ (now w <= now w')%N /\
                 exists b, o = Returned b /\
                   (b = true ->
                    exists t, fo_result (healthz env (url +:+ "/healthz") t)
                              = FetchResponse true) /\
                   (b = false -> (T <= now w' - now w)%N \/ exitSeen child w')))
    as (o & w' & Hrun & _ & _ & b & -> & _ & Hfalse).
  - apply waitForBackendReady_spec; [intros d w1 _; exact I | exact I].
  - eauto.
Qed.

(** C5 fails on the source for a child that a signal has ended: Node
    leaves [child.exitCode] at [null] then (the signal is in
    [child.signalCode]), so the test at the head of the loop does not see
    the death, and with no healthy answer the probe polls on until the
    whole timeout has elapsed. *)
Theorem probe_polls_on_after_death_by_signal (env : Env) (url : string) (child : nat)
    (T : N) (w : World) (p : Proc) (sig : Signal) :
  procs w !! child = Some p ->
  p_exitCode p = None -> p_signalCode p = Some sig ->
  (forall t, fo_result (healthz env (url +:+ "/healthz") t) <> FetchResponse true) ->
  hasExited child w = true /\
  exists w',
    run env (waitForBackendReady url child T) w = (Returned false, w') /\
    (T <= now w' - now w)%N.
Proof.
  intros Hp Hcode Hsig Hsick. split.
  { unfold hasExited, exited. rewrite Hp, Hsig. apply orb_true_r. }
  set (P := fun w' => exists p', procs w' !! child = Some p' /\
                        p_exitCode p' = None /\ exited p' = true).
  assert (timeStable P) as HP.
  { intros d w1 (p1 & Hp1 & Hc1 & Hx1). exists p1.
    rewrite advance_lookup, Hp1. cbn. rewrite (settle_exited _ _ Hx1). auto. }
  assert (P w) as Hw.
  { exists p. split; [exact Hp|]. split; [exact Hcode|].
    unfold exited. rewrite Hsig. apply orb_true_r. }
  destruct (run_returns env (waitForBackendReady url child T) w _
              (waitForBackendReady_spec env P url child T w HP Hw))
    as (o & w' & Hrun & (p' & Hp' & Hc' & _) & _ & b & -> & Htrue & Hfalse).
  destruct b.
  - destruct (Htrue eq_refl) as [t Ht]. now apply Hsick in Ht.
  - exists w'. split; [exact Hrun|].
    destruct (Hfalse eq_refl) as [Hto|Hseen]; [exact Hto|].
    unfold exitSeen in Hseen. rewrite Hp', Hc' in Hseen. discriminate.
Qed.

Lemma probe_polls_on_witness :
  hasExited 0 Examples.afterTheShot = true /\
  exists w',
    run Examples.doomed (waitForBackendReady "http://127.0.0.1:9108" 0 30000)
        Examples.afterTheShot
    = (Returned false, w') /\
    (30000 <= now w' - now Examples.afterTheShot)%N.
Proof.
  eapply (probe_polls_on_after_death_by_signal Examples.doomed "http://127.0.0.1:9108"
            0 30000 Examples.afterTheShot _ SIGKILL).
  - vm_compute. reflexivity.
  - reflexivity.
  - reflexivity.
  - intros t. discriminate.
Defined.

(** C6 fails on the source wherever [child.kill] is used (any platform
    but win32, or a child without pid): a delivered SIGTERM sets
    [child.killed], so [waitForExit] resolves at once and the test before
    SIGKILL is false.  The stop returns in the same millisecond, having
    sent SIGTERM only, with the process still alive and no longer
    tracked. *)
Theorem stop_with_sigterm_neither_waits_nor_escalates (env : Env) (w : World)
    (child : nat) (p : Proc) :
  win32 env = false ->
  agentChild w = Some child ->
  procs w !! child = Some p ->
  exited p = false ->
  sc_killThrows (p_script p) SIGTERM = false ->
  exists w',
    run env (stopAgentProcess env) w = (Returned true, w') /\
    now w' = now w /\
    trace w' = trace w ++ [EvKill child SIGTERM] /\
    hasExited child w' = false /\
    agentChild w' = None.
Proof.
  intros Hposix Htracked Hp Halive Hkill.
  set (p1 := schedule (reaction SIGTERM (p_script p)) (now w) (setKilled true p)).
  set (w1 := setProcs (<[child := p1]> (procs w)) (logEvent (EvKill child SIGTERM) w)).
  assert (killProc child SIGTERM w = (KillReturns true, w1)) as Hk
    by (unfold killProc; now rewrite Hp, Halive, Hkill).
  assert (procs w1 !! child = Some p1) as Hp1
    by (apply list_lookup_insert_eq; now apply lookup_lt_Some in Hp).
  destruct (schedule_fields (reaction SIGTERM (p_script p)) (now w) (setKilled true p))
    as (_ & Hcode & _ & Hkilled & _).
  fold p1 in Hcode, Hkilled. cbn [p_killed p_exitCode setKilled] in Hcode, Hkilled.
  exists (forgetChild child w1). split; [|split; [|split; [|split]]].
  - unfold stopAgentProcess, childKill, waitForExit.
    cbn [run bind get modify mbind async_bind tryCatch tryFinally fst snd].
    rewrite Htracked.
    cbn [run bind get modify mbind async_bind tryCatch tryFinally fst snd].
    rewrite Hposix. cbn [andb].
    cbn [run bind get modify mbind async_bind tryCatch tryFinally fst snd].
    rewrite Hk.
    cbn [run bind get modify mbind async_bind tryCatch tryFinally fst snd].
    rewrite Hp1, Hkilled, orb_true_r.
    cbn [run bind get modify mbind async_bind tryCatch tryFinally fst snd].
    rewrite Hp1, Hkilled, andb_false_r.
    cbn [run bind get modify mbind async_bind tryCatch tryFinally fst snd].
    reflexivity.
  - unfold forgetChild. now destruct (bool_decide _).
  - unfold forgetChild. now destruct (bool_decide _).
  - unfold hasExited, forgetChild.
    destruct (bool_decide _); cbn [procs setTelegramEnabledRuntime setAgentChild];
      rewrite Hp1; unfold p1; now rewrite schedule_exited.
  - unfold forgetChild. rewrite bool_decide_eq_true_2 by exact Htracked. reflexivity.
Qed.

Lemma stop_with_sigterm_witness :
  exists w',
    run Examples.deaf (stopAgentProcess Examples.deaf) Examples.deafRunning
    = (Returned true, w') /\
    now w' = now Examples.deafRunning /\
    trace w' = trace Examples.deafRunning ++ [EvKill 0 SIGTERM] /\
    hasExited 0 w' = false /\
    agentChild w' = None.
Proof.
  eapply (stop_with_sigterm_neither_waits_nor_escalates Examples.deaf Examples.deafRunning 0).
  - reflexivity.
  - vm_compute. reflexivity.
  - vm_compute. reflexivity.
  - reflexivity.
  - reflexivity.
Defined.

(** What follows from it: a toggle of a running agent whose process is
    slow to obey SIGTERM leaves two live agent processes. *)
Example toggle_leaves_two_live_processes :
  let w' := (run Examples.deaf (telegramSetEnabled Examples.deaf true)
               Examples.deafRunning).2 in
  running (agentStatus w') = true /\ liveCount w' = 2%nat /\ spawnCount w' = 2%nat.
Proof. vm_compute. repeat split. Qed.

(** *** The operations leave the flag to the wrapper *)

Lemma keepsFlag_bind {X R : Type} (m : Async X) (k : X -> Async R) :
  keepsFlag m -> (forall x, keepsFlag (k x)) -> keepsFlag (m ≫= k).
Proof.
  change (m ≫= k) with (bind m k). intros Hm Hk.
  induction m as [r|e| |Y f k' IH|Y rq k' IH]; cbn [bind keepsFlag] in *; auto.
  destruct Hm as [Hf Hk']. split; [exact Hf|]. intros y. now apply IH.
Qed.

Lemma keepsFlag_tryCatch {R : Type} (m : Async R) (h : string -> Async R) :
  keepsFlag m -> (forall e, keepsFlag (h e)) -> keepsFlag (tryCatch m h).
Proof.
  intros Hm Hh.
  induction m as [r|e| |Y f k' IH|Y rq k' IH]; cbn [tryCatch keepsFlag] in *; auto.
  destruct Hm as [Hf Hk']. split; [exact Hf|]. intros y. now apply IH.
Qed.

Lemma keepsFlag_tryFinally {R : Type} (m : Async R) (g : World -> World) :
  keepsFlag m -> (forall w, agentTransitioning (g w) = agentTransitioning w) ->
  keepsFlag (tryFinally m g).
Proof.
  intros Hm Hg.
  induction m as [r|e| |Y f k' IH|Y rq k' IH]; cbn [tryFinally keepsFlag fst snd] in *; auto.
  destruct Hm as [Hf Hk']. split; [exact Hf|]. intros y. now apply IH.
Qed.

Lemma keepsFlag_get {X : Type} (f : World -> X) : keepsFlag (get f).
Proof. cbn. auto. Qed.

Lemma keepsFlag_modify (g : World -> World) :
  (forall w, agentTransitioning (g w) = agentTransitioning w) -> keepsFlag (modify g).
Proof. cbn. auto. Qed.

Lemma keepsFlag_await {X : Type} (rq : Request X) : keepsFlag (await rq).
Proof. cbn. auto. Qed.

Lemma keepsFlag_ret {R : Type} (r : R) : keepsFlag (Ret r).
Proof. exact I. Qed.

Lemma keepsFlag_throw {R : Type} (e : string) : keepsFlag (Throw (R := R) e).
Proof. exact I. Qed.

Lemma forgetChild_flag (h : nat) (w : World) :
  agentTransitioning (forgetChild h w) = agentTransitioning w.
Proof. unfold forgetChild. now destruct (bool_decide _). Qed.

(** One step of the search for a proof that a program keeps the flag. *)
Ltac keeps_flag_step :=
  first
    [ assumption
    | progress cbv zeta
    | match goal with H : forall _, _ |- _ => solve [apply H] end
    | apply keepsFlag_ret
    | apply keepsFlag_throw
    | apply keepsFlag_get
    | apply keepsFlag_await
    | apply keepsFlag_modify; intros ?; reflexivity
    | apply keepsFlag_bind; [|intros ?]
    | apply keepsFlag_tryCatch; [|intros ?]
    | apply keepsFlag_tryFinally; [|intros ?; first [reflexivity | apply forgetChild_flag]]
    | match goal with
      | |- keepsFlag (if ?c then _ else _) => destruct c
      | |- keepsFlag (match ?c with _ => _ end) => destruct c
      end ].

Ltac keeps_flag := repeat keeps_flag_step.

Section FlagFacts.

Variable env : Env.

Lemma keepsFlag_readFile (path : string) : keepsFlag (readFile path).
Proof. unfold readFile. keeps_flag. Qed.

Lemma keepsFlag_writeFile (path : string) (c : Config) : keepsFlag (writeFile path c).
Proof. unfold writeFile. keeps_flag. Qed.

Lemma keepsFlag_setTelegramEnabledInConfig (path : string) (b : bool) :
  keepsFlag (setTelegramEnabledInConfig path b).
Proof.
  unfold setTelegramEnabledInConfig, yamlParse.
  pose proof keepsFlag_readFile. pose proof keepsFlag_writeFile. keeps_flag.
Qed.

Lemma keepsFlag_readListenFromConfig (path : string) :
  keepsFlag (readListenFromConfig path).
Proof.
  unfold readListenFromConfig, yamlParse. pose proof keepsFlag_readFile. keeps_flag.
Qed.

Lemma keepsFlag_spawn (c : Command) : keepsFlag (Do (spawnProc env c) Ret).
Proof.
  cbn [keepsFlag]. split; [|auto]. intros w.
  now destruct (spawnProc_fields env c w) as (_ & _ & _ & _ & _ & _ & -> & _).
Qed.

Lemma keepsFlag_spawnAgentProcess (bin cfg : string) (b : bool) :
  keepsFlag (spawnAgentProcess env bin cfg b).
Proof. unfold spawnAgentProcess. pose proof keepsFlag_spawn. keeps_flag. Qed.

Lemma keepsFlag_childKill (child : nat) (sig : Signal) : keepsFlag (childKill child sig).
Proof.
  unfold childKill. cbn [keepsFlag]. split.
  - intros w. now destruct (killProc_fields child sig w) as (_ & _ & _ & _ & _ & -> & _).
  - intros [|b]; exact I.
Qed.

Lemma keepsFlag_waitForExit (child : nat) (ms : N) : keepsFlag (waitForExit child ms).
Proof. unfold waitForExit. keeps_flag. Qed.

Lemma keepsFlag_stopAgentProcess : keepsFlag (stopAgentProcess env).
Proof.
  unfold stopAgentProcess.
  pose proof keepsFlag_spawn. pose proof keepsFlag_childKill.
  pose proof keepsFlag_waitForExit. keeps_flag.
Qed.

Lemma keepsFlag_pollLoop (fuel : nat) (url : string) (child : nat) (t0 T : N) :
  keepsFlag (pollLoop fuel url child t0 T).
Proof.
  induction fuel as [|n IH]; [exact I|]. cbn [pollLoop]. keeps_flag.
Qed.

Lemma keepsFlag_waitForBackendReady (url : string) (child : nat) (T : N) :
  keepsFlag (waitForBackendReady url child T).
Proof. unfold waitForBackendReady. pose proof keepsFlag_pollLoop. keeps_flag. Qed.

Lemma keepsFlag_startAgentManaged (bin cfg : string) (b sync : bool) :
  keepsFlag (startAgentManaged env bin cfg b sync).
Proof.
  unfold startAgentManaged, attachAgentLifecycle.
  pose proof keepsFlag_setTelegramEnabledInConfig.
  pose proof keepsFlag_spawnAgentProcess.
  pose proof keepsFlag_readListenFromConfig.
  pose proof keepsFlag_waitForBackendReady.
  pose proof keepsFlag_stopAgentProcess. keeps_flag.
Qed.

Lemma keepsFlag_operationBody (op : Operation) : keepsFlag (operationBody env op).
Proof.
  pose proof keepsFlag_startAgentManaged. pose proof keepsFlag_stopAgentProcess.
  destruct op as [payload| |target]; cbn [operationBody];
    unfold agentStartBody, agentStopBody, telegramSetEnabledBody; keeps_flag.
Qed.

Lemma keepsFlag_handlerBody (h : Handler) : keepsFlag (handlerBody env h).
Proof.
  pose proof keepsFlag_operationBody. pose proof keepsFlag_startAgentManaged.
  pose proof keepsFlag_setTelegramEnabledInConfig.
  destruct h as [op|]; cbn [handlerBody]; unfold ensureBackendStartedBody; keeps_flag.
Qed.

Lemma isHandler_keepsFlag (fn : Async (option Reply)) : isHandler env fn -> keepsFlag fn.
Proof. intros [h ->]. apply keepsFlag_handlerBody. Qed.

Lemma isQuitStop_keepsFlag (t : Async bool) : isQuitStop env t -> keepsFlag t.
Proof. intros ->. apply keepsFlag_stopAgentProcess. Qed.

End FlagFacts.

(** ** The serializer *)

Lemma turnsOf_app (ls1 ls2 : list Label) : turnsOf (ls1 ++ ls2) = turnsOf ls1 ++ turnsOf ls2.
Proof.
  induction ls1 as [|lb ls1 IH]; [reflexivity|].
  destruct lb; cbn [turnsOf app]; rewrite ?IH; reflexivity.
Qed.

Lemma turn_keepsFlag {R : Type} (m : Async R) :
  keepsFlag m ->
  forall w m' w', turn m w = (m', w') ->
    agentTransitioning w' = agentTransitioning w /\ keepsFlag m'.
Proof.
  induction m as [r|e| |X f k IH|X rq k IH]; intros Hm w m' w' Ht; cbn [turn] in Ht;
    try (inversion Ht; subst; auto; fail).
  destruct Hm as [Hf Hk]. specialize (Hf w).
  destruct (f w) as [x w1]. cbn [snd] in Hf.
  destruct (IH x (Hk x) w1 m' w' Ht) as [H1 H2]. split; [congruence | exact H2].
Qed.

(** A turn inside the wrapper ends with the flag reset and the operation
    settled, or with the flag set and the operation suspended. *)
Lemma turn_guarded {R : Type} (m0 : Async R) :
  keepsFlag m0 ->
  forall w m' w',
    agentTransitioning w = true ->
    turn (tryFinally m0 (setAgentTransitioning false)) w = (m', w') ->
    (isSettled (afterTurn m') = true /\ agentTransitioning w' = false) \/
    (isSuspended (afterTurn m') = true /\ agentTransitioning w' = true /\
     resumesGuarded m').
Proof.
  induction m0 as [r|e| |X f k IH|X rq k IH]; intros Hm w m' w' Hflag Ht;
    cbn [tryFinally turn] in Ht.
  - inversion Ht; subst. left. auto.
  - inversion Ht; subst. left. auto.
  - inversion Ht; subst. right. cbn. auto.
  - destruct Hm as [Hf Hk]. specialize (Hf w).
    destruct (f w) as [x w1]. cbn [snd] in Hf.
    apply (IH x (Hk x) w1 m' w'); [congruence | exact Ht].
  - inversion Ht; subst. right. cbn [afterTurn isSuspended resumesGuarded].
    split; [reflexivity|]. split; [exact Hflag|].
    intros x. exists (k x). split; [apply Hm | reflexivity].
Qed.

Lemma turn_agentOp {R : Type} (fn : Async R) (w : World) :
  turn (agentOp fn) w =
  turn (tryFinally fn (setAgentTransitioning false)) (setAgentTransitioning true w).
Proof. reflexivity. Qed.

Lemma advance_flag (d : N) (w : World) :
  agentTransitioning (advance d w) = agentTransitioning w.
Proof. reflexivity. Qed.

Lemma answers_flag {X : Type} (rq : Request X) (w : World) (x : X) (w1 : World) :
  answers rq w x w1 -> agentTransitioning w1 = agentTransitioning w.
Proof.
  intros [d ->]. rewrite advance_flag.
  destruct rq; try reflexivity. cbn [effect]. now destruct x.
Qed.

Lemma afterTurn_not_waiting {R : Type} (m : Async R) : isWaiting (afterTurn m) = false.
Proof. now destruct m. Qed.

Lemma setJob_lookup {R : Type} (j : nat) (s : JobState R) (l : Loop R) (w : World)
    (i : nat) :
  jobs (setJob j s l w) !! i =
  if decide (j = i)
  then (fun jb => {| dep := dep jb; state := s |}) <$> jobs l !! j
  else jobs l !! i.
Proof.
  unfold setJob. cbn [jobs]. destruct (decide (j = i)) as [->|Hne].
  - apply list_lookup_alter_eq.
  - now apply list_lookup_alter_ne.
Qed.

Lemma settled_not_suspended {R : Type} (s : JobState R) :
  isSettled s = true -> isSuspended s = true -> False.
Proof. now destruct s. Qed.

Lemma settled_not_waiting {R : Type} (s : JobState R) :
  isSettled s = true -> isWaiting s = false.
Proof. now destruct s. Qed.

Lemma suspended_not_waiting {R : Type} (s : JobState R) :
  isSuspended s = true -> isWaiting s = false.
Proof. now destruct s. Qed.

Section SerializerFacts.

Context {R : Type}.
Variable submitted : Async R -> Prop.
Variable forked : Async bool -> Prop.
Hypothesis submitted_keepsFlag : forall fn, submitted fn -> keepsFlag fn.
Hypothesis forked_keepsFlag : forall t, forked t -> keepsFlag t.

(** A job takes a turn: [j] is the only job that is neither waiting nor
    settled, before and after. *)
Lemma serialized_turn (ls : list Label) (l : Loop R) (lb : Label) (j : nat) (jb : Job R)
    (m : Async R) (w' : World) :
  Serialized ls l ->
  jobs l !! j = Some jb ->
  isSettled (state jb) = false ->
  (forall i ji, (i < j)%nat -> jobs l !! i = Some ji -> isSettled (state ji) = true) ->
  turnsOf [lb] = [j] ->
  (isSettled (afterTurn m) = true /\ agentTransitioning w' = false) \/
  (isSuspended (afterTurn m) = true /\ agentTransitioning w' = true /\ resumesGuarded m) ->
  Serialized (ls ++ [lb]) (setJob j (afterTurn m) l w').
Proof.
  intros [Hchain Hdeps Horder Hflag Hprogs Hloose Hturns Hsorted] Hj Hact Hbefore Hlb Hturn.
  assert (forall k jk, (j < k)%nat -> jobs l !! k = Some jk -> isWaiting (state jk) = true)
    as Hafter.
  { intros k jk Hlt Hk. destruct (isWaiting (state jk)) eqn:Hw; [reflexivity|].
    rewrite (Horder j k jb jk Hlt Hj Hk Hw) in Hact. discriminate. }
  split.
  - unfold setJob. cbn [agentOpChain jobs]. now rewrite length_alter.
  - intros i ji. rewrite setJob_lookup. destruct (decide (j = i)) as [<-|Hne].
    + rewrite Hj. intros [= <-]. cbn [dep]. now apply Hdeps.
    + apply Hdeps.
  - intros i k ji jk Hlt. rewrite !setJob_lookup.
    destruct (decide (j = i)) as [<-|Hi], (decide (j = k)) as [<-|Hk]; try lia.
    + intros _ Hk' Hw. rewrite (Hafter k jk Hlt Hk') in Hw. discriminate.
    + intros Hi' _ _. now apply (Hbefore i).
    + apply Horder. exact Hlt.
  - intros k jk. rewrite setJob_lookup. cbn [world setJob].
    destruct (decide (j = k)) as [<-|Hk].
    + rewrite Hj. intros [= <-]. cbn [state]. intros Hs.
      destruct Hturn as [[Hset _]|(_ & Hx & _)]; [|exact Hx].
      destruct (settled_not_suspended _ Hset Hs).
    + intros Hk' Hs. exfalso.
      destruct (Nat.lt_total k j) as [Hlt|[->|Hlt]]; [| congruence |].
      * exact (settled_not_suspended _ (Hbefore k jk Hlt Hk') Hs).
      * pose proof (Hafter k jk Hlt Hk') as Hw.
        rewrite (suspended_not_waiting _ Hs) in Hw. discriminate.
  - intros k jk. rewrite setJob_lookup. destruct (decide (j = k)) as [<-|Hk].
    + rewrite Hj. intros [= <-]. cbn [state].
      destruct Hturn as [[Hset _]|(Hs & _ & Hres)].
      * now destruct (afterTurn m).
      * destruct m; cbn in *; try discriminate; auto.
    + apply Hprogs.
  - exact Hloose.
  - rewrite turnsOf_app, Hlb. apply Forall_app. split.
    + eapply Forall_impl; [exact Hturns|]. intros i (ji & Hi & Hw). cbn beta.
      rewrite setJob_lookup. destruct (decide (j = i)) as [<-|Hne].
      * rewrite Hj. eexists. split; [reflexivity|]. apply afterTurn_not_waiting.
      * eauto.
    + constructor; [|constructor]. rewrite setJob_lookup, decide_True by reflexivity.
      rewrite Hj. eexists. split; [reflexivity|]. apply afterTurn_not_waiting.
  - rewrite turnsOf_app, Hlb.
    apply StronglySorted_app_2; [|exact Hsorted | repeat constructor].
    intros x1 x2 Hx1 Hx2. apply list_elem_of_singleton in Hx2 as ->.
    rewrite Forall_forall in Hturns. destruct (Hturns x1 Hx1) as (j1 & Hj1 & Hw1).
    destruct (Nat.le_gt_cases x1 j) as [Hle|Hgt]; [exact Hle|].
    rewrite (Hafter x1 j1 Hgt Hj1) in Hw1. discriminate.
Qed.

(** Anything else happens: the jobs stay, the flag stays. *)
Lemma serialized_aside (ls : list Label) (l : Loop R) (lb : Label) (w' : World)
    (ts : list (Async bool)) :
  Serialized ls l ->
  turnsOf [lb] = [] ->
  agentTransitioning w' = agentTransitioning (world l) ->
  (forall i m, ts !! i = Some m -> keepsFlag m) ->
  Serialized (ls ++ [lb])
    {| world := w'; jobs := jobs l; agentOpChain := agentOpChain l; loose := ts |}.
Proof.
  intros [Hchain Hdeps Horder Hflag Hprogs Hloose Hturns Hsorted] Hlb Hw Hts.
  split; cbn [world jobs agentOpChain loose]; try assumption.
  - intros j jb Hj Hs. rewrite Hw. now apply (Hflag j jb).
  - now rewrite turnsOf_app, Hlb, app_nil_r.
  - now rewrite turnsOf_app, Hlb, app_nil_r.
Qed.

Lemma serialized_step (ls : list Label) (l : Loop R) (lb : Label) (l' : Loop R) :
  Serialized ls l -> step submitted forked l lb l' -> Serialized (ls ++ [lb]) l'.
Proof.
  intros Hser Hstep.
  destruct Hstep as [l fn Hfn|l j jb fn m w' Hj Hst Hdep Ht
                    |l j jb X rq k x w1 m w' Hj Hst Hans Ht
                    |l t m w' Ht Hturn
                    |l i X rq k x w1 m w' Hi Hans Ht
                    |l
                    |l d].
  - (* submit *)
    destruct Hser as [Hchain Hdeps Horder Hflag Hprogs Hloose Hturns Hsorted].
    unfold withAgentOp. split; cbn [world jobs agentOpChain loose].
    + rewrite length_app. cbn. now rewrite Nat.add_1_r.
    + intros j jb Hj. apply lookup_app_Some in Hj as [Hj|[Hge Hj]]; [now apply Hdeps|].
      apply list_lookup_singleton_Some in Hj as [Hz <-]. cbn [dep].
      rewrite Hchain. replace j with (length (jobs l)) by lia.
      now destruct (length (jobs l)).
    + intros i j ji jj Hlt Hi Hj Hw.
      apply lookup_app_Some in Hj as [Hj|[Hge Hj]].
      * apply lookup_app_Some in Hi as [Hi|[Hge' _]].
        -- now apply (Horder i j ji jj).
        -- apply lookup_lt_Some in Hj. lia.
      * apply list_lookup_singleton_Some in Hj as [_ <-]. discriminate.
    + intros j jb Hj Hs. apply lookup_app_Some in Hj as [Hj|[Hge Hj]].
      * now apply (Hflag j jb).
      * apply list_lookup_singleton_Some in Hj as [_ <-]. discriminate.
    + intros j jb Hj. apply lookup_app_Some in Hj as [Hj|[Hge Hj]].
      * now apply (Hprogs j).
      * apply list_lookup_singleton_Some in Hj as [_ <-]. cbn. auto.
    + exact Hloose.
    + rewrite turnsOf_app, app_nil_r. eapply Forall_impl; [exact Hturns|].
      intros i (ji & Hi & Hw). exists ji. split; [now apply lookup_app_l_Some | exact Hw].
    + now rewrite turnsOf_app, app_nil_r.
  - (* the callback of job j runs *)
    assert (forall i ji, (i < j)%nat -> jobs l !! i = Some ji -> isSettled (state ji) = true)
      as Hbefore.
    { intros i ji Hlt Hi. destruct j as [|j0]; [lia|].
      rewrite (ser_deps _ _ Hser _ _ Hj) in Hdep. cbn [chainSettled] in Hdep.
      unfold jobSettled in Hdep. destruct (jobs l !! j0) as [jp|] eqn:Hj0; [|discriminate].
      destruct (decide (i = j0)) as [->|Hne]; [congruence|].
      apply (ser_order _ _ Hser i j0 ji jp); [lia | exact Hi | exact Hj0|].
      now apply settled_not_waiting. }
    apply (serialized_turn ls l (LStart j) j jb m w' Hser Hj);
      [now rewrite Hst | exact Hbefore | reflexivity|].
    pose proof (ser_progs _ _ Hser _ _ Hj) as Hfn. rewrite Hst in Hfn.
    rewrite turn_agentOp in Ht.
    apply (turn_guarded fn Hfn (setAgentTransitioning true (world l)) m w'); [reflexivity|].
    exact Ht.
  - (* job j resumes *)
    assert (forall i ji, (i < j)%nat -> jobs l !! i = Some ji -> isSettled (state ji) = true)
      as Hbefore.
    { intros i ji Hlt Hi. apply (ser_order _ _ Hser i j ji jb Hlt Hi Hj). now rewrite Hst. }
    apply (serialized_turn ls l (LResume j) j jb m w' Hser Hj);
      [now rewrite Hst | exact Hbefore | reflexivity|].
    pose proof (ser_progs _ _ Hser _ _ Hj) as Hres. rewrite Hst in Hres.
    cbn [resumesGuarded] in Hres. destruct (Hres x) as (m0 & Hm0 & Heq).
    rewrite Heq in Ht. apply (turn_guarded m0 Hm0 w1 m w'); [|exact Ht].
    rewrite (answers_flag _ _ _ _ Hans). apply (ser_flag _ _ Hser j jb Hj). now rewrite Hst.
  - (* a task outside the chain starts *)
    destruct (turn_keepsFlag t (forked_keepsFlag t Ht) _ _ _ Hturn) as [Hw Hm].
    apply serialized_aside; [exact Hser | reflexivity | exact Hw|].
    intros i m' Hi. apply lookup_app_Some in Hi as [Hi|[_ Hi]].
    + now apply (ser_loose _ _ Hser i).
    + apply list_lookup_singleton_Some in Hi as [_ <-]. exact Hm.
  - (* such a task resumes *)
    pose proof (ser_loose _ _ Hser _ _ Hi) as Hk. cbn [keepsFlag] in Hk.
    destruct (turn_keepsFlag (k x) (Hk x) _ _ _ Ht) as [Hw Hm].
    apply serialized_aside; [exact Hser | reflexivity | |].
    + rewrite Hw. exact (answers_flag rq _ x _ Hans).
    + intros i' m' Hi'. apply list_lookup_insert_Some in Hi' as [(-> & <- & _)|[_ Hi']].
      * exact Hm.
      * now apply (ser_loose _ _ Hser i').
  - (* status *)
    destruct l as [w js c ts].
    apply (serialized_aside ls {| world := w; jobs := js; agentOpChain := c; loose := ts |}
             LStatus w ts Hser); [reflexivity | reflexivity|].
    exact (ser_loose _ _ Hser).
  - (* time passes *)
    apply serialized_aside; [exact Hser | reflexivity | apply advance_flag|].
    exact (ser_loose _ _ Hser).
Qed.

Lemma serialized_idle (w : World) : Serialized [] (idle (R := R) w).
Proof.
  split; cbn; try (intros; rewrite ?lookup_nil in *; discriminate); auto; constructor.
Qed.

Lemma serialized_exec (w : World) (ls : list Label) (l : Loop R) :
  exec submitted forked (idle w) ls l -> Serialized ls l.
Proof.
  intros Hex. remember (idle w) as l0 eqn:Hl0.
  induction Hex as [l|l ls l1 lb l2 Hex IH Hstep].
  - subst. apply serialized_idle.
  - eapply serialized_step; [apply IH; exact Hl0 | exact Hstep].
Qed.

End SerializerFacts.

(** *** Every submission becomes a job that runs what was submitted *)

Lemma submissions_app (ls1 ls2 : list Label) :
  submissions (ls1 ++ ls2) = (submissions ls1 + submissions ls2)%nat.
Proof.
  induction ls1 as [|lb ls1 IH]; [reflexivity|].
  destruct lb; cbn [submissions app]; rewrite ?IH; reflexivity.
Qed.

Lemma residual_trans {R : Type} (m1 m2 m3 : Async R) :
  residual m1 m2 -> residual m2 m3 -> residual m1 m3.
Proof.
  induction 1 as [m|X f k w m' _ IH|X rq k x m' _ IH]; intros H23;
    [exact H23 | eapply residual_do | eapply residual_await]; eauto.
Qed.

Lemma turn_residual {R : Type} (m : Async R) (w : World) :
  residual m (turn m w).1.
Proof.
  revert w. induction m as [r|e| |X f k IH|X rq k IH]; intros w; cbn [turn];
    try apply residual_here.
  apply (residual_do f k w). specialize (IH (f w).1 (f w).2).
  now destruct (f w) as [x w1].
Qed.

Lemma runsGiven_afterTurn {R : Type} (submitted : Async R -> Prop) (fn m : Async R)
    (c : ChainRef) :
  submitted fn -> residual (agentOp fn) m -> isAwait m = true \/ m = Spin \/
                                             (exists r, m = Ret r) \/ (exists e, m = Throw e) ->
  runsGiven submitted {| dep := c; state := afterTurn m |}.
Proof.
  intros Hfn Hres Hm. exists fn. split; [exact Hfn|]. cbn [state].
  destruct Hm as [Hm|[->|[[r ->]|[e ->]]]]; cbn [afterTurn]; try exact Hres.
  destruct m; try discriminate Hm. exact Hres.
Qed.

(** After a turn a program stands at an [await], or has ended. *)
Lemma turn_stops {R : Type} (m : Async R) (w : World) :
  isAwait (turn m w).1 = true \/ (turn m w).1 = Spin \/
  (exists r, (turn m w).1 = Ret r) \/ (exists e, (turn m w).1 = Throw e).
Proof.
  revert w. induction m as [r|e| |X f k IH|X rq k IH]; intros w; cbn [turn]; eauto.
  specialize (IH (f w).1 (f w).2). now destruct (f w) as [x w1].
Qed.

Section GivenFacts.

Context {R : Type}.
Variable submitted : Async R -> Prop.
Variable forked : Async bool -> Prop.

Lemma given_step (ls : list Label) (l : Loop R) (lb : Label) (l' : Loop R) :
  length (jobs l) = submissions ls ->
  (forall j jb, jobs l !! j = Some jb -> runsGiven submitted jb) ->
  step submitted forked l lb l' ->
  length (jobs l') = submissions (ls ++ [lb]) /\
  (forall j jb, jobs l' !! j = Some jb -> runsGiven submitted jb).
Proof.
  intros Hlen Hgiven Hstep. rewrite submissions_app.
  destruct Hstep as [l fn Hfn|l j jb fn m w' Hj Hst Hdep Ht
                    |l j jb X rq k x w1 m w' Hj Hst Hans Ht
                    |l t m w' Ht Hturn
                    |l i X rq k x w1 m w' Hi Hans Ht
                    |l
                    |l d];
    cbn [submissions jobs withAgentOp]; rewrite ?Nat.add_0_r.
  - split; [rewrite length_app; cbn; lia|].
    intros j jb Hj. apply lookup_app_Some in Hj as [Hj|[_ Hj]]; [now apply (Hgiven j)|].
    apply list_lookup_singleton_Some in Hj as [_ <-]. now exists fn.
  - split; [unfold setJob; cbn [jobs]; now rewrite length_alter|].
    intros i ji. rewrite setJob_lookup. destruct (decide (j = i)) as [<-|Hne]; [|apply Hgiven].
    rewrite Hj. intros [= <-].
    destruct (Hgiven j jb Hj) as (fn' & Hfn' & Hstate). rewrite Hst in Hstate. subst fn'.
    pose proof (turn_residual (agentOp fn) (world l)) as Hres.
    pose proof (turn_stops (agentOp fn) (world l)) as Hstops.
    rewrite Ht in Hres, Hstops. now apply (runsGiven_afterTurn submitted fn m).
  - split; [unfold setJob; cbn [jobs]; now rewrite length_alter|].
    intros i ji. rewrite setJob_lookup. destruct (decide (j = i)) as [<-|Hne]; [|apply Hgiven].
    rewrite Hj. intros [= <-].
    destruct (Hgiven j jb Hj) as (fn & Hfn & Hstate). rewrite Hst in Hstate.
    pose proof (turn_residual (k x) w1) as Hres.
    pose proof (turn_stops (k x) w1) as Hstops.
    rewrite Ht in Hres, Hstops. apply (runsGiven_afterTurn submitted fn m); [exact Hfn| |exact Hstops].
    apply (residual_trans _ _ _ Hstate). now apply (residual_await rq k x).
  - auto.
  - auto.
  - auto.
  - auto.
Qed.

Lemma given_exec (w : World) (ls : list Label) (l : Loop R) :
  exec submitted forked (idle w) ls l ->
  length (jobs l) = submissions ls /\
  (forall j jb, jobs l !! j = Some jb -> runsGiven submitted jb).
Proof.
  intros Hex. remember (idle w) as l0 eqn:Hl0.
  induction Hex as [l|l ls l1 lb l2 Hex IH Hstep].
  - subst. split; [reflexivity|]. intros j jb Hj. cbn in Hj. now rewrite lookup_nil in Hj.
  - destruct (IH Hl0) as [Hlen Hgiven]. now apply (given_step ls l1 lb l2).
Qed.

(** A suspended job can take its next turn, whatever it waits for. *)
Lemma can_resume (l : Loop R) (j : nat) (jb : Job R) {X : Type} (rq : Request X)
    (k : X -> Async R) :
  jobs l !! j = Some jb -> state jb = Suspended (Await rq k) ->
  exists l', step submitted forked l (LResume j) l'.
Proof.
  intros Hj Hst.
  assert (exists x : X, True) as [x _] by (destruct rq; eauto using None, false, FetchRejects, tt).
  destruct (turn (k x) (advance 0 (effect rq x (world l)))) as [m w'] eqn:Ht.
  exists (setJob j (afterTurn m) l w').
  eapply (step_resume submitted forked l j jb X rq k x _ m w' Hj Hst); [|exact Ht].
  now exists 0%N.
Qed.

End GivenFacts.

(** C3: whatever callers submit and in whatever order the event loop
    takes its turns: every submission is a job of the chain, in the
    order of the submissions, and the job runs the function that was
    submitted, inside the wrapper; the turns of the jobs come in
    submission order without interleaving, a job that has started bars
    all later ones until it has settled; while one is suspended the flag
    is set and [agent:status] reports it; once all earlier operations
    have settled, fulfilled or rejected, the next one can start, and a
    suspended one can resume; a call of [withAgentOp] adds the function
    it is given as the last job and touches nothing else. *)
Theorem serializer_runs_operations_one_at_a_time {R : Type}
    (submitted : Async R -> Prop) (forked : Async bool -> Prop)
    (w : World) (labels : list Label) (l : Loop R) :
  (forall fn, submitted fn -> keepsFlag fn) ->
  (forall t, forked t -> keepsFlag t) ->
  exec submitted forked (idle w) labels l ->
  length (jobs l) = submissions labels /\
  (forall j jb, jobs l !! j = Some jb -> runsGiven submitted jb) /\
  StronglySorted le (turnsOf labels) /\
  (forall i j ji jj, (i < j)%nat ->
     jobs l !! i = Some ji -> jobs l !! j = Some jj ->
     isWaiting (state jj) = false -> isSettled (state ji) = true) /\
  (forall j jb, jobs l !! j = Some jb -> isSuspended (state jb) = true ->
     transitioning (agentStatus (world l)) = true) /\
  (forall j jb fn, jobs l !! j = Some jb -> state jb = Waiting fn ->
     (forall i, (i < j)%nat -> jobSettled (jobs l) i = true) ->
     exists l', step submitted forked l (LStart j) l') /\
  (forall j jb (X : Type) (rq : Request X) k,
     jobs l !! j = Some jb -> state jb = Suspended (Await rq k) ->
     exists l', step submitted forked l (LResume j) l') /\
  (forall l', step submitted forked l LSubmit l' ->
     exists fn, submitted fn /\ world l' = world l /\
       jobs l' = jobs l ++ [{| dep := agentOpChain l; state := Waiting fn |}]).
Proof.
  intros Hsub Hfork Hex.
  pose proof (serialized_exec submitted forked Hsub Hfork w labels l Hex) as Hser.
  destruct (given_exec submitted forked w labels l Hex) as [Hlen Hgiven].
  split; [exact Hlen|]. split; [exact Hgiven|].
  split; [exact (ser_sorted _ _ Hser)|]. split; [exact (ser_order _ _ Hser)|].
  split; [exact (ser_flag _ _ Hser)|]. split.
  - intros j jb fn Hj Hst Hbefore.
    destruct (turn (agentOp fn) (world l)) as [m w'] eqn:Ht.
    exists (setJob j (afterTurn m) l w').
    apply (step_start submitted forked l j jb fn m w' Hj Hst); [|exact Ht].
    rewrite (ser_deps _ _ Hser _ _ Hj). destruct j as [|j0]; [reflexivity|].
    cbn [chainSettled]. apply Hbefore. lia.
  - split; [intros j jb X rq k Hj Hst; exact (can_resume submitted forked l j jb rq k Hj Hst)|].
    intros l' Hstep. inversion Hstep as [l0 fn Hfn| | | | | |]; subst. now exists fn.
Qed.

(** ** What every turn keeps *)

Section Keeping.

Variable I : World -> Prop.

Lemma keeps_ret {R : Type} (r : R) : keeps I (Ret r).
Proof. intros w Hw. exact Hw. Qed.

Lemma keeps_throw {R : Type} (e : string) : keeps I (Throw (R := R) e).
Proof. intros w Hw. exact Hw. Qed.

Lemma keeps_bind {X R : Type} (m : Async X) (k : X -> Async R) :
  keeps I m -> (forall x, keeps I (k x)) -> keeps I (m ≫= k).
Proof.
  intros Hm Hk w Hw. apply wp_bind. eapply wp_mono; [|now apply Hm].
  intros [x|e|] w' Hw'; cbn [andThen]; [now apply Hk | exact Hw' | exact Hw'].
Qed.

Lemma keeps_tryCatch {R : Type} (m : Async R) (h : string -> Async R) :
  keeps I m -> (forall e, keeps I (h e)) -> keeps I (tryCatch m h).
Proof.
  intros Hm Hh w Hw. apply wp_tryCatch. eapply wp_mono; [|now apply Hm].
  intros [x|e|] w' Hw'; cbn [orCatch]; [exact Hw' | now apply Hh | exact Hw'].
Qed.

Lemma keeps_tryFinally {R : Type} (m : Async R) (g : World -> World) :
  keeps I m -> (forall w, I w -> I (g w)) -> keeps I (tryFinally m g).
Proof.
  intros Hm Hg w Hw. apply wp_tryFinally. eapply wp_mono; [|now apply Hm].
  intros [x|e|] w' Hw'; cbn [andFinally]; auto.
Qed.

Lemma keeps_get {X : Type} (f : World -> X) : keeps I (get f).
Proof. intros w Hw. exact Hw. Qed.

Lemma keeps_modify (g : World -> World) : (forall w, I w -> I (g w)) -> keeps I (modify g).
Proof. intros Hg w Hw. cbn. now apply Hg. Qed.

Lemma keeps_await {X : Type} (rq : Request X) : keeps I (await rq).
Proof. intros w Hw. cbn. split; [exact Hw|]. intros x w' Hw'. exact Hw'. Qed.

Lemma keeps_do {X R : Type} (f : World -> X * World) (k : X -> Async R) :
  (forall w, I w -> I (f w).2) -> (forall x, keeps I (k x)) -> keeps I (Do f k).
Proof. intros Hf Hk w Hw. cbn [wp]. apply Hk. now apply Hf. Qed.

(** A turn of a program that keeps [I] ends in a world with [I], and the
    program resumes keeping it. *)
Lemma wp_turn_keeps {R : Type} (m : Async R) :
  forall w m' w',
    wp I (byAnyone I) m (fun _ w' => I w') w ->
    turn m w = (m', w') ->
    I w' /\ resumesKeeping I m'.
Proof.
  induction m as [r|e| |X f k IH|X rq k IH]; intros w m' w' Hwp Ht; cbn [turn wp] in *.
  - inversion Ht; subst. split; [exact Hwp | exact Logic.I].
  - inversion Ht; subst. split; [exact Hwp | exact Logic.I].
  - inversion Ht; subst. split; [exact Hwp | exact Logic.I].
  - destruct (f w) as [x w1]. cbn [fst snd] in Hwp. now apply (IH x w1).
  - inversion Ht; subst. destruct Hwp as [Hw Hk]. split; [exact Hw|].
    intros x w1 Hw1. now apply Hk.
Qed.

Lemma keeps_agentOp {R : Type} (fn : Async R) :
  (forall b w, I w -> I (setAgentTransitioning b w)) ->
  keeps I fn -> keeps I (agentOp fn).
Proof.
  intros Hflag Hfn. unfold agentOp. apply keeps_bind.
  - apply keeps_modify. apply Hflag.
  - intros _. apply keeps_tryFinally; [exact Hfn | apply Hflag].
Qed.

Section SoundLoop.

Context {R : Type}.
Variable submitted : Async R -> Prop.
Variable forked : Async bool -> Prop.
Hypothesis submitted_keeps : forall fn, submitted fn -> keeps I fn.
Hypothesis forked_keeps : forall t, forked t -> keeps I t.
Hypothesis flag_keeps : forall b w, I w -> I (setAgentTransitioning b w).
Hypothesis time_keeps : timeStable I.
Hypothesis files_keep : forall fs w, I w -> I (setFiles fs w).

Lemma answers_keep {X : Type} (rq : Request X) (w : World) (x : X) (w1 : World) :
  I w -> answers rq w x w1 -> I w1.
Proof.
  intros Hw [d ->]. apply time_keeps.
  destruct rq; try exact Hw. cbn [effect]. destruct x; [now apply files_keep | exact Hw].
Qed.

Lemma sound_afterTurn (m : Async R) :
  resumesKeeping I m ->
  match afterTurn m with
  | Waiting fn => keeps I fn
  | Suspended m' => resumesKeeping I m'
  | Settled _ => True
  end.
Proof. intros H. now destruct m. Qed.

Lemma sound_step (l : Loop R) (lb : Label) (l' : Loop R) :
  Sound I l -> step submitted forked l lb l' -> Sound I l'.
Proof.
  intros [Hw Hjobs Hloose] Hstep.
  destruct Hstep as [l fn Hfn|l j jb fn m w' Hj Hst Hdep Ht
                    |l j jb X rq k x w1 m w' Hj Hst Hans Ht
                    |l t m w' Ht Hturn
                    |l i X rq k x w1 m w' Hi Hans Ht
                    |l
                    |l d].
  - split; cbn [world jobs loose withAgentOp]; [exact Hw| |exact Hloose].
    intros j jb Hj. apply lookup_app_Some in Hj as [Hj|[_ Hj]]; [now apply (Hjobs j)|].
    apply list_lookup_singleton_Some in Hj as [_ <-]. cbn. now apply submitted_keeps.
  - pose proof (Hjobs j jb Hj) as Hfn. rewrite Hst in Hfn.
    destruct (wp_turn_keeps (agentOp fn) (world l) m w'
                (keeps_agentOp fn flag_keeps Hfn (world l) Hw) Ht) as [Hw' Hm].
    split; cbn [world jobs loose setJob]; [exact Hw'| |exact Hloose].
    intros i ji. rewrite list_lookup_alter. destruct (decide (j = i)) as [<-|Hne].
    + rewrite Hj. intros [= <-]. cbn [state]. now apply sound_afterTurn.
    + apply Hjobs.
  - pose proof (Hjobs j jb Hj) as Hres. rewrite Hst in Hres. cbn [resumesKeeping] in Hres.
    destruct (wp_turn_keeps (k x) w1 m w'
                (Hres x w1 (answers_keep rq (world l) x w1 Hw Hans)) Ht) as [Hw' Hm].
    split; cbn [world jobs loose setJob]; [exact Hw'| |exact Hloose].
    intros i ji. rewrite list_lookup_alter. destruct (decide (j = i)) as [<-|Hne].
    + rewrite Hj. intros [= <-]. cbn [state]. now apply sound_afterTurn.
    + apply Hjobs.
  - destruct (wp_turn_keeps t (world l) m w' (forked_keeps t Ht (world l) Hw) Hturn)
      as [Hw' Hm].
    split; cbn [world jobs loose]; [exact Hw' | exact Hjobs|].
    intros i m' Hi. apply lookup_app_Some in Hi as [Hi|[_ Hi]]; [now apply (Hloose i)|].
    apply list_lookup_singleton_Some in Hi as [_ <-]. exact Hm.
  - pose proof (Hloose i _ Hi) as Hres. cbn [resumesKeeping] in Hres.
    destruct (wp_turn_keeps (k x) w1 m w'
                (Hres x w1 (answers_keep rq (world l) x w1 Hw Hans)) Ht) as [Hw' Hm].
    split; cbn [world jobs loose]; [exact Hw' | exact Hjobs|].
    intros i' m' Hi'. apply list_lookup_insert_Some in Hi' as [(-> & <- & _)|[_ Hi']].
    + exact Hm.
    + now apply (Hloose i').
  - now split.
  - split; cbn [world jobs loose]; [now apply time_keeps | exact Hjobs | exact Hloose].
Qed.

Lemma sound_exec (w : World) (ls : list Label) (l : Loop R) :
  I w -> exec submitted forked (idle w) ls l -> Sound I l.
Proof.
  intros Hw Hex. remember (idle w) as l0 eqn:Hl0.
  induction Hex as [l|l ls l1 lb l2 Hex IH Hstep].
  - subst. split; cbn; [exact Hw| |]; intros; rewrite lookup_nil in *; discriminate.
  - eapply sound_step; [apply IH; exact Hl0 | exact Hstep].
Qed.

End SoundLoop.

End Keeping.

(** *** The tracked child is alive, at every suspension *)

Lemma trackedAlive_kill (h : nat) (sig : Signal) (w : World) :
  trackedAlive w -> trackedAlive (killProc h sig w).2.
Proof.
  intros Hw c Hc.
  destruct (killProc_fields h sig w) as (_ & _ & Ha & _). rewrite Ha in Hc.
  destruct (Hw c Hc) as (p & Hp & Hx & Hl).
  destruct (killProc_lookup h sig w c p Hp) as (p' & Hp' & _ & Hx' & _ & Hl').
  exists p'. split; [exact Hp'|]. split; congruence.
Qed.

Lemma trackedAlive_spawn (env : Env) (c : Command) (w : World) :
  trackedAlive w -> trackedAlive (spawnProc env c w).2.
Proof.
  intros Hw h Hh.
  destruct (spawnProc_fields env c w) as (_ & _ & _ & Ha & _). rewrite Ha in Hh.
  destruct (Hw h Hh) as (p & Hp & Hx & Hl).
  destruct (spawnProc_lookup env c w h p Hp) as (p' & Hp' & _ & Hx' & _ & Hl').
  exists p'. split; [exact Hp'|]. split; congruence.
Qed.

Lemma trackedAlive_forget (h : nat) (w : World) :
  trackedAlive w -> trackedAlive (forgetChild h w).
Proof.
  intros Hw. unfold forgetChild. destruct (bool_decide _); [|exact Hw].
  intros c Hc. discriminate Hc.
Qed.

Lemma trackedAlive_untrack (w : World) : trackedAlive (setAgentChild None w).
Proof. intros c Hc. discriminate Hc. Qed.

Lemma trackedAlive_flag (b : bool) (w : World) :
  trackedAlive w -> trackedAlive (setAgentTransitioning b w).
Proof. intros Hw. exact Hw. Qed.

Lemma trackedAlive_baseUrl (u : string) (w : World) :
  trackedAlive w -> trackedAlive (setBackendBaseUrlRuntime u w).
Proof. intros Hw. exact Hw. Qed.

Lemma trackedAlive_files (fs : gmap string FileContent) (w : World) :
  trackedAlive w -> trackedAlive (setFiles fs w).
Proof. intros Hw. exact Hw. Qed.

(** One step of the search for a proof that a program keeps the
    invariant. *)
Ltac keeps_alive_step :=
  first
    [ assumption
    | progress cbv zeta
    | match goal with
      | H : forall _, _ |- keeps _ _ => solve [apply H]
      | |- keeps _ (Ret _) => apply keeps_ret
      | |- keeps _ (Throw _) => apply keeps_throw
      | |- keeps _ (get _) => apply keeps_get
      | |- keeps _ (await _) => apply keeps_await
      | |- keeps _ (modify (forgetChild _)) => apply keeps_modify, trackedAlive_forget
      | |- keeps _ (modify (setBackendBaseUrlRuntime _)) =>
          apply keeps_modify, trackedAlive_baseUrl
      | |- keeps _ (modify (setAgentChild None)) =>
          apply keeps_modify; intros ? ?; apply trackedAlive_untrack
      | |- keeps _ (_ ≫= _) => apply keeps_bind; [|intros ?]
      | |- keeps _ (tryCatch _ _) => apply keeps_tryCatch; [|intros ?]
      | |- keeps _ (tryFinally _ (forgetChild _)) =>
          apply keeps_tryFinally; [|apply trackedAlive_forget]
      | |- keeps _ (if ?c then _ else _) => destruct c
      | |- keeps _ (match ?c with _ => _ end) => destruct c
      end ].

Ltac keeps_alive := repeat keeps_alive_step.

Section AliveFacts.

Variable env : Env.

Local Abbreviation Alive := (keeps trackedAlive).

Lemma alive_readFile (path : string) : Alive (readFile path).
Proof. unfold readFile. keeps_alive. Qed.

Lemma alive_writeFile (path : string) (c : Config) : Alive (writeFile path c).
Proof. unfold writeFile. keeps_alive. Qed.

Lemma alive_setTelegramEnabledInConfig (path : string) (b : bool) :
  Alive (setTelegramEnabledInConfig path b).
Proof.
  unfold setTelegramEnabledInConfig, yamlParse.
  pose proof alive_readFile. pose proof alive_writeFile. keeps_alive.
Qed.

Lemma alive_readListenFromConfig (path : string) : Alive (readListenFromConfig path).
Proof. unfold readListenFromConfig, yamlParse. pose proof alive_readFile. keeps_alive. Qed.

Lemma alive_spawn (c : Command) : Alive (Do (spawnProc env c) Ret).
Proof. apply keeps_do; [intros w; apply trackedAlive_spawn | intros x; apply keeps_ret]. Qed.

Lemma alive_childKill (child : nat) (sig : Signal) : Alive (childKill child sig).
Proof.
  unfold childKill. apply keeps_do; [intros w; apply trackedAlive_kill|].
  intros [|b]; [apply keeps_throw | apply keeps_ret].
Qed.

Lemma alive_waitForExit (child : nat) (ms : N) : Alive (waitForExit child ms).
Proof. unfold waitForExit. keeps_alive. Qed.

Lemma alive_stopAgentProcess : Alive (stopAgentProcess env).
Proof.
  unfold stopAgentProcess.
  pose proof alive_spawn. pose proof alive_childKill. pose proof alive_waitForExit.
  keeps_alive.
Qed.

Lemma alive_pollLoop (fuel : nat) (url : string) (child : nat) (t0 T : N) :
  Alive (pollLoop fuel url child t0 T).
Proof.
  induction fuel as [|n IH]; [intros w Hw; exact Hw|]. cbn [pollLoop]. keeps_alive.
Qed.

Lemma alive_waitForBackendReady (url : string) (child : nat) (T : N) :
  Alive (waitForBackendReady url child T).
Proof. unfold waitForBackendReady. pose proof alive_pollLoop. keeps_alive. Qed.

(** The synchronous stretch from [spawn] to [attachAgentLifecycle]
    tracks a child that is alive with its listener attached. *)
Lemma trackedAlive_registered (b : bool) (c : Command) (w : World) :
  trackedAlive
    (setProcs (alter (setLifecycle true) (spawnProc env c w).1 (procs (spawnProc env c w).2))
       (setTelegramEnabledRuntime b
          (setAgentChild (Some (spawnProc env c w).1) (spawnProc env c w).2))).
Proof.
  destruct (spawnProc_fields env c w) as (Hh & _). rewrite Hh.
  destruct (childState_registered env (length (procs w)) b c w eq_refl)
    as [[(_ & _ & Hp)|(Hn & _)] _].
  - intros h [= <-]. exact Hp.
  - discriminate Hn.
Qed.

Lemma alive_startAgentManaged (bin cfg : string) (b sync : bool) :
  Alive (startAgentManaged env bin cfg b sync).
Proof.
  unfold startAgentManaged. apply keeps_bind.
  { pose proof alive_setTelegramEnabledInConfig. keeps_alive. }
  intros _.
  assert (forall child,
            Alive (listen ← readListenFromConfig cfg;
                   let baseUrl := BaseUrl.resolveBackendBaseUrl listen in
                   modify (setBackendBaseUrlRuntime baseUrl);;
                   ready ← waitForBackendReady baseUrl child 30000;
                   if negb ready
                   then stopAgentProcess env;; Ret (StartedFailed healthMessage baseUrl)
                   else Ret (StartedOk baseUrl))) as Hrest.
  { intros child. pose proof alive_readListenFromConfig.
    pose proof alive_waitForBackendReady. pose proof alive_stopAgentProcess.
    keeps_alive. }
  assert (forall c w,
            wp trackedAlive (byAnyone trackedAlive)
               (child ← Do (spawnProc env c) Ret;
                modify (setAgentChild (Some child));;
                modify (setTelegramEnabledRuntime b);;
                attachAgentLifecycle child;;
                listen ← readListenFromConfig cfg;
                let baseUrl := BaseUrl.resolveBackendBaseUrl listen in
                modify (setBackendBaseUrlRuntime baseUrl);;
                ready ← waitForBackendReady baseUrl child 30000;
                if negb ready
                then stopAgentProcess env;; Ret (StartedFailed healthMessage baseUrl)
                else Ret (StartedOk baseUrl))
               (fun _ w' => trackedAlive w') w) as Hspawned.
  { intros c w. unfold attachAgentLifecycle.
    cbn [wp bind get modify mbind async_bind fst snd].
    apply Hrest. apply trackedAlive_registered. }
  intros w Hw. unfold spawnAgentProcess.
  destruct (existsSync env bin); [apply Hspawned|].
  destruct (isPackaged env); [exact Hw | apply Hspawned].
Qed.

Lemma alive_operationBody (op : Operation) : Alive (operationBody env op).
Proof.
  pose proof alive_startAgentManaged. pose proof alive_stopAgentProcess.
  destruct op as [payload| |target]; cbn [operationBody];
    unfold agentStartBody, agentStopBody, telegramSetEnabledBody; keeps_alive.
Qed.

Lemma alive_handlerBody (h : Handler) : Alive (handlerBody env h).
Proof.
  pose proof alive_operationBody. pose proof alive_startAgentManaged.
  pose proof alive_setTelegramEnabledInConfig.
  destruct h as [op|]; cbn [handlerBody]; unfold ensureBackendStartedBody; keeps_alive.
Qed.

(** The tracked child is alive in every state of the event loop. *)
Lemma trackedAlive_exec (t : N) (fs : gmap string FileContent) (ls : list Label)
    (l : Loop (option Reply)) :
  exec (isHandler env) (isQuitStop env) (idle (initialWorld t fs)) ls l ->
  trackedAlive (world l).
Proof.
  intros Hex.
  apply (sound_world trackedAlive l).
  apply (sound_exec trackedAlive (isHandler env) (isQuitStop env))
    with (w := initialWorld t fs) (ls := ls).
  - intros fn [h ->]. apply alive_handlerBody.
  - intros q ->. apply alive_stopAgentProcess.
  - intros b w. apply trackedAlive_flag.
  - apply trackedAlive_advance.
  - intros fs' w. apply trackedAlive_files.
  - intros c Hc. discriminate Hc.
  - exact Hex.
Qed.

End AliveFacts.


(** ** The flag of the serializer, both ways *)

Section FlagConverse.

Context {R : Type}.
Variable submitted : Async R -> Prop.
Variable forked : Async bool -> Prop.
Hypothesis submitted_keepsFlag : forall fn, submitted fn -> keepsFlag fn.
Hypothesis forked_keepsFlag : forall t, forked t -> keepsFlag t.

Lemma flagHasOwner_setJob (l : Loop R) (j : nat) (jb : Job R) (m : Async R) (w' : World) :
  jobs l !! j = Some jb ->
  (isSettled (afterTurn m) = true /\ agentTransitioning w' = false) \/
  (isSuspended (afterTurn m) = true /\ agentTransitioning w' = true /\ resumesGuarded m) ->
  flagHasOwner (setJob j (afterTurn m) l w').
Proof.
  intros Hj [[_ Hoff]|[Hs _]] Hflag; cbn [world setJob] in Hflag; [congruence|].
  exists j, {| dep := dep jb; state := afterTurn m |}.
  split; [|exact Hs]. rewrite setJob_lookup, decide_True by reflexivity. now rewrite Hj.
Qed.

Lemma flagHasOwner_step (ls : list Label) (l : Loop R) (lb : Label) (l' : Loop R) :
  Serialized ls l -> flagHasOwner l -> step submitted forked l lb l' -> flagHasOwner l'.
Proof.
  intros Hser Hown Hstep.
  destruct Hstep as [l fn Hfn|l j jb fn m w' Hj Hst Hdep Ht
                    |l j jb X rq k x w1 m w' Hj Hst Hans Ht
                    |l t m w' Ht Hturn
                    |l i X rq k x w1 m w' Hi Hans Ht
                    |l
                    |l d].
  - intros Hflag. destruct (Hown Hflag) as (j & jb & Hj & Hs).
    exists j, jb. split; [|exact Hs]. unfold withAgentOp. cbn [jobs].
    now apply lookup_app_l_Some.
  - apply (flagHasOwner_setJob l j jb m w' Hj).
    pose proof (ser_progs _ _ Hser _ _ Hj) as Hfn. rewrite Hst in Hfn.
    rewrite turn_agentOp in Ht.
    apply (turn_guarded fn Hfn (setAgentTransitioning true (world l)) m w'); [reflexivity|].
    exact Ht.
  - apply (flagHasOwner_setJob l j jb m w' Hj).
    pose proof (ser_progs _ _ Hser _ _ Hj) as Hres. rewrite Hst in Hres.
    cbn [resumesGuarded] in Hres. destruct (Hres x) as (m0 & Hm0 & Heq).
    rewrite Heq in Ht. apply (turn_guarded m0 Hm0 w1 m w'); [|exact Ht].
    rewrite (answers_flag _ _ _ _ Hans). apply (ser_flag _ _ Hser j jb Hj). now rewrite Hst.
  - destruct (turn_keepsFlag t (forked_keepsFlag t Ht) _ _ _ Hturn) as [Hw _].
    intros Hflag. cbn [world] in Hflag. rewrite Hw in Hflag. exact (Hown Hflag).
  - pose proof (ser_loose _ _ Hser _ _ Hi) as Hk. cbn [keepsFlag] in Hk.
    destruct (turn_keepsFlag (k x) (Hk x) _ _ _ Ht) as [Hw _].
    intros Hflag. cbn [world] in Hflag.
    rewrite Hw, (answers_flag rq _ x _ Hans) in Hflag. exact (Hown Hflag).
  - exact Hown.
  - intros Hflag. cbn [world] in Hflag. rewrite advance_flag in Hflag. exact (Hown Hflag).
Qed.

Lemma flagHasOwner_exec (w : World) (ls : list Label) (l : Loop R) :
  agentTransitioning w = false ->
  exec submitted forked (idle w) ls l -> flagHasOwner l.
Proof.
  intros Hoff Hex. remember (idle w) as l0 eqn:Hl0.
  induction Hex as [l|l ls l1 lb l2 Hex IH Hstep].
  - subst l. intros Hflag. cbn [world idle] in Hflag. congruence.
  - subst l. apply (flagHasOwner_step ls l1 lb l2); [|now apply IH | exact Hstep].
    now apply (serialized_exec submitted forked submitted_keepsFlag forked_keepsFlag w).
Qed.

End FlagConverse.


(** ** The status handler *)

(** C7: in every state the event loop can reach, with operations
    suspended or not, the status handler can run and changes nothing.
    What it returns is the state as it is: [running] exactly when a
    child is tracked, and that child is alive; [pid] the pid of that
    child; [telegramEnabled] and [baseUrl] the two variables;
    [transitioning] exactly when an operation is suspended.  No child
    whose 'exit' has fired is the tracked one, and when the 'exit' of the
    tracked child fires the next status reports [running: false] and
    [pid: null]. *)
Theorem status_never_reports_an_exited_child (env : Env) (t : N)
    (fs : gmap string FileContent) (labels : list Label) (l : Loop (option Reply)) :
  exec (isHandler env) (isQuitStop env) (idle (initialWorld t fs)) labels l ->
  (step (isHandler env) (isQuitStop env) l LStatus l /\
   forall l', step (isHandler env) (isQuitStop env) l LStatus l' -> l' = l) /\
  (running (agentStatus (world l)) = true <->
   exists h p, agentChild (world l) = Some h /\ procs (world l) !! h = Some p /\
               exited p = false) /\
  (forall n, pid (agentStatus (world l)) = Some n <->
     exists h p, agentChild (world l) = Some h /\ procs (world l) !! h = Some p /\
                 exited p = false /\ sc_pid (p_script p) = Some n) /\
  telegramEnabled (agentStatus (world l)) = telegramEnabledRuntime (world l) /\
  baseUrl (agentStatus (world l)) = backendBaseUrlRuntime (world l) /\
  (transitioning (agentStatus (world l)) = true <->
   exists j jb, jobs l !! j = Some jb /\ isSuspended (state jb) = true) /\
  (forall h, hasExited h (world l) = true -> agentChild (world l) <> Some h) /\
  (forall d, lifecycleFires (now (world l) + d) (world l) = true ->
     running (agentStatus (advance d (world l))) = false /\
     pid (agentStatus (advance d (world l))) = None).
Proof.
  intros Hex. pose proof (trackedAlive_exec env t fs labels l Hex) as Halive.
  pose proof (serialized_exec (isHandler env) (isQuitStop env)
                (isHandler_keepsFlag env) (isQuitStop_keepsFlag env) _ labels l Hex) as Hser.
  pose proof (flagHasOwner_exec (isHandler env) (isQuitStop env)
                (isHandler_keepsFlag env) (isQuitStop_keepsFlag env)
                (initialWorld t fs) labels l eq_refl Hex) as Hown.
  split; [split; [apply step_status|]|].
  { intros l' Hstep. now inversion Hstep. }
  split; [|split; [|split; [|split; [|split; [|split]]]]].
  - unfold agentStatus. cbn [running]. split.
    + destruct (agentChild (world l)) as [h|] eqn:Hh; [|discriminate]. intros _.
      destruct (Halive h Hh) as (p & Hp & Hlive & _). now exists h, p.
    + now intros (h & p & -> & _).
  - intros n. unfold agentStatus, childPid. cbn [pid]. split.
    + destruct (agentChild (world l)) as [h|] eqn:Hh; [|discriminate].
      destruct (Halive h Hh) as (p & Hp & Hlive & _). rewrite Hp. intros Hn.
      now exists h, p.
    + intros (h & p & -> & -> & _ & Hn). exact Hn.
  - reflexivity.
  - reflexivity.
  - split; [exact Hown|]. intros (j & jb & Hj & Hs). exact (ser_flag _ _ Hser j jb Hj Hs).
  - intros h Hx Hh. destruct (Halive h Hh) as (p & Hp & Hlive & _).
    unfold hasExited in Hx. rewrite Hp in Hx. congruence.
  - intros d Hfire. unfold agentStatus, advance. cbn [running pid agentChild].
    rewrite Hfire. auto.
Qed.

(** The answer of a given environment is one of the answers the event
    loop allows. *)
Lemma respond_answers (env : Env) {X : Type} (rq : Request X) (w : World) :
  answers rq w (respond env rq w).1 (respond env rq w).2.
Proof.
  destruct rq; cbn [respond effect].
  - now exists (ioDelay env).
  - destruct (writable env path); now exists (ioDelay env).
  - now exists (fo_dur (healthz env url (now w))).
  - now exists ms.
  - now exists (exitWait child ms w).
Qed.

Lemma step_resumed {R : Type} (submitted : Async R -> Prop) (forked : Async bool -> Prop)
    (env : Env) (l : Loop R) (j : nat) (jb : Job R) (m : Async R) :
  jobs l !! j = Some jb ->
  state jb = Suspended m ->
  isAwait m = true ->
  step submitted forked l (LResume j)
       (setJob j (afterTurn (resumed env m (world l)).1) l (resumed env m (world l)).2).
Proof.
  intros Hj Hst Hm.
  destruct m as [r|e| |X f k|X rq k]; try discriminate Hm.
  cbn [resumed]. pose proof (respond_answers env rq (world l)) as Hans.
  destruct (respond env rq (world l)) as [x w1]. cbn [fst snd] in Hans.
  destruct (turn (k x) w1) as [m' w'] eqn:Ht. cbn [fst snd].
  exact (step_resume submitted forked l j jb X rq k x w1 m' w' Hj Hst Hans Ht).
Qed.

(** An execution in which a start has spawned the agent and is suspended
    while a stop waits for it. *)
Lemma busy_exec :
  exec (isHandler Examples.sick) (isQuitStop Examples.sick) (idle Examples.fresh)
       Examples.busyLabels Examples.spawnedLoop.
Proof.
  change Examples.busyLabels
    with ((((((([] ++ [LSubmit]) ++ [LSubmit]) ++ [LStart 0]) ++ [LStatus])
             ++ [LResume 0]) ++ [LResume 0]) ++ [LStatus]).
  eapply exec_snoc; [|apply step_status].
  eapply exec_snoc; [eapply exec_snoc|].
  - eapply exec_snoc; [|apply step_status].
    eapply exec_snoc.
    + eapply exec_snoc.
      * eapply exec_snoc; [apply exec_nil|].
        apply step_submit. now exists (Caller (OpStart Examples.withBot)).
      * apply step_submit. now exists (Caller OpStop).
    + unfold Examples.busyLoop.
      eapply (step_start _ _ Examples.twoSubmitted 0 _ _ Examples.firstTurn.1
                Examples.firstTurn.2); [reflexivity | reflexivity | reflexivity|].
      unfold Examples.firstTurn. now destruct (turn _ _).
  - unfold Examples.writingLoop, Examples.secondTurn.
    eapply (step_resumed _ _ Examples.sick Examples.busyLoop 0); reflexivity.
  - unfold Examples.spawnedLoop, Examples.thirdTurn.
    eapply (step_resumed _ _ Examples.sick Examples.writingLoop 0); reflexivity.
Qed.

Lemma status_witness :
  (step (isHandler Examples.sick) (isQuitStop Examples.sick) Examples.spawnedLoop LStatus
        Examples.spawnedLoop /\
   forall l', step (isHandler Examples.sick) (isQuitStop Examples.sick) Examples.spawnedLoop
                LStatus l' -> l' = Examples.spawnedLoop) /\
  (running (agentStatus (world Examples.spawnedLoop)) = true <->
   exists h p, agentChild (world Examples.spawnedLoop) = Some h /\
               procs (world Examples.spawnedLoop) !! h = Some p /\ exited p = false) /\
  (forall n, pid (agentStatus (world Examples.spawnedLoop)) = Some n <->
     exists h p, agentChild (world Examples.spawnedLoop) = Some h /\
                 procs (world Examples.spawnedLoop) !! h = Some p /\
                 exited p = false /\ sc_pid (p_script p) = Some n) /\
  telegramEnabled (agentStatus (world Examples.spawnedLoop))
  = telegramEnabledRuntime (world Examples.spawnedLoop) /\
  baseUrl (agentStatus (world Examples.spawnedLoop))
  = backendBaseUrlRuntime (world Examples.spawnedLoop) /\
  (transitioning (agentStatus (world Examples.spawnedLoop)) = true <->
   exists j jb, jobs Examples.spawnedLoop !! j = Some jb /\ isSuspended (state jb) = true) /\
  (forall h, hasExited h (world Examples.spawnedLoop) = true ->
     agentChild (world Examples.spawnedLoop) <> Some h) /\
  (forall d,
     lifecycleFires (now (world Examples.spawnedLoop) + d) (world Examples.spawnedLoop) = true ->
     running (agentStatus (advance d (world Examples.spawnedLoop))) = false /\
     pid (agentStatus (advance d (world Examples.spawnedLoop))) = None).
Proof.
  exact (status_never_reports_an_exited_child Examples.sick 1000 Examples.configOff
           Examples.busyLabels Examples.spawnedLoop busy_exec).
Defined.

Lemma serializer_witness :
  length (jobs Examples.spawnedLoop) = submissions Examples.busyLabels /\
  (forall j jb, jobs Examples.spawnedLoop !! j = Some jb ->
     runsGiven (isHandler Examples.sick) jb) /\
  StronglySorted le (turnsOf Examples.busyLabels) /\
  (forall i j ji jj, (i < j)%nat ->
     jobs Examples.spawnedLoop !! i = Some ji -> jobs Examples.spawnedLoop !! j = Some jj ->
     isWaiting (state jj) = false -> isSettled (state ji) = true) /\
  (forall j jb, jobs Examples.spawnedLoop !! j = Some jb -> isSuspended (state jb) = true ->
     transitioning (agentStatus (world Examples.spawnedLoop)) = true) /\
  (forall j jb fn, jobs Examples.spawnedLoop !! j = Some jb -> state jb = Waiting fn ->
     (forall i, (i < j)%nat -> jobSettled (jobs Examples.spawnedLoop) i = true) ->
     exists l', step (isHandler Examples.sick) (isQuitStop Examples.sick)
                  Examples.spawnedLoop (LStart j) l') /\
  (forall j jb (X : Type) (rq : Request X) k,
     jobs Examples.spawnedLoop !! j = Some jb -> state jb = Suspended (Await rq k) ->
     exists l', step (isHandler Examples.sick) (isQuitStop Examples.sick)
                  Examples.spawnedLoop (LResume j) l') /\
  (forall l', step (isHandler Examples.sick) (isQuitStop Examples.sick)
                Examples.spawnedLoop LSubmit l' ->
     exists fn, isHandler Examples.sick fn /\ world l' = world Examples.spawnedLoop /\
       jobs l' = jobs Examples.spawnedLoop ++
                 [{| dep := agentOpChain Examples.spawnedLoop; state := Waiting fn |}]).
Proof.
  exact (serializer_runs_operations_one_at_a_time
           (isHandler Examples.sick) (isQuitStop Examples.sick)
           Examples.fresh Examples.busyLabels Examples.spawnedLoop
           (isHandler_keepsFlag Examples.sick) (isQuitStop_keepsFlag Examples.sick)
           busy_exec).
Defined.

(** In that execution the start is suspended with its child spawned,
    and the status says so. *)
Example busy_status :
  (exists jb, jobs Examples.spawnedLoop !! 0%nat = Some jb /\ isSuspended (state jb) = true) /\
  (exists jb, jobs Examples.spawnedLoop !! 1%nat = Some jb /\ isWaiting (state jb) = true) /\
  transitioning (agentStatus (world Examples.spawnedLoop)) = true /\
  running (agentStatus (world Examples.spawnedLoop)) = true /\
  pid (agentStatus (world Examples.spawnedLoop)) = Some 4000%N /\
  telegramEnabled (agentStatus (world Examples.spawnedLoop)) = true.
Proof.
  split; [|split; [|repeat split]].
  - eexists. split; reflexivity.
  - eexists. split; reflexivity.
Qed.

(** * Further properties

    ** The base address, all inputs *)
Module BaseUrlMore.
Import JsString BaseUrl BaseUrlFacts.

(** The strings of [ws], one after the other. *)
Definition joined (ws : list string) : string := fold_right String.append EmptyString ws.

Lemma trimStart_whiteSpaceChar (c s : string) :
  isWhiteSpaceChar c = true -> trimStart (c +:+ s) = trimStart s.
Proof.
  destruct c as [|x [|y [|z [|]]]]; try discriminate; cbn [isWhiteSpaceChar]; intros H.
  - change (String x "" +:+ s) with (String x s). cbn [trimStart]. now rewrite H.
  - change (String x (String y "") +:+ s) with (String x (String y s)).
    pose proof (white2_continuation x y H) as Hy. cbn [trimStart].
    assert (white (decode1 x) = false) as -> by (clear Hy; bytes).
    now rewrite H.
  - change (String x (String y (String z "")) +:+ s) with (String x (String y (String z s))).
    cbn [trimStart].
    assert (white (decode1 x) = false) as -> by bytes.
    assert (white (decode2 x y) = false) as -> by bytes.
    now rewrite H.
Qed.

Lemma trimStart_joined (ws : list string) :
  Forall (fun c => isWhiteSpaceChar c = true) ws -> trimStart (joined ws) = EmptyString.
Proof.
  induction 1 as [|c ws Hc _ IH]; [reflexivity|].
  cbn [joined fold_right]. now rewrite (trimStart_whiteSpaceChar c _ Hc).
Qed.

Lemma no_closing_no_separator (s : string) :
  allChars notClosing s = true -> lastOccurrence "]:" (s +:+ "]") = None.
Proof.
  induction s as [|c s IH]; intros H; [reflexivity|].
  cbn [allChars] in H. apply andb_true_iff in H as [Hc Hs].
  change (String c s +:+ "]") with (String c (s +:+ "]")).
  cbn [lastOccurrence]. rewrite (IH Hs). cbn [isPrefix].
  unfold notClosing in Hc. apply negb_true_iff in Hc.
  rewrite Ascii.eqb_sym, Hc. reflexivity.
Qed.

(** X2: white-space characters around the listen address, of the
    classes WhiteSpace and LineTerminator and in any number, do not
    change the result. *)
Theorem base_url_ignores_surrounding_whitespace (before after : list string)
    (listen : string) :
  Forall (fun c => isWhiteSpaceChar c = true) before ->
  Forall (fun c => isWhiteSpaceChar c = true) after ->
  resolveBackendBaseUrl (joined before +:+ listen +:+ joined after)
  = resolveBackendBaseUrl listen.
Proof.
  intros Hpre Hpost. unfold resolveBackendBaseUrl.
  now rewrite (trim_padded (joined before) listen (joined after)
                 (trimStart_joined _ Hpre) (trimStart_joined _ Hpost)).
Qed.

Lemma base_url_whitespace_witness :
  resolveBackendBaseUrl
    (joined [" "%string; ofBytes [194; 160]%N] +:+ "0.0.0.0:9108" +:+
     joined [ofBytes [226; 128; 168]%N; ofBytes [13]%N; ofBytes [10]%N;
             ofBytes [239; 187; 191]%N])
  = resolveBackendBaseUrl "0.0.0.0:9108".
Proof.
  apply (base_url_ignores_surrounding_whitespace
           [" "%string; ofBytes [194; 160]%N] 
           [ofBytes [226; 128; 168]%N; ofBytes [13]%N; ofBytes [10]%N;
            ofBytes [239; 187; 191]%N]
           "0.0.0.0:9108");
    repeat constructor.
Defined.

(** X3: a listen address that has its only colon in front
    ([:8080]) and a bracketed host without a port ([[::1]]) give the
    default base address: the port of the first and the host of the
    second are dropped. *)
Theorem base_url_needs_host_and_port (port host : string) :
  allChars notColon port = true ->
  allChars notClosing host = true ->
  resolveBackendBaseUrl (":" +:+ port) = defaultBaseUrl /\
  resolveBackendBaseUrl ("[" +:+ host +:+ "]") = defaultBaseUrl.
Proof.
  intros Hport Hhost. split.
  - unfold resolveBackendBaseUrl, trim.
    change (":" +:+ port) with (String ":" port).
    rewrite (trimStart_plain_head ":" port plain_colon).
    change (String ":" port) with ("" +:+ String ":" port).
    rewrite (trimEnd_before "" ":" port plain_colon).
    change ("" +:+ String ":" (trimEnd port)) with (String ":" (trimEnd port)).
    change (String.eqb (String ":" (trimEnd port)) "") with false. cbn iota.
    unfold splitListen. change (startsWith (String ":" (trimEnd port)) "[") with false.
    cbn iota. unfold lastIndexOf.
    change (String ":" (trimEnd port)) with ("" +:+ ":" +:+ trimEnd port).
    rewrite (lastOccurrence_colon "" (trimEnd port) (allChars_trimEnd _ _ Hport)).
    reflexivity.
  - assert (trim ("[" +:+ host +:+ "]") = String "[" host +:+ "]") as Htrim.
    { unfold trim. change ("[" +:+ host +:+ "]") with (String "[" (host +:+ "]")).
      rewrite (trimStart_plain_head "[" _ ltac:(split; reflexivity)).
      change (String "[" (host +:+ "]")) with (String "[" host +:+ String "]" "").
      now rewrite (trimEnd_before (String "[" host) "]" "" plain_closing). }
    unfold resolveBackendBaseUrl. rewrite Htrim.
    change (String.eqb (String "[" host +:+ "]") "") with false. cbn iota.
    unfold splitListen.
    change (startsWith (String "[" host +:+ "]") "[") with true. cbn iota.
    unfold lastIndexOf. rewrite no_closing_no_separator; [reflexivity|].
    cbn [allChars]. rewrite Hhost. reflexivity.
Qed.

Lemma base_url_needs_host_and_port_witness :
  resolveBackendBaseUrl (":" +:+ "8080") = defaultBaseUrl /\
  resolveBackendBaseUrl ("[" +:+ "::1" +:+ "]") = defaultBaseUrl.
Proof. apply (base_url_needs_host_and_port "8080" "::1"); reflexivity. Defined.

End BaseUrlMore.

(** ** Paths and files on disk *)

Lemma firstExisting_none (env : Env) (base : string) (candidates : list string) :
  firstExisting env base candidates = None <->
  Forall (fun file => existsSync env (pathJoin env [base; file]) = false) candidates.
Proof.
  induction candidates as [|file rest IH]; cbn [firstExisting].
  - split; [constructor | reflexivity].
  - destruct (existsSync env (pathJoin env [base; file])) eqn:Hx.
    + split; [discriminate|]. intros H. apply Forall_cons_1 in H as [H _]. congruence.
    + rewrite IH. split; [now constructor|]. intros H. now apply Forall_cons_1 in H.
Qed.

Lemma firstExisting_some (env : Env) (base : string) (candidates : list string)
    (full : string) :
  firstExisting env base candidates = Some full <->
  exists earlier file later,
    candidates = earlier ++ file :: later /\
    full = pathJoin env [base; file] /\
    existsSync env full = true /\
    Forall (fun f => existsSync env (pathJoin env [base; f]) = false) earlier.
Proof.
  induction candidates as [|file rest IH]; cbn [firstExisting].
  - split; [discriminate|]. intros (earlier & f & later & H & _). now destruct earlier.
  - destruct (existsSync env (pathJoin env [base; file])) eqn:Hx.
    + split.
      * intros [= <-]. exists [], file, rest. repeat split; [exact Hx | constructor].
      * intros (earlier & f & later & Hc & -> & Hf & He).
        destruct earlier as [|e earlier]; cbn in Hc; injection Hc as -> Hc.
        -- reflexivity.
        -- apply Forall_cons_1 in He as [He _]. congruence.
    + rewrite IH. split.
      * intros (earlier & f & later & -> & -> & Hf & He).
        exists (file :: earlier), f, later. repeat split; [exact Hf | now constructor].
      * intros (earlier & f & later & Hc & -> & Hf & He).
        destruct earlier as [|e earlier]; cbn in Hc; injection Hc as -> Hc.
        -- congruence.
        -- apply Forall_cons_1 in He as [_ He]. exists earlier, f, later. auto.
Qed.

(** X4: each of [pickTrayIconPath] and [pickWindowIconPath] returns
    [null] exactly when none of its candidate files exists in the icon
    directory, and otherwise the first candidate, in the order of the
    platform, that exists. *)
Theorem icon_is_first_existing_candidate (env : Env) (dirname : string) :
  let base := iconsBasePath env dirname in
  let missing := fun file => existsSync env (pathJoin env [base; file]) = false in
  let firstOf := fun (candidates : list string) (full : string) =>
    exists earlier file later,
      candidates = earlier ++ file :: later /\
      full = pathJoin env [base; file] /\
      existsSync env full = true /\ Forall missing earlier in
  (pickTrayIconPath env dirname = None <-> Forall missing (trayCandidates env)) /\
  (forall full, pickTrayIconPath env dirname = Some full <->
                firstOf (trayCandidates env) full) /\
  (pickWindowIconPath env dirname = None <-> Forall missing (windowCandidates env)) /\
  (forall full, pickWindowIconPath env dirname = Some full <->
                firstOf (windowCandidates env) full).
Proof.
  cbv zeta. unfold pickTrayIconPath, pickWindowIconPath.
  split; [apply firstExisting_none|]. split; [intros full; apply firstExisting_some|].
  split; [apply firstExisting_none | intros full; apply firstExisting_some].
Qed.

(** A platform prefers its own sizes: with every icon installed the tray
    gets the 32-pixel file on win32 and the 16-pixel file elsewhere. *)
Example tray_icon_by_platform :
  pickTrayIconPath Scenes.winBox "C:\app" = Some "C:\Program Files\monitord\resources\icons\tray-32.png"%string /\
  pickTrayIconPath Examples.sound "/app"
  = Some "/opt/monitord/resources/icons/tray-16.png"%string /\
  pickWindowIconPath Examples.relocated "/app" = None.
Proof. repeat split. Qed.

(** X5: in a development checkout the agent can always be spawned with
    the default binary: it is the debug build of [build_target] if that
    exists, else the one of [build_target_verify] if that exists, else
    [cargo run]; [spawnAgentProcess] never throws there. *)
Theorem checkout_spawn_never_throws (env : Env) (configPath : string)
    (telegramEnabled : bool) (w : World) :
  isPackaged env = false ->
  let primary := pathJoin env [projectRoot env; "build_target"; "debug"; exeName env] in
  let verify := pathJoin env [projectRoot env; "build_target_verify"; "debug"; exeName env] in
  let args := ["--config"%string; configPath] in
  exists c,
    run env (spawnAgentProcess env (defaultMonitordBin env) configPath telegramEnabled) w
    = (Returned (length (procs w)), (spawnProc env c w).2) /\
    c = (if existsSync env primary then CmdAgent primary args
         else if existsSync env verify then CmdAgent verify args
         else CmdCargo args).
Proof.
  intros Hdev. cbv zeta. unfold spawnAgentProcess, defaultMonitordBin. rewrite Hdev.
  destruct (existsSync env (pathJoin env [projectRoot env; "build_target"; "debug"; exeName env]))
    eqn:Hp.
  - rewrite Hp. eexists. split; reflexivity.
  - destruct (existsSync env
                (pathJoin env [projectRoot env; "build_target_verify"; "debug"; exeName env]))
      eqn:Hv.
    + rewrite Hv. eexists. split; reflexivity.
    + rewrite Hp. eexists. split; reflexivity.
Qed.

Lemma checkout_spawn_witness :
  exists c,
    run Scenes.devBox
        (spawnAgentProcess Scenes.devBox (defaultMonitordBin Scenes.devBox)
           Examples.configPath true)
        Examples.fresh
    = (Returned (length (procs Examples.fresh)),
       (spawnProc Scenes.devBox c Examples.fresh).2) /\
    c = CmdAgent "/home/dev/monitord/build_target_verify/debug/monitord"
          ["--config"%string; Examples.configPath].
Proof.
  exact (checkout_spawn_never_throws Scenes.devBox Examples.configPath true Examples.fresh
           eq_refl).
Defined.

(** X6: where [path.join] of an absolute directory is absolute, as it
    is in Node, resolving a path that is already resolved returns it:
    [resolveConfigPath] and [resolveProjectPath] are idempotent. *)
Theorem path_resolution_is_idempotent (env : Env) (p : string) :
  (forall dir rest, pathIsAbsolute env dir = true ->
                    pathIsAbsolute env (pathJoin env (dir :: rest)) = true) ->
  pathIsAbsolute env (userData env) = true ->
  pathIsAbsolute env (resourcesPath env) = true ->
  pathIsAbsolute env (projectRoot env) = true ->
  pathIsAbsolute env "" = false ->
  resolveConfigPath env (resolveConfigPath env p) = resolveConfigPath env p /\
  resolveProjectPath env (resolveProjectPath env p) = resolveProjectPath env p.
Proof.
  intros Hjoin Hu Hr Hp He.
  assert (forall q, pathIsAbsolute env q = true ->
            resolveConfigPath env q = q /\ resolveProjectPath env q = q) as Habs.
  { intros q Hq. unfold resolveConfigPath, resolveProjectPath.
    destruct (String.eqb_spec q ""); [subst; congruence|]. now rewrite Hq. }
  split.
  - apply Habs. unfold resolveConfigPath, runtimeConfigPath.
    destruct (String.eqb p ""); [now apply Hjoin|].
    destruct (pathIsAbsolute env p) eqn:Hq; [exact Hq|].
    destruct (String.eqb _ "config.yaml"); [now apply Hjoin|].
    destruct (isPackaged env); now apply Hjoin.
  - unfold resolveProjectPath at 2 3.
    destruct (String.eqb_spec p ""); [now subst|].
    destruct (pathIsAbsolute env p) eqn:Hq; [now apply Habs|].
    destruct (isPackaged env); apply Habs; now apply Hjoin.
Qed.

Lemma concat_absolute (dir : string) (rest : list string) :
  JsString.startsWith dir "/" = true ->
  JsString.startsWith (String.concat "/" (dir :: rest)) "/" = true.
Proof.
  intros H. destruct dir as [|c dir]; [discriminate|].
  cbn [String.concat]. destruct rest; [exact H|].
  cbn in H |- *. exact H.
Qed.

Lemma path_resolution_witness :
  resolveConfigPath Examples.sound (resolveConfigPath Examples.sound ".\config.yaml") =
  resolveConfigPath Examples.sound ".\config.yaml" /\
  resolveProjectPath Examples.sound (resolveProjectPath Examples.sound ".\config.yaml") =
  resolveProjectPath Examples.sound ".\config.yaml".
Proof.
  apply (path_resolution_is_idempotent Examples.sound ".\config.yaml");
    [exact concat_absolute | reflexivity | reflexivity | reflexivity | reflexivity].
Defined.

(** ** The configuration file *)

Ltac run_simpl :=
  cbn [run respond bind mbind async_bind mret async_ret tryCatch tryFinally get modify await
       readFile writeFile yamlParse fst snd].

Lemma files_advance (d : N) (w : World) : files (advance d w) = files w.
Proof. reflexivity. Qed.

(** X7: [setTelegramEnabledInConfig] never rejects.  It returns [true]
    exactly when the file parses, reads the other value of the flag and
    can be written; then the file is the document as [YAML.stringify]
    writes it after the assignment, and otherwise the files are
    untouched.  Where [telegram] is a mapping, or absent, a second call
    with the same target returns [false].  Where it is a truthy scalar
    or a sequence the assignment is lost: the file still reads as
    disabled, and the second call returns [true] again. *)
Theorem set_flag_in_config_is_best_effort (env : Env) (path : string) (target : bool)
    (w : World) :
  exists (changed : bool) (w' : World),
    run env (setTelegramEnabledInConfig path target) w = (Returned changed, w') /\
    (changed = true <->
     exists c, files w !! path = Some (Parsed c) /\
               cfg_telegram_enabled c = negb target /\ writable env path = true) /\
    (forall c, files w !! path = Some (Parsed c) -> changed = true ->
               files w' = <[path := Parsed (withTelegramEnabled c target)]> (files w)) /\
    (changed = false -> files w' = files w) /\
    (changed = false \/ (exists c, files w !! path = Some (Parsed c) /\ holdsFlag c = true) ->
     (run env (setTelegramEnabledInConfig path target) w').1 = Returned false) /\
    (forall c, files w !! path = Some (Parsed c) -> holdsFlag c = false -> changed = true ->
       target = true /\ persistedEnabled path w' = Some false /\
       (run env (setTelegramEnabledInConfig path target) w').1 = Returned true).
Proof.
  unfold setTelegramEnabledInConfig. run_simpl.
  destruct (files w !! path) as [[|c]|] eqn:Hf; run_simpl.
  - (* the text does not parse *)
    eexists false, _. split; [reflexivity|].
    split; [split; [discriminate | intros (c & [=] & _)]|].
    split; [discriminate|]. split; [reflexivity|].
    split; [|discriminate].
    intros _. rewrite files_advance, Hf. reflexivity.
  - destruct (Bool.eqb (cfg_telegram_enabled c) target) eqn:Heq; run_simpl.
    + (* the flag reads as the target already *)
      eexists false, _. split; [reflexivity|].
      apply Bool.eqb_prop in Heq.
      split; [split; [discriminate|]|].
      { intros (c' & [= <-] & Hne & _). rewrite Heq in Hne. now destruct target. }
      split; [discriminate|]. split; [reflexivity|].
      split; [|discriminate].
      intros _. rewrite files_advance, Hf. run_simpl.
      rewrite <- Heq, Bool.eqb_reflx. reflexivity.
    + apply Bool.eqb_false_iff in Heq.
      destruct (writable env path) eqn:Hw; run_simpl.
      * (* written *)
        eexists true, _. split; [reflexivity|].
        split; [split; [intros _|reflexivity]|].
        { exists c. split; [reflexivity|]. split; [|reflexivity].
          destruct (cfg_telegram_enabled c), target; cbn; congruence. }
        split; [intros c' [= <-] _; reflexivity|]. split; [discriminate|].
        rewrite !files_advance. cbn [files setFiles]. rewrite lookup_insert_eq. run_simpl.
        split.
        -- intros [[=]|(c' & [= <-] & Hholds)].
           rewrite (withTelegramEnabled_flag c target Hholds), Bool.eqb_reflx. reflexivity.
        -- intros c' [= <-] Hopaque _.
           assert (withTelegramEnabled c target = c /\ cfg_telegram_enabled c = false)
             as [Hsame Hcur] by (destruct c as [l [x|]]; [discriminate | auto]).
           rewrite Hsame. rewrite Hcur in Heq.
           assert (target = true) as -> by (destruct target; congruence).
           split; [reflexivity|]. unfold persistedEnabled.
           rewrite !files_advance. cbn [files setFiles]. rewrite lookup_insert_eq, Hcur.
           split; [reflexivity|]. cbn [Bool.eqb]. run_simpl. rewrite Hw. reflexivity.
      * (* the write is refused *)
        eexists false, _. split; [reflexivity|].
        split; [split; [discriminate | intros (c' & _ & _ & [=])]|].
        split; [discriminate|]. split; [reflexivity|].
        split; [|discriminate].
        intros _. rewrite !files_advance, Hf. run_simpl.
        apply Bool.eqb_false_iff in Heq. rewrite Heq. run_simpl.
        rewrite Hw. reflexivity.
  - (* no such file *)
    eexists false, _. split; [reflexivity|].
    split; [split; [discriminate | intros (c & [=] & _)]|].
    split; [discriminate|]. split; [reflexivity|].
    split; [|discriminate].
    intros _. rewrite files_advance, Hf. reflexivity.
Qed.

(** A document with other keys keeps them: here the listen address. *)
Example set_flag_keeps_listen :
  let '(o, w') := run Examples.sound
                    (setTelegramEnabledInConfig Examples.configPath true) Examples.fresh in
  o = Returned true /\
  files w' !! Examples.configPath =
  Some (Parsed {| cfg_listen := "0.0.0.0:9108"; cfg_telegram := TelegramMapping true |}).
Proof. vm_compute. split; reflexivity. Qed.

(** A file that says [telegram: on]: the call reports a change each
    time and the file stays as it is. *)
Example set_flag_is_lost_on_a_scalar :
  let w := initialWorld 0 {[ Examples.configPath :=
                               Parsed {| cfg_listen := "0.0.0.0:9108";
                                         cfg_telegram := TelegramOther |} ]} in
  let '(o1, w1) := run Examples.sound
                     (setTelegramEnabledInConfig Examples.configPath true) w in
  let '(o2, w2) := run Examples.sound
                     (setTelegramEnabledInConfig Examples.configPath true) w1 in
  o1 = Returned true /\ o2 = Returned true /\
  files w2 = files w /\ persistedEnabled Examples.configPath w2 = Some false.
Proof. vm_compute. repeat split. Qed.

(** X8: on a first run, with no runtime configuration yet and a user
    directory that can be written, [ensureRuntimeConfigExists] creates
    the file with the bot disabled, whatever the template says; the
    listen address is that of the template, or [127.0.0.1:9108] when the
    template cannot be read or parsed. *)
Theorem first_run_config_has_bot_disabled (env : Env) (w : World) :
  existsSync env (runtimeConfigPath env) = false ->
  writable env (runtimeConfigPath env) = true ->
  exists w' c,
    run env (ensureRuntimeConfigExists env) w = (Returned (runtimeConfigPath env), w') /\
    files w' !! runtimeConfigPath env = Some (Parsed c) /\
    cfg_telegram_enabled c = false /\
    cfg_listen c =
      match files w !! defaultConfigTemplatePath env with
      | Some (Parsed template) => cfg_listen template
      | _ => "127.0.0.1:9108"%string
      end.
Proof.
  intros Hnew Hwr. unfold ensureRuntimeConfigExists. rewrite Hnew. run_simpl.
  destruct (files w !! defaultConfigTemplatePath env) as [[|t]|]; run_simpl;
    rewrite Hwr; run_simpl.
  all: eexists _, _; split; [reflexivity|].
  all: rewrite !files_advance; cbn [files setFiles]; rewrite lookup_insert_eq.
  all: split; [reflexivity|]; split; try reflexivity.
  all: now destruct t as [l [x|]].
Qed.

Lemma first_run_config_witness :
  exists w' c,
    run Scenes.devBox (ensureRuntimeConfigExists Scenes.devBox) Examples.fresh
    = (Returned (runtimeConfigPath Scenes.devBox), w') /\
    files w' !! runtimeConfigPath Scenes.devBox = Some (Parsed c) /\
    cfg_telegram_enabled c = false /\
    cfg_listen c =
      match files Examples.fresh !! defaultConfigTemplatePath Scenes.devBox with
      | Some (Parsed template) => cfg_listen template
      | _ => "127.0.0.1:9108"%string
      end.
Proof.
  apply (first_run_config_has_bot_disabled Scenes.devBox Examples.fresh); reflexivity.
Defined.

(** X10: neither structured handler rejects or touches another file.
    A load answers [ok: true] exactly when the file exists and parses,
    and changes nothing; a save answers [ok: true] exactly when it has a
    payload and the file can be written, and otherwise changes
    nothing. *)
Theorem structured_config_handlers_never_reject (env : Env) (configPath : option string)
    (payload : option SavePayload) (w : World) :
  (exists r w',
     run env (configLoadStructured env configPath) w = (Returned r, w') /\
     files w' = files w /\
     forall c, r = LoadOk c <->
               files w !! resolveConfigPath env (orDefault configPath "./config.yaml")
               = Some (Parsed c)) /\
  (exists r w',
     run env (configSaveStructured env payload) w = (Returned r, w') /\
     (r = SaveOk <->
      exists pl, payload = Some pl /\
        writable env (resolveConfigPath env (orDefault (sp_configPath pl) "./config.yaml"))
        = true) /\
     (r <> SaveOk -> files w' = files w)).
Proof.
  split.
  - unfold configLoadStructured. run_simpl.
    destruct (files w !! resolveConfigPath env (orDefault configPath "./config.yaml"))
      as [[|c]|] eqn:Hf; run_simpl.
    + eexists _, _. split; [reflexivity|]. split; [reflexivity|].
      intros c. split; discriminate.
    + eexists _, _. split; [reflexivity|]. split; [reflexivity|].
      intros c'. split; congruence.
    + eexists _, _. split; [reflexivity|]. split; [reflexivity|].
      intros c. split; discriminate.
  - unfold configSaveStructured. destruct payload as [pl|]; run_simpl.
    + destruct (writable env _) eqn:Hwr; run_simpl.
      * eexists _, _. split; [reflexivity|]. split; [|congruence].
        split; [intros _; now exists pl | reflexivity].
      * eexists _, _. split; [reflexivity|]. split; [|reflexivity].
        split; [discriminate|]. intros (pl' & [= <-] & H). congruence.
    + eexists _, _. split; [reflexivity|]. split; [|reflexivity].
      split; [discriminate|]. now intros (pl' & [=] & _).
Qed.

(** ** Waiting for and stopping a process *)
Lemma exitWait_le (child : nat) (ms : N) (w : World) : (exitWait child ms w <= ms)%N.
Proof.
  unfold exitWait. destruct (procs w !! child) as [p|]; [|lia].
  destruct (exited p); [lia|]. destruct (p_due p) as [[t k]|]; lia.
Qed.

Lemma exitWait_early (child : nat) (ms : N) (w : World) (p : Proc) :
  procs w !! child = Some p -> exited p = false ->
  (exitWait child ms w < ms)%N ->
  hasExited child (advance (exitWait child ms w) w) = true.
Proof.
  intros Hp Hx Hlt. unfold hasExited. rewrite advance_lookup, Hp. cbn [fmap option_fmap option_map].
  unfold exitWait in *. rewrite Hp, Hx in *.
  destruct (p_due p) as [[t k]|] eqn:Hd; [|lia].
  unfold settle, dueBy. rewrite Hx, Hd.
  destruct (N.leb_spec t (now w + N.min ms (t - now w))) as [_|Hgt]; [|lia].
  apply markExited_exited.
Qed.

(** [waitForExit], run. *)
Lemma waitForExit_run (env : Env) (child : nat) (timeoutMs : N) (w : World) :
  exists w',
    run env (waitForExit child timeoutMs) w = (Returned tt, w') /\
    (now w <= now w' <= now w + timeoutMs)%N /\
    trace w' = trace w /\ files w' = files w /\
    match procs w !! child with
    | None => w' = w
    | Some p =>
        if notNull (p_exitCode p) || p_killed p then w' = w
        else exited p = false -> (now w' < now w + timeoutMs)%N ->
             hasExited child w' = true
    end.
Proof.
  unfold waitForExit. run_simpl.
  destruct (procs w !! child) as [p|] eqn:Hp; run_simpl.
  - destruct (notNull (p_exitCode p) || p_killed p) eqn:Hk; run_simpl.
    + exists w. split; [reflexivity|]. split; [lia|]. auto.
    + eexists. split; [reflexivity|].
      pose proof (exitWait_le child timeoutMs w) as Hle.
      split; [unfold advance; cbn [now]; lia|]. split; [reflexivity|].
      split; [reflexivity|]. intros Hx Hlt.
      apply (exitWait_early child timeoutMs w p Hp Hx).
      unfold advance in Hlt. cbn [now] in Hlt. lia.
  - exists w. split; [reflexivity|]. split; [lia|]. auto.
Qed.

(** X11: [waitForExit] never rejects and never waits longer than its
    timeout.  For no child, a child with an exit code or a child marked
    killed it returns at once; otherwise, when it returns before the
    timeout has elapsed, the 'exit' of the child has fired. *)
Theorem wait_for_exit_is_bounded (env : Env) (child : nat) (timeoutMs : N) (w : World) :
  exists w',
    run env (waitForExit child timeoutMs) w = (Returned tt, w') /\
    (now w <= now w' <= now w + timeoutMs)%N /\
    trace w' = trace w /\ files w' = files w /\
    match procs w !! child with
    | None => w' = w
    | Some p =>
        if notNull (p_exitCode p) || p_killed p then w' = w
        else exited p = false -> (now w' < now w + timeoutMs)%N ->
             hasExited child w' = true
    end.
Proof. exact (waitForExit_run env child timeoutMs w). Qed.

Lemma now_forgetChild (h : nat) (w : World) : now (forgetChild h w) = now w.
Proof. unfold forgetChild. now destruct (bool_decide _). Qed.

Section ProcessFacts.

Variable env : Env.

Local Abbreviation WP := (wp anyWorld (byEnv env)).

Lemma waitForExit_within (child : nat) (ms : N) (w : World) :
  WP (waitForExit child ms)
     (fun o w' => o = Returned tt /\ (now w <= now w' <= now w + ms)%N) w.
Proof.
  apply wp_run.
  destruct (waitForExit_run env child ms w) as (w' & -> & Ht & _).
  split; [reflexivity | exact Ht].
Qed.

Lemma stopAgentProcess_within (w : World) :
  WP (stopAgentProcess env)
     (fun o w' => (exists r, o = Returned r) /\ (now w <= now w' <= now w + 14000)%N) w.
Proof.
  unfold stopAgentProcess. wp_simpl.
  destruct (agentChild w) as [child|]; wp_simpl; [|split; [eauto | lia]].
  apply wp_tryFinally, wp_tryCatch. wp_simpl.
  assert (forall w1, (now w <= now w1 <= now w + 5000)%N ->
            WP (waitForExit child 7000;;
                c ← get (fun w => procs w !! child);
                (if match c with
                    | Some p => negb (notNull (p_exitCode p)) && negb (p_killed p)
                    | None => false
                    end
                 then childKill child SIGKILL;; waitForExit child 2000
                 else Ret tt);;
                Ret true)
               (orCatch anyWorld (byEnv env) (fun _ => Ret false)
                  (andFinally (forgetChild child)
                     (fun o w' => (exists r, o = Returned r) /\
                                  (now w <= now w' <= now w + 14000)%N)))
               w1) as Hrest.
  { intros w1 Hw1. apply wp_bind.
    eapply wp_mono; [|apply waitForExit_within].
    intros o w2 [-> Hw2]. cbn [andThen]. wp_simpl.
    destruct (match procs w2 !! child with
              | Some p => negb (notNull (p_exitCode p)) && negb (p_killed p)
              | None => false
              end).
    - unfold childKill. wp_simpl.
      destruct (killProc_fields child SIGKILL w2) as (Hnow & _).
      destruct (killProc child SIGKILL w2) as [[|b] w4]; cbn [fst snd] in *; wp_simpl.
      + rewrite now_forgetChild. split; [eauto | lia].
      + apply wp_bind. eapply wp_mono; [|apply waitForExit_within].
        intros o w5 [-> Hw5]. cbn [andThen]. wp_simpl.
        rewrite now_forgetChild. split; [eauto | lia].
    - wp_simpl. rewrite now_forgetChild. split; [eauto | lia]. }
  destruct (win32 env && truthyPid (childPid child w)).
  - wp_simpl.
    destruct (spawnProc_fields env (CmdTaskkill (default 0%N (childPid child w))) w)
      as (_ & Hnow & _).
    apply wp_bind. eapply wp_mono; [|apply waitForExit_within].
    intros o w2 [-> Hw2]. cbn [andThen]. apply Hrest. lia.
  - unfold childKill. wp_simpl.
    destruct (killProc_fields child SIGTERM w) as (Hnow & _).
    destruct (killProc child SIGTERM w) as [[|b] w2]; cbn [fst snd] in *; wp_simpl.
    + rewrite now_forgetChild. split; [eauto | lia].
    + apply Hrest. lia.
Qed.

End ProcessFacts.

(** X12: [stopAgentProcess] never rejects and returns within 14
    seconds (5 for [taskkill], 7 of grace, 2 after SIGKILL) in every
    environment.  Afterwards no child is tracked, so a second call
    returns [true] at once and changes nothing, as does a call with
    nothing tracked. *)
Theorem stop_is_bounded_and_idempotent (env : Env) (w : World) :
  exists r w',
    run env (stopAgentProcess env) w = (Returned r, w') /\
    (now w <= now w' <= now w + 14000)%N /\
    agentChild w' = None /\
    (agentChild w = None -> r = true /\ w' = w) /\
    run env (stopAgentProcess env) w' = (Returned true, w').
Proof.
  destruct (run_returns env (stopAgentProcess env) w _
              (wp_conj _ _ _ _ _ _
                 (stopAgentProcess_within env w)
                 (stopAgentProcess_spec env (fun _ => True) w
                    (conj (fun _ _ _ => I) (conj (fun _ _ _ _ => I) (fun _ _ _ => I)))
                    (fun _ _ _ => I) I)))
    as (o & w' & Hrun & ([r ->] & Ht) & _ & _ & Hnone & Hsome).
  assert (agentChild w' = None) as Hgone.
  { destruct (agentChild w) as [h|] eqn:Hh; [now destruct (Hsome h eq_refl)|].
    now rewrite (Hnone eq_refl). }
  exists r, w'. split; [exact Hrun|]. split; [exact Ht|]. split; [exact Hgone|].
  split.
  - intros Hn. split; [|now apply Hnone].
    revert Hrun. unfold stopAgentProcess. run_simpl. rewrite Hn. run_simpl. congruence.
  - unfold stopAgentProcess. run_simpl. rewrite Hgone. reflexivity.
Qed.

Lemma hangs_advance (child : nat) (p : Proc) (d : N) (w : World) :
  p_due p = None -> hangs child p w -> hangs child p (advance d w).
Proof.
  intros Hd [Ht Hp].
  assert (dueBy (now w + d) p = None) as Hn
    by (unfold dueBy; rewrite Hd; now destruct (exited p)).
  split.
  - unfold advance, lifecycleFires. cbn [agentChild]. rewrite Ht, Hp, Hn.
    now rewrite andb_false_r.
  - rewrite advance_lookup, Hp. cbn. now rewrite settle_not_due.
Qed.

Lemma hangs_taskkill (env : Env) (child : nat) (p : Proc) (pid : N) (w : World) :
  sc_onTaskkill (p_script p) = None -> hangs child p w ->
  hangs child p (spawnProc env (CmdTaskkill pid) w).2.
Proof.
  intros Hk [Ht Hp]. split; [exact Ht|].
  unfold spawnProc. cbn [snd procs logEvent setProcs].
  rewrite lookup_app_l by (rewrite length_fmap; now apply lookup_lt_Some in Hp).
  rewrite list_lookup_fmap, Hp. cbn. unfold taskkillHits. rewrite Hk.
  destruct (exited p); [reflexivity|].
  now destruct (bool_decide (sc_pid (p_script p) = Some pid)).
Qed.

Lemma exitWait_hanging (child : nat) (p : Proc) (ms : N) (w : World) :
  p_due p = None -> procs w !! child = Some p -> exitWait child ms w = ms.
Proof. intros Hd Hp. unfold exitWait. rewrite Hp, Hd. now destruct (exited p). Qed.

(** X13: on win32 the stop of a child that neither [taskkill] nor
    anything else ends does what the comments of the source describe up
    to the forceful kill: it runs [taskkill] for the pid, waits for it
    (at most 5 seconds), waits the 7 seconds of grace, and sends
    SIGKILL.  It then returns without the last wait, because the
    delivered signal has set [child.killed]. *)
Theorem win32_stop_waits_and_escalates (env : Env) (w : World) (child : nat) (p : Proc)
    (pid : N) :
  win32 env = true ->
  agentChild w = Some child ->
  procs w !! child = Some p ->
  exited p = false -> p_killed p = false -> p_due p = None ->
  sc_pid (p_script p) = Some pid -> pid <> 0%N ->
  sc_onTaskkill (p_script p) = None ->
  sc_killThrows (p_script p) SIGKILL = false ->
  exists (d : N) (w' : World),
    (d <= 5000)%N /\
    run env (stopAgentProcess env) w = (Returned true, w') /\
    now w' = (now w + d + 7000)%N /\
    trace w' = trace w ++ [EvSpawn (length (procs w)) (CmdTaskkill pid); EvKill child SIGKILL] /\
    hasExited child w' = false /\
    agentChild w' = None.
Proof.
  intros Hwin Htracked Hp Halive Hunkilled Hdue Hpid Hpid0 Htk Hkill.
  assert (notNull (p_exitCode p) = false) as Hcode
    by (unfold exited in Halive; now apply orb_false_iff in Halive as [? _]).
  set (killer := length (procs w)).
  set (w1 := (spawnProc env (CmdTaskkill pid) w).2).
  set (d := exitWait killer 5000 w1).
  set (w2 := advance d w1).
  set (w3 := advance 7000 w2).
  assert (hangs child p w1) as H1 by now apply hangs_taskkill.
  assert (hangs child p w2) as H2 by now apply hangs_advance.
  assert (hangs child p w3) as [Ht3 Hp3] by now apply hangs_advance.
  set (p4 := schedule (reaction SIGKILL (p_script p)) (now w3) (setKilled true p)).
  set (w4 := setProcs (<[child := p4]> (procs w3)) (logEvent (EvKill child SIGKILL) w3)).
  assert (killProc child SIGKILL w3 = (KillReturns true, w4)) as Hk
    by (unfold killProc; now rewrite Hp3, Halive, Hkill).
  assert (procs w4 !! child = Some p4) as Hp4
    by (apply list_lookup_insert_eq; now apply lookup_lt_Some in Hp3).
  destruct (schedule_fields (reaction SIGKILL (p_script p)) (now w3) (setKilled true p))
    as (_ & _ & _ & Hkilled & _).
  fold p4 in Hkilled. cbn [p_killed setKilled] in Hkilled.
  exists d, (forgetChild child w4).
  split; [apply exitWait_le|]. split; [|split; [|split; [|split]]].
  - unfold stopAgentProcess, childKill, waitForExit. run_simpl.
    rewrite Htracked. run_simpl.
    assert (childPid child w = Some pid) as -> by (unfold childPid; now rewrite Hp).
    rewrite Hwin. cbn [truthyPid andb default from_option id].
    destruct (N.eqb_spec pid 0) as [|_]; [contradiction|]. cbn [negb]. run_simpl.
    assert (spawnProc env (CmdTaskkill pid) w = (killer, w1)) as -> by reflexivity.
    run_simpl.
    assert (procs w1 !! killer = Some (newProc (script env killer) (now w))) as ->
      by apply spawnProc_new.
    cbn [newProc p_exitCode p_killed notNull orb].
    run_simpl. fold killer w1 d w2.
    rewrite (proj2 H2), Hcode, Hunkilled. cbn [orb]. run_simpl.
    rewrite (exitWait_hanging child p 7000 w2 Hdue (proj2 H2)). fold w3.
    rewrite Hp3, Hcode, Hunkilled. cbn [negb andb]. run_simpl.
    rewrite Hk. run_simpl.
    rewrite Hp4, Hkilled, orb_true_r. run_simpl. reflexivity.
  - rewrite now_forgetChild. unfold w4, w3, w2, w1.
    destruct (spawnProc_fields env (CmdTaskkill pid) w) as (_ & Hnow & _).
    cbn [now setProcs logEvent advance]. rewrite Hnow. reflexivity.
  - unfold forgetChild. destruct (bool_decide _);
      cbn [trace setTelegramEnabledRuntime setAgentChild];
      unfold w4, w3, w2, w1; cbn [trace setProcs logEvent advance];
      destruct (spawnProc_fields env (CmdTaskkill pid) w) as (_ & _ & _ & _ & _ & _ & _ & Htr & _);
      rewrite Htr, <- app_assoc; reflexivity.
  - unfold hasExited, forgetChild.
    destruct (bool_decide _); cbn [procs setTelegramEnabledRuntime setAgentChild];
      rewrite Hp4; unfold p4; now rewrite schedule_exited.
  - unfold forgetChild. rewrite bool_decide_eq_true_2; [reflexivity|].
    unfold w4. cbn [agentChild setProcs logEvent]. exact Ht3.
Qed.

Lemma win32_stop_witness :
  exists (d : N) (w' : World),
    (d <= 5000)%N /\
    run Scenes.winBox (stopAgentProcess Scenes.winBox) Scenes.winRunning = (Returned true, w') /\
    now w' = (now Scenes.winRunning + d + 7000)%N /\
    trace w' = trace Scenes.winRunning ++
               [EvSpawn (length (procs Scenes.winRunning)) (CmdTaskkill 4000); EvKill 0 SIGKILL] /\
    hasExited 0 w' = false /\
    agentChild w' = None.
Proof.
  eapply (win32_stop_waits_and_escalates Scenes.winBox Scenes.winRunning 0).
  - reflexivity.
  - vm_compute. reflexivity.
  - vm_compute. reflexivity.
  - reflexivity.
  - reflexivity.
  - reflexivity.
  - reflexivity.
  - discriminate.
  - reflexivity.
  - reflexivity.
Defined.

Section StopFacts.

Variable env : Env.

Local Abbreviation WP := (wp anyWorld (byEnv env)).

Lemma agentStopBody_replies (w : World) :
  WP (agentStopBody env)
     (fun o w' =>
        o = Returned (if notNull (agentChild w) then stoppedReply else notRunningReply) /\
        agentChild w' = None /\ files w' = files w /\
        agentTransitioning w' = agentTransitioning w)
     w.
Proof.
  unfold agentStopBody. wp_simpl.
  destruct (agentChild w) as [h|] eqn:Hh; cbn [notNull negb]; wp_simpl; [|auto].
  apply wp_tryCatch, wp_bind.
  eapply wp_mono;
    [|apply (stopAgentProcess_spec env
               (fun w' => files w' = files w /\ agentTransitioning w' = agentTransitioning w))].
  - intros o w' ([Hf Hx] & [r ->] & _ & Hsome). cbn [andThen]. wp_simpl.
    destruct (Hsome h Hh) as (Hn & _). auto.
  - apply procStable_and; [apply (procStable_files env (fun fs => fs = files w))
                          | apply (procStable_flag env (fun b => b = agentTransitioning w))].
  - intros h' w' [Hf Hx]. unfold forgetChild. now destruct (bool_decide _).
  - auto.
Qed.

End StopFacts.

(** X14: [agent:stop] has two replies only: [ok: false], not running,
    when no child is tracked, and [ok: true], stopped, whenever one is.
    The result of [stopAgentProcess] is not looked at and the handler's
    own [catch] is never entered.  Afterwards no child is tracked and no
    file has changed. *)
Theorem agent_stop_has_two_replies (env : Env) (w : World) :
  exists w',
    run env (agentStop env) w
    = (Returned (if notNull (agentChild w) then stoppedReply else notRunningReply), w') /\
    agentChild w' = None /\
    files w' = files w /\
    transitioning (agentStatus w') = false.
Proof.
  destruct (run_returns env (agentStop env) w
              (fun o w' =>
                 o = Returned (if notNull (agentChild w) then stoppedReply
                               else notRunningReply) /\
                 agentChild w' = None /\ files w' = files w /\
                 agentTransitioning w' = false))
    as (o & w' & Hrun & -> & Hn & Hf & Hx).
  - unfold agentStop. apply agentOp_spec.
    eapply wp_mono; [|apply agentStopBody_replies].
    intros o w' (-> & Hn & Hf & _). cbn [andFinally]. auto.
  - exists w'. auto.
Qed.

(** X15: when the signal cannot be sent ([child.kill] throws),
    [stopAgentProcess] returns [false] having tried nothing else, and
    forgets the child; [agent:stop] answers [ok: true], stopped, all the
    same, with the process alive and no longer tracked. *)
Theorem failed_signal_is_reported_as_stopped (env : Env) (w : World) (child : nat)
    (p : Proc) :
  win32 env = false ->
  agentChild w = Some child ->
  procs w !! child = Some p ->
  exited p = false ->
  sc_killThrows (p_script p) SIGTERM = true ->
  exists w1 w2,
    run env (stopAgentProcess env) w = (Returned false, w1) /\
    run env (agentStop env) w = (Returned stoppedReply, w2) /\
    now w2 = now w /\
    trace w2 = trace w ++ [EvKill child SIGTERM] /\
    hasExited child w2 = false /\
    running (agentStatus w2) = false.
Proof.
  intros Hposix Htracked Hp Halive Hthrows.
  assert (forall v, procs v = procs w ->
            killProc child SIGTERM v = (KillThrows, logEvent (EvKill child SIGTERM) v)) as Hk.
  { intros v Hv. unfold killProc. now rewrite Hv, Hp, Halive, Hthrows. }
  eexists _, _. split; [|split].
  - unfold stopAgentProcess, childKill. run_simpl. rewrite Htracked. run_simpl.
    rewrite Hposix. cbn [andb]. run_simpl. rewrite (Hk w eq_refl). run_simpl. reflexivity.
  - unfold agentStop, agentOp, agentStopBody, stopAgentProcess, childKill. run_simpl.
    cbn [agentChild setAgentTransitioning]. rewrite Htracked. cbn [notNull negb]. run_simpl.
    cbn [agentChild setAgentTransitioning]. rewrite Htracked. run_simpl.
    rewrite Hposix. cbn [andb]. run_simpl.
    rewrite (Hk (setAgentTransitioning true w) eq_refl). run_simpl. reflexivity.
  - unfold forgetChild. cbn [agentChild logEvent setAgentTransitioning].
    rewrite bool_decide_eq_true_2 by exact Htracked.
    split; [reflexivity|]. split; [reflexivity|]. split; [|reflexivity].
    unfold hasExited.
    cbn [procs setTelegramEnabledRuntime setAgentChild logEvent setAgentTransitioning].
    now rewrite Hp.
Qed.

Lemma failed_signal_witness :
  exists w1 w2,
    run Scenes.lockedBox (stopAgentProcess Scenes.lockedBox) Scenes.lockedRunning
    = (Returned false, w1) /\
    run Scenes.lockedBox (agentStop Scenes.lockedBox) Scenes.lockedRunning
    = (Returned stoppedReply, w2) /\
    now w2 = now Scenes.lockedRunning /\
    trace w2 = trace Scenes.lockedRunning ++ [EvKill 0 SIGTERM] /\
    hasExited 0 w2 = false /\
    running (agentStatus w2) = false.
Proof.
  eapply (failed_signal_is_reported_as_stopped Scenes.lockedBox Scenes.lockedRunning 0).
  - reflexivity.
  - vm_compute. reflexivity.
  - vm_compute. reflexivity.
  - reflexivity.
  - reflexivity.
Defined.

(** ** The health probe, in time *)

Lemma pollLoop_within (env : Env) (url : string) (child : nat) (t0 T D : N) :
  (forall t, (fo_dur (healthz env (url +:+ "/healthz") t) <= D)%N) ->
  forall (fuel : nat) (w : World),
    (t0 <= now w)%N -> (1 <= fuel)%nat ->
    (t0 + T <= now w + 150 * N.of_nat (fuel - 1))%N ->
    exists b w',
      run env (pollLoop fuel url child t0 T) w = (Returned b, w') /\
      (now w <= now w')%N /\
      (w' = w \/ (now w' < t0 + T + D + 150)%N).
Proof.
  intros HD. induction fuel as [|n IH]; intros w Ht0 Hfuel Hbound; [lia|].
  rewrite pollLoop_iteration.
  destruct (N.ltb_spec (now w - t0) T) as [Hlt|Hge].
  2: { exists false, w. split; [reflexivity|]. split; [lia | now left]. }
  destruct (match procs w !! child with
            | Some p => notNull (p_exitCode p)
            | None => true
            end).
  { exists false, w. split; [reflexivity|]. split; [lia | now left]. }
  cbv zeta. pose proof (HD (now w)) as Hd.
  assert (forall w1, w1 = advance 150 (advance (fo_dur (healthz env (url +:+ "/healthz") (now w))) w) ->
            exists b w',
              run env (pollLoop n url child t0 T) w1 = (Returned b, w') /\
              (now w <= now w')%N /\
              (w' = w \/ (now w' < t0 + T + D + 150)%N)) as Hnext.
  { intros w1 ->.
    destruct (IH (advance 150 (advance (fo_dur (healthz env (url +:+ "/healthz") (now w))) w)))
      as (b & w' & Hrun & Hle & Hw').
    - unfold advance. cbn [now]. lia.
    - destruct n; [|lia]. cbn in Hbound. lia.
    - unfold advance. cbn [now]. lia.
    - exists b, w'. split; [exact Hrun|]. unfold advance in Hle, Hw'. cbn [now] in Hle, Hw'.
      split; [lia|]. right. destruct Hw' as [->|Hw']; [cbn [now]|]; lia. }
  destruct (fo_result (healthz env (url +:+ "/healthz") (now w))) as [|[|]].
  - now apply Hnext.
  - exists true, (advance (fo_dur (healthz env (url +:+ "/healthz") (now w))) w).
    split; [reflexivity|]. unfold advance. cbn [now]. split; [lia|]. right. lia.
  - now apply Hnext.
Qed.

(** X16: [waitForBackendReady] always returns, and no later than its
    timeout plus one request and one interval of 150 ms: the timeout is
    tested between requests only, and a request has no timeout of its
    own, so the delay is bounded only as far as the requests are. *)
Theorem probe_returns_within_timeout_and_one_request (env : Env) (url : string)
    (child : nat) (T D : N) (w : World) :
  (forall t, (fo_dur (healthz env (url +:+ "/healthz") t) <= D)%N) ->
  exists b w',
    run env (waitForBackendReady url child T) w = (Returned b, w') /\
    (now w <= now w' < now w + T + D + 150)%N.
Proof.
  intros HD. unfold waitForBackendReady. run_simpl.
  destruct (pollLoop_within env url child (now w) T D HD (pollFuel T) w)
    as (b & w' & Hrun & Hle & Hw').
  - lia.
  - apply pollFuel_pos.
  - pose proof (pollFuel_enough T). lia.
  - exists b, w'. split; [exact Hrun|]. destruct Hw' as [->|Hw']; lia.
Qed.

Lemma probe_bound_witness :
  exists b w',
    run Examples.sick (waitForBackendReady "http://127.0.0.1:9108" 0 30000) Examples.fresh
    = (Returned b, w') /\
    (now Examples.fresh <= now w' < now Examples.fresh + 30000 + 3 + 150)%N.
Proof.
  apply (probe_returns_within_timeout_and_one_request Examples.sick "http://127.0.0.1:9108"
           0 30000 3 Examples.fresh).
  intros t. cbn. lia.
Defined.

(** A request that hangs for a minute keeps the probe for a minute,
    whatever the timeout. *)
Example probe_waits_for_a_hanging_request :
  let env := Examples.linux Examples.everywhere (Scenes.numbered Examples.obedient)
               (fun _ _ => {| fo_result := FetchRejects; fo_dur := 60000 |}) in
  let w := (spawnProc env (CmdAgent "/opt/monitord/resources/bin/monitord" []) Examples.fresh).2 in
  let '(o, w') := run env (waitForBackendReady "http://127.0.0.1:9108" 0 1000) w in
  o = Returned false /\ (now w' - now w = 60150)%N.
Proof. vm_compute. split; reflexivity. Qed.

(** X17: with a timeout of zero, with no child, or with a child whose
    exit code is set, the probe returns [false] at once: no request is
    made and no time passes. *)
Theorem probe_gives_up_at_once (env : Env) (url : string) (child : nat) (T : N)
    (w : World) :
  T = 0%N \/ exitSeen child w ->
  run env (waitForBackendReady url child T) w = (Returned false, w).
Proof.
  intros H. unfold waitForBackendReady. run_simpl.
  pose proof (pollFuel_pos T) as Hf. destruct (pollFuel T) as [|n]; [lia|].
  rewrite pollLoop_iteration.
  destruct (N.ltb_spec (now w - now w) T) as [Hlt|_]; [|reflexivity].
  destruct H as [->|Hseen]; [lia|].
  unfold exitSeen in Hseen. destruct (procs w !! child) as [p|]; [|reflexivity].
  now rewrite Hseen.
Qed.

Lemma probe_gives_up_witness :
  run Examples.sound (waitForBackendReady "http://127.0.0.1:9108" 7 30000) Examples.fresh
  = (Returned false, Examples.fresh).
Proof.
  apply (probe_gives_up_at_once Examples.sound "http://127.0.0.1:9108" 7 30000 Examples.fresh).
  right. exact I.
Defined.

(** ** Starting, with and without the executable *)

Lemma listenOf_withTelegramEnabled (c : Config) (b : bool) :
  listenOf (Some (Parsed (withTelegramEnabled c b))) = listenOf (Some (Parsed c)).
Proof. now destruct c as [l [x|]]. Qed.

Section StartFacts.

Variable env : Env.

Local Abbreviation WP := (wp anyWorld (byEnv env)).

Lemma setTelegramEnabledInConfig_listen (P : World -> Prop) (path : string) (b : bool)
    (w : World) :
  timeStable P -> (forall fs w', P w' -> P (setFiles fs w')) -> P w ->
  WP (setTelegramEnabledInConfig path b)
     (fun o w' =>
        (exists r, o = Returned r) /\ P w' /\
        listenOf (files w' !! path) = listenOf (files w !! path))
     w.
Proof.
  intros HP HF Hw. unfold setTelegramEnabledInConfig, readFile, writeFile.
  apply wp_tryCatch. wp_simpl. wp_resume. inversion HE; subst; clear HE.
  destruct (files w !! path) as [[|c]|] eqn:Hf; wp_simpl.
  - split; [eauto|]. split; [now apply HP|]. cbn [files advance]. now rewrite Hf.
  - destruct (Bool.eqb (cfg_telegram_enabled c) b) eqn:Hb; wp_simpl.
    + split; [eauto|]. split; [now apply HP|]. cbn [files advance]. now rewrite Hf.
    + wp_resume. destruct (writable env path) eqn:Hwr; inversion HE; subst; clear HE;
        wp_simpl.
      * split; [eauto|]. split; [now apply HP, HF, HP|].
        cbn [files advance setFiles]. rewrite lookup_insert_eq.
        apply listenOf_withTelegramEnabled.
      * split; [eauto|]. split; [now apply HP, HP|]. cbn [files advance]. now rewrite Hf.
  - split; [eauto|]. split; [now apply HP|]. cbn [files advance]. now rewrite Hf.
Qed.

Lemma readListenFromConfig_value (P : World -> Prop) (path : string) (w : World) :
  timeStable P -> P w ->
  WP (readListenFromConfig path)
     (fun o w' => P w' /\ o = Returned (listenOf (files w !! path))) w.
Proof.
  intros HP Hw. unfold readListenFromConfig, readFile.
  apply wp_tryCatch. wp_simpl. wp_resume. inversion HE; subst; clear HE.
  destruct (files w !! path) as [[|c]|]; wp_simpl; (split; [now apply HP | reflexivity]).
Qed.

Lemma startAgentManaged_baseUrl (bin cfg : string) (b sync : bool) (w : World) :
  WP (startAgentManaged env bin cfg b sync)
     (fun o w' =>
        match o with
        | Returned _ =>
            backendBaseUrlRuntime w' =
            BaseUrl.resolveBackendBaseUrl (listenOf (files w !! cfg))
        | Thrown _ =>
            backendBaseUrlRuntime w' = backendBaseUrlRuntime w /\
            existsSync env bin = false /\ isPackaged env = true
        | Diverged => False
        end)
     w.
Proof.
  unfold startAgentManaged.
  set (Q := fun (o : Outcome Started) w' =>
              match o with
              | Returned _ =>
                  backendBaseUrlRuntime w' =
                  BaseUrl.resolveBackendBaseUrl (listenOf (files w !! cfg))
              | Thrown _ =>
                  backendBaseUrlRuntime w' = backendBaseUrlRuntime w /\
                  existsSync env bin = false /\ isPackaged env = true
              | Diverged => False
              end).
  assert (forall w1,
            listenOf (files w1 !! cfg) = listenOf (files w !! cfg) ->
            backendBaseUrlRuntime w1 = backendBaseUrlRuntime w ->
            WP (child ← spawnAgentProcess env bin cfg b;
                modify (setAgentChild (Some child));;
                modify (setTelegramEnabledRuntime b);;
                attachAgentLifecycle child;;
                listen ← readListenFromConfig cfg;
                let baseUrl := BaseUrl.resolveBackendBaseUrl listen in
                modify (setBackendBaseUrlRuntime baseUrl);;
                ready ← waitForBackendReady baseUrl child 30000;
                if negb ready
                then stopAgentProcess env;; Ret (StartedFailed healthMessage baseUrl)
                else Ret (StartedOk baseUrl))
               Q w1) as Hrest.
  { intros w1 Hl1 Hu1.
    assert (forall c,
              WP (child ← Do (spawnProc env c) Ret;
                  modify (setAgentChild (Some child));;
                  modify (setTelegramEnabledRuntime b);;
                  attachAgentLifecycle child;;
                  listen ← readListenFromConfig cfg;
                  let baseUrl := BaseUrl.resolveBackendBaseUrl listen in
                  modify (setBackendBaseUrlRuntime baseUrl);;
                  ready ← waitForBackendReady baseUrl child 30000;
                  if negb ready
                  then stopAgentProcess env;; Ret (StartedFailed healthMessage baseUrl)
                  else Ret (StartedOk baseUrl))
                 Q w1) as Hspawned.
    { intros c. unfold attachAgentLifecycle. wp_simpl.
      destruct (spawnProc_fields env c w1) as (_ & _ & Hf2 & _).
      set (w2 := setProcs _ _).
      assert (files w2 = files w1) as Hf by exact Hf2.
      clearbody w2. apply wp_bind.
      eapply wp_mono;
        [|apply (readListenFromConfig_value (fun _ => True)); [now intros ? ? ? | exact I]].
      intros o w3 [_ ->]. cbn [andThen]. wp_simpl. rewrite Hf, Hl1.
      set (u := BaseUrl.resolveBackendBaseUrl (listenOf (files w !! cfg))).
      pose proof (proj1 (procStable_baseUrl env (fun x => x = u))) as Hstable.
      apply wp_bind.
      eapply wp_mono;
        [|apply (waitForBackendReady_spec env (fun w' => backendBaseUrlRuntime w' = u));
          [exact Hstable | reflexivity]].
      intros o w5 (Hw5 & _ & ready & -> & _). cbn [andThen].
      destruct ready; cbn [negb]; wp_simpl; [exact Hw5|].
      apply wp_bind.
      eapply wp_mono;
        [|apply (stopAgentProcess_spec env (fun w' => backendBaseUrlRuntime w' = u));
          [apply (procStable_baseUrl env (fun x => x = u)) | | exact Hw5]].
      - intros o w6 (Hw6 & [r ->] & _). cbn [andThen]. wp_simpl. exact Hw6.
      - intros h' w' Hw'. unfold forgetChild. now destruct (bool_decide _). }
    unfold spawnAgentProcess. destruct (existsSync env bin) eqn:Hex; [apply Hspawned|].
    destruct (isPackaged env) eqn:Hpk; [|apply Hspawned].
    wp_simpl. unfold Q. auto. }
  apply wp_bind. destruct sync.
  - apply wp_bind.
    eapply wp_mono;
      [|apply (setTelegramEnabledInConfig_listen
                 (fun w' => backendBaseUrlRuntime w' = backendBaseUrlRuntime w));
        [now intros ? ? ? | now intros ? ? ? | reflexivity]].
    intros o w1 ([r ->] & Hu & Hl). cbn [andThen]. wp_simpl. now apply Hrest.
  - wp_simpl. now apply Hrest.
Qed.

End StartFacts.



(** X19: in a packaged build without the executable, [agent:start]
    answers [ok: false] with the path it looked for and spawns nothing;
    but where the configuration file could be read and written and keeps
    the flag under [telegram], the flag of the payload has been written
    to it before the executable was looked for. *)
Theorem start_without_binary_has_written_the_flag (env : Env)
    (payload : option StartPayload) (w : World) :
  isPackaged env = true ->
  existsSync env (startBinPath env payload) = false ->
  agentChild w = None ->
  exists w',
    run env (agentStart env payload) w
    = (Returned {| ok := false;
                   message := "Не удалось запустить агент: " +:+
                              errorToString (missingBinaryMessage (startBinPath env payload)) |},
       w') /\
    trace w' = trace w /\
    running (agentStatus w') = false /\
    (forall c, files w !! startConfigPath env payload = Some (Parsed c) ->
               writable env (startConfigPath env payload) = true ->
               holdsFlag c = true ->
               persistedEnabled (startConfigPath env payload) w'
               = Some (startTelegramEnabled payload)).
Proof.
  intros Hpk Hex Hnone.
  destruct (run_returns env (agentStart env payload) w
              (fun o w' =>
                 o = Returned
                       {| ok := false;
                          message := "Не удалось запустить агент: " +:+
                                     errorToString
                                       (missingBinaryMessage (startBinPath env payload)) |} /\
                 trace w' = trace w /\ agentChild w' = None /\
                 (forall c, files w !! startConfigPath env payload = Some (Parsed c) ->
                            writable env (startConfigPath env payload) = true ->
                            files w' !! startConfigPath env payload
                            = Some (Parsed (withTelegramEnabled c (startTelegramEnabled payload))))))
    as (o & w' & Hrun & -> & Ht & Hn & Hf).
  - unfold agentStart. apply agentOp_spec. unfold agentStartBody. wp_simpl.
    cbn [agentChild setAgentTransitioning]. rewrite Hnone. cbn [notNull]. wp_simpl.
    apply wp_tryCatch. unfold startAgentManaged. apply wp_bind, wp_bind, wp_bind.
    eapply wp_mono;
      [|apply (setTelegramEnabledInConfig_spec env (fun w' => trace w' = trace w));
        [apply (timeStable_trace (fun t => t = trace w)) | now intros ? ? ? | reflexivity]].
    intros o w1 (Ht1 & [r ->] & Hfile). cbn [andThen]. wp_simpl.
    unfold spawnAgentProcess. rewrite Hex, Hpk. wp_simpl. cbn [andFinally].
    split; [reflexivity|]. split; [exact Ht1|]. split; [reflexivity|]. exact Hfile.
  - exists w'. split; [exact Hrun|]. split; [exact Ht|].
    split; [unfold agentStatus; cbn [running]; now rewrite Hn|].
    intros c Hc Hwr Hholds. apply (persisted_of_file _ c _ _ Hholds). now apply Hf.
Qed.

Lemma start_without_binary_witness :
  exists w',
    run Scenes.gutted (agentStart Scenes.gutted Examples.withBot) Examples.fresh
    = (Returned {| ok := false;
                   message := "Не удалось запустить агент: " +:+
                              errorToString
                                (missingBinaryMessage
                                   (startBinPath Scenes.gutted Examples.withBot)) |},
       w') /\
    trace w' = trace Examples.fresh /\
    running (agentStatus w') = false /\
    (forall c, files Examples.fresh !! startConfigPath Scenes.gutted Examples.withBot
               = Some (Parsed c) ->
               writable Scenes.gutted (startConfigPath Scenes.gutted Examples.withBot) = true ->
               holdsFlag c = true ->
               persistedEnabled (startConfigPath Scenes.gutted Examples.withBot) w'
               = Some (startTelegramEnabled Examples.withBot)).
Proof.
  apply (start_without_binary_has_written_the_flag Scenes.gutted Examples.withBot
           Examples.fresh); reflexivity.
Defined.

(** There the file says that the bot is on, and nothing runs. *)
Example start_without_binary_leaves_bot_enabled :
  let w' := (run Scenes.gutted (agentStart Scenes.gutted Examples.withBot) Examples.fresh).2 in
  persistedEnabled Examples.configPath w' = Some true /\
  running (agentStatus w') = false /\ trace w' = [].
Proof. vm_compute. repeat split. Qed.



Section AutoStartFacts.

Variable env : Env.

Local Abbreviation WP := (wp anyWorld (byEnv env)).

Lemma setTelegramEnabledInConfig_files (P : World -> Prop) (path : string) (b : bool)
    (w : World) :
  timeStable P -> (forall fs w', P w' -> P (setFiles fs w')) -> P w ->
  WP (setTelegramEnabledInConfig path b)
     (fun o w' =>
        (exists r, o = Returned r) /\ P w' /\ flagWritten path b (files w) (files w'))
     w.
Proof.
  intros HP HF Hw. unfold setTelegramEnabledInConfig, readFile, writeFile.
  apply wp_tryCatch. wp_simpl. wp_resume. inversion HE; subst; clear HE.
  destruct (files w !! path) as [[|c]|] eqn:Hf; wp_simpl.
  - split; [eauto|]. split; [now apply HP | now left].
  - destruct (Bool.eqb (cfg_telegram_enabled c) b) eqn:Hb; wp_simpl.
    + split; [eauto|]. split; [now apply HP | now left].
    + wp_resume. destruct (writable env path) eqn:Hwr; inversion HE; subst; clear HE;
        wp_simpl.
      * split; [eauto|]. split; [now apply HP, HF, HP|]. right. now exists c.
      * split; [eauto|]. split; [now apply HP, HP | now left].
  - split; [eauto|]. split; [now apply HP | now left].
Qed.

Lemma ensureBackendStartedBody_spec (w : World) :
  agentChild w = None -> telegramEnabledRuntime w = false ->
  WP (ensureBackendStartedBody env)
     (fun o w' =>
        agentTransitioning w' = agentTransitioning w /\
        telegramEnabledRuntime w' = false /\
        flagWritten (defaultConfigPath env) false (files w) (files w') /\
        (agentChild w' <> None ->
         exists url t, fo_result (healthz env url t) = FetchResponse true) /\
        match o with
        | Returned _ => True
        | Thrown e =>
            isPackaged env = true /\ existsSync env (defaultMonitordBin env) = false /\
            e = missingBinaryMessage (defaultMonitordBin env) /\ agentChild w' = None
        | Diverged => False
        end)
     w.
Proof.
  intros Hnone Hoff. unfold ensureBackendStartedBody. wp_simpl. rewrite Hnone.
  cbn [notNull]. fold (defaultConfigPath env). apply wp_bind.
  eapply wp_mono; [|apply startAgentManaged_spec; exact Hnone].
  (* what one start leaves, from a world with nothing tracked *)
  assert (forall v o v',
            telegramEnabledRuntime v = false ->
            startedAs env (defaultMonitordBin env) false v o v' ->
            telegramEnabledRuntime v' = false /\
            (agentChild v' <> None ->
             exists url t, fo_result (healthz env url t) = FetchResponse true) /\
            match o with
            | Returned (StartedOk _) => True
            | Returned (StartedFailed _ _) => agentChild v' = None
            | Thrown e =>
                isPackaged env = true /\ existsSync env (defaultMonitordBin env) = false /\
                e = missingBinaryMessage (defaultMonitordBin env) /\ agentChild v' = None
            | Diverged => False
            end) as Hstart.
  { intros v o v' Hv Hs. destruct o as [[u|m u]|e|]; cbn [startedAs] in Hs.
    - destruct Hs as (Hr & _ & _ & Hok).
      split; [destruct Hr as [(_ & Hb & _)|(_ & Hb & _)]; exact Hb|]. auto.
    - destruct Hs as (_ & Hn & Hb & _). split; [exact Hb|]. split; [congruence | exact Hn].
    - destruct Hs as (Hex & Hpk & -> & Hn & Hb & _).
      split; [congruence|]. split; [congruence|]. auto.
    - destruct Hs. }
  intros o w1 (Hx1 & Hf1 & Hs1). cbn [configAfter] in Hf1.
  destruct (Hstart w o w1 Hoff Hs1) as (Hb1 & Hok1 & Ho1).
  destruct o as [[u|m u]|e|]; cbn [andThen startedOk negb]; wp_simpl.
  - split; [exact Hx1|]. split; [exact Hb1|]. split; [left; exact Hf1|]. auto.
  - apply wp_bind.
    eapply wp_mono;
      [|apply (setTelegramEnabledInConfig_files
                 (fun w' => (agentChild w' = None /\ telegramEnabledRuntime w' = false) /\
                            agentTransitioning w' = agentTransitioning w));
        [apply timeStable_and;
           [apply stopped_advance | apply (timeStable_flag (fun x => x = agentTransitioning w))]
        | now intros ? ? ?
        | auto]].
    intros o w2 ([r ->] & ((Hn2 & Hb2) & Hx2) & Hf2). cbn [andThen]. wp_simpl.
    apply wp_bind.
    eapply wp_mono; [|apply startAgentManaged_spec; exact Hn2].
    intros o w3 (Hx3 & Hf3 & Hs3). cbn [configAfter] in Hf3.
    destruct (Hstart w2 o w3 Hb2 Hs3) as (Hb3 & Hok3 & Ho3).
    assert (flagWritten (defaultConfigPath env) false (files w) (files w3)) as Hfiles
      by (rewrite Hf3, <- Hf1; exact Hf2).
    destruct o as [s|e|]; cbn [andThen]; wp_simpl.
    + split; [congruence|]. split; [exact Hb3|]. split; [exact Hfiles|]. auto.
    + split; [congruence|]. split; [exact Hb3|]. split; [exact Hfiles|]. auto.
    + destruct Ho3.
  - split; [exact Hx1|]. split; [exact Hb1|]. split; [left; exact Hf1|]. auto.
  - destruct Ho1.
Qed.

End AutoStartFacts.



(** After an automatic start that came up at once the file still says
    that the bot is on, while [agent:status] says that it is off. *)
Example auto_start_leaves_the_file_alone :
  let '(o, w') := run Examples.sound (ensureBackendStarted Examples.sound) Scenes.freshOn in
  o = Returned tt /\
  running (agentStatus w') = true /\
  telegramEnabled (agentStatus w') = false /\
  persistedEnabled Examples.configPath w' = Some true.
Proof. vm_compute. repeat split. Qed.

(** X22: in every state the event loop reaches from a start with the
    flag off, [agent:status] reports [transitioning: true] exactly when
    an operation is suspended between its first turn and its settling,
    and at most one operation is: once the submitted operations have
    settled the flag is off again. *)
Theorem transitioning_exactly_while_an_operation_runs {R : Type}
    (submitted : Async R -> Prop) (forked : Async bool -> Prop)
    (w : World) (labels : list Label) (l : Loop R) :
  (forall fn, submitted fn -> keepsFlag fn) ->
  (forall t, forked t -> keepsFlag t) ->
  agentTransitioning w = false ->
  exec submitted forked (idle w) labels l ->
  (transitioning (agentStatus (world l)) = true <->
   exists j jb, jobs l !! j = Some jb /\ isSuspended (state jb) = true) /\
  (forall i j ji jj,
     jobs l !! i = Some ji -> jobs l !! j = Some jj ->
     isSuspended (state ji) = true -> isSuspended (state jj) = true -> i = j).
Proof.
  intros Hsub Hfork Hoff Hex.
  pose proof (serialized_exec submitted forked Hsub Hfork w labels l Hex) as Hser.
  split; [split|].
  - exact (flagHasOwner_exec submitted forked Hsub Hfork w labels l Hoff Hex).
  - intros (j & jb & Hj & Hs). exact (ser_flag _ _ Hser j jb Hj Hs).
  - intros i j ji jj Hi Hj Hsi Hsj.
    destruct (Nat.lt_trichotomy i j) as [Hlt|[Heq|Hgt]]; [|exact Heq|].
    + pose proof (ser_order _ _ Hser i j ji jj Hlt Hi Hj (suspended_not_waiting _ Hsj)) as H.
      now destruct (settled_not_suspended _ H Hsi).
    + pose proof (ser_order _ _ Hser j i jj ji Hgt Hj Hi (suspended_not_waiting _ Hsi)) as H.
      now destruct (settled_not_suspended _ H Hsj).
Qed.

Lemma transitioning_witness :
  (transitioning (agentStatus (world Examples.spawnedLoop)) = true <->
   exists j jb, jobs Examples.spawnedLoop !! j = Some jb /\ isSuspended (state jb) = true) /\
  (forall i j ji jj,
     jobs Examples.spawnedLoop !! i = Some ji -> jobs Examples.spawnedLoop !! j = Some jj ->
     isSuspended (state ji) = true -> isSuspended (state jj) = true -> i = j).
Proof.
  exact (transitioning_exactly_while_an_operation_runs
           (isHandler Examples.sick) (isQuitStop Examples.sick)
           Examples.fresh Examples.busyLabels Examples.spawnedLoop
           (isHandler_keepsFlag Examples.sick) (isQuitStop_keepsFlag Examples.sick)
           eq_refl busy_exec).
Defined.

(** ** The success paths *)

Lemma hangs_flag_advance (child : nat) (p : Proc) (b : bool) :
  p_due p = None ->
  timeStable (fun w => hangs child p w /\ telegramEnabledRuntime w = b).
Proof.
  intros Hd d w [Hh Hb]. split; [now apply hangs_advance|].
  destruct Hh as [Ht Hp]. unfold advance, lifecycleFires. cbn [telegramEnabledRuntime].
  rewrite Ht, Hp. unfold dueBy. rewrite Hd. destruct (exited p); now rewrite andb_false_r.
Qed.

Section HealthyFacts.

Variable env : Env.

Hypothesis healthy : forall url t, fo_result (healthz env url t) = FetchResponse true.

Local Abbreviation WP := (wp anyWorld (byEnv env)).

Lemma waitForBackendReady_healthy (url : string) (child : nat) (p : Proc) (w : World) :
  procs w !! child = Some p -> exited p = false ->
  run env (waitForBackendReady url child 30000) w
  = (Returned true, advance (fo_dur (healthz env (url +:+ "/healthz") (now w))) w).
Proof.
  intros Hp Hx. unfold waitForBackendReady. run_simpl.
  pose proof (pollFuel_pos 30000) as Hf. destruct (pollFuel 30000) as [|n]; [lia|].
  rewrite pollLoop_iteration, N.sub_diag, Hp.
  unfold exited in Hx. apply orb_false_iff in Hx as [-> _].
  cbv zeta. now rewrite healthy.
Qed.

Lemma startAgentManaged_healthy (bin cfg : string) (b sync : bool) (w : World) :
  agentChild w = None ->
  existsSync env bin = true \/ isPackaged env = false ->
  sc_self (script env (length (procs w))) = None ->
  WP (startAgentManaged env bin cfg b sync)
     (fun o w' =>
        (exists u, o = Returned (StartedOk u)) /\
        exists c, isSpawn (EvSpawn (length (procs w)) c) = true /\
                  started env (length (procs w)) b c w w')
     w.
Proof.
  intros Hnone Hbin Hself. unfold startAgentManaged.
  set (h := length (procs w)) in *.
  assert (forall w1,
            agentChild w1 = None -> trace w1 = trace w -> length (procs w1) = h ->
            agentTransitioning w1 = agentTransitioning w ->
            WP (child ← spawnAgentProcess env bin cfg b;
                modify (setAgentChild (Some child));;
                modify (setTelegramEnabledRuntime b);;
                attachAgentLifecycle child;;
                listen ← readListenFromConfig cfg;
                let baseUrl := BaseUrl.resolveBackendBaseUrl listen in
                modify (setBackendBaseUrlRuntime baseUrl);;
                ready ← waitForBackendReady baseUrl child 30000;
                if negb ready
                then stopAgentProcess env;; Ret (StartedFailed healthMessage baseUrl)
                else Ret (StartedOk baseUrl))
               (fun o w' =>
                  (exists u, o = Returned (StartedOk u)) /\
                  exists c, isSpawn (EvSpawn h c) = true /\ started env h b c w w')
               w1) as Hrest.
  { intros w1 Hn1 Ht1 Hl1 Hx1.
    assert (forall c, isSpawn (EvSpawn h c) = true ->
              WP (child ← Do (spawnProc env c) Ret;
                  modify (setAgentChild (Some child));;
                  modify (setTelegramEnabledRuntime b);;
                  attachAgentLifecycle child;;
                  listen ← readListenFromConfig cfg;
                  let baseUrl := BaseUrl.resolveBackendBaseUrl listen in
                  modify (setBackendBaseUrlRuntime baseUrl);;
                  ready ← waitForBackendReady baseUrl child 30000;
                  if negb ready
                  then stopAgentProcess env;; Ret (StartedFailed healthMessage baseUrl)
                  else Ret (StartedOk baseUrl))
                 (fun o w' =>
                    (exists u, o = Returned (StartedOk u)) /\
                    exists c, isSpawn (EvSpawn h c) = true /\ started env h b c w w')
                 w1) as Hspawned.
    { intros c Hc. unfold attachAgentLifecycle. wp_simpl.
      destruct (spawnProc_fields env c w1) as (-> & _ & _ & _ & _ & _ & Hx2 & Ht2 & Hl2).
      rewrite Hl1.
      set (p0 := setLifecycle true (newProc (script env h) (now w1))).
      set (w2 := setProcs _ _).
      assert (p_due p0 = None) as Hdue by (cbn; now rewrite Hself).
      assert (exited p0 = false) as Hlive by reflexivity.
      pose (P3 := fun w' =>
                    (hangs h p0 w' /\ telegramEnabledRuntime w' = b) /\
                    trace w' = trace w ++ [EvSpawn h c] /\
                    agentTransitioning w' = agentTransitioning w).
      assert (timeStable P3) as HP3.
      { apply timeStable_and; [now apply hangs_flag_advance|].
        apply timeStable_and.
        - apply (timeStable_trace (fun t => t = trace w ++ [EvSpawn h c])).
        - apply (timeStable_flag (fun x => x = agentTransitioning w)). }
      assert (P3 w2) as Hw2.
      { subst w2. split; [split; [split|]|split];
          cbn [agentChild procs trace telegramEnabledRuntime agentTransitioning
               setProcs setTelegramEnabledRuntime setAgentChild].
        - reflexivity.
        - rewrite list_lookup_alter, <- Hl1, spawnProc_new, Hl1.
          now rewrite decide_True by reflexivity.
        - reflexivity.
        - now rewrite Ht2, Ht1, Hl1.
        - now rewrite Hx2. }
      clearbody w2. apply wp_bind.
      eapply wp_mono; [|apply (readListenFromConfig_spec env P3); [exact HP3 | exact Hw2]].
      intros o w3 [Hw3 [listen ->]]. cbn [andThen]. wp_simpl.
      set (baseUrl := BaseUrl.resolveBackendBaseUrl listen).
      set (w4 := setBackendBaseUrlRuntime baseUrl w3).
      assert (P3 w4) as Hw4 by exact Hw3.
      apply wp_bind, wp_run.
      rewrite (waitForBackendReady_healthy baseUrl h p0 w4 (proj2 (proj1 (proj1 Hw4))) Hlive).
      cbn [fst snd andThen negb]. wp_simpl.
      split; [eauto|]. exists c. split; [exact Hc|].
      destruct (HP3 (fo_dur (healthz env (baseUrl +:+ "/healthz") (now w4))) w4 Hw4)
        as ((Hh & Hb) & Htr & Hx).
      split; [exists p0; auto|]. split; [exact Hb | exact Htr]. }
    unfold spawnAgentProcess. destruct (existsSync env bin) eqn:Hex; [now apply Hspawned|].
    destruct (isPackaged env) eqn:Hpk; [|now apply Hspawned].
    destruct Hbin; congruence. }
  apply wp_bind. destruct sync.
  - apply wp_bind.
    eapply wp_mono;
      [|apply (setTelegramEnabledInConfig_spec env
                 (fun w' => agentChild w' = None /\
                            (trace w' = trace w /\ length (procs w') = h) /\
                            agentTransitioning w' = agentTransitioning w))].
    + intros o w1 ((Hn1 & (Ht1 & Hl1) & Hx1) & [r ->] & _).
      cbn [andThen]. wp_simpl. now apply Hrest.
    + intros d w' (Hn & (Ht & Hl) & Hx). unfold advance, lifecycleFires.
      cbn. rewrite Hn, length_fmap. auto.
    + intros fs w' H. exact H.
    + auto.
  - wp_simpl. now apply Hrest.
Qed.

End HealthyFacts.

Lemma started_status (env : Env) (h : nat) (b : bool) (c : Command) (w w' : World) :
  started env h b c w w' ->
  running (agentStatus w') = true /\
  pid (agentStatus w') = sc_pid (script env h) /\
  telegramEnabled (agentStatus w') = b /\
  hasExited h w' = false.
Proof.
  intros ((p & [Ht Hp] & Hx & Hs) & Hb & _).
  unfold agentStatus, hasExited, childPid. cbn [running pid telegramEnabled].
  rewrite Ht, Hp, Hs. auto.
Qed.

Lemma spawnCount_snoc (t : list Event) (e : Event) :
  isSpawn e = true ->
  length (filter (fun e => isSpawn e = true) (t ++ [e]))
  = S (length (filter (fun e => isSpawn e = true) t)).
Proof.
  intros He. rewrite filter_app, length_app. cbn [filter list_filter].
  rewrite decide_True by exact He. cbn. lia.
Qed.



(** A stop that spawns nothing leaves the files, the number of
    processes and the spawn count as they were. *)
Lemma stop_without_taskkill (env : Env) (w : World) :
  win32 env = false \/ agentChild w = None ->
  wp anyWorld (byEnv env) (stopAgentProcess env)
     (fun o w' =>
        (exists r, o = Returned r) /\ agentChild w' = None /\
        files w' = files w /\ length (procs w') = length (procs w) /\
        spawnCount w' = spawnCount w /\ agentTransitioning w' = agentTransitioning w)
     w.
Proof.
  intros Hcase.
  pose (P := fun w' => files w' = files w /\ length (procs w') = length (procs w) /\
                       spawnCount w' = spawnCount w /\
                       agentTransitioning w' = agentTransitioning w).
  destruct (agentChild w) as [h0|] eqn:Hh0.
  - destruct Hcase as [Hwin|[=]].
    eapply wp_mono; [|apply (stopAgentProcess_keeps env P)].
    + intros o w' (HP & Ho & _ & Hsome). destruct (Hsome h0 Hh0) as (Hn & _).
      destruct HP as (H1 & H2 & H3 & H4). auto 8.
    + split; [|split].
      * intros d v (H1 & H2 & H3 & H4). unfold P, spawnCount. cbn [files advance procs trace
          agentTransitioning]. rewrite length_fmap. auto.
      * intros h sig v (H1 & H2 & H3 & H4).
        destruct (killProc_fields h sig v) as (_ & Hf & _ & _ & _ & Hx & Ht & Hl).
        unfold P, spawnCount in *. rewrite Hf, Hx, Ht, Hl, filter_app, length_app.
        cbn [filter list_filter]. rewrite decide_False by discriminate. cbn [length].
        rewrite Nat.add_0_r. auto.
      * rewrite Hwin. discriminate.
    + intros h v HP. unfold forgetChild. now destruct (bool_decide _).
    + unfold P. auto.
  - eapply wp_mono; [|apply (stopAgentProcess_spec env (fun _ => True))].
    + intros o w' (_ & Ho & Hsame & _). rewrite (Hsame Hh0). auto 8.
    + unfold procStable, timeStable. auto.
    + auto.
    + exact I.
Qed.



(** ** An invariant that relies on the serializer *)

Lemma wp_env_mono {R : Type} (A : World -> Prop)
    (E E' : forall X : Type, Request X -> World -> X -> World -> Prop)
    (m : Async R) (Q : Outcome R -> World -> Prop) :
  (forall X (rq : Request X) w x w', E' X rq w x w' -> E X rq w x w') ->
  forall w, wp A E m Q w -> wp A E' m Q w.
Proof.
  intros HE. induction m as [r|e| |X f k IH|X rq k IH]; intros w H; cbn [wp] in *;
    try exact H.
  - now apply IH.
  - destruct H as [Hw Hk]. split; [exact Hw|]. intros x w' Hx. apply IH, Hk, HE, Hx.
Qed.

Section Rely.

Variable I : World -> Prop.
Variable Rl : World -> World -> Prop.

Hypothesis rely_refl : forall w, Rl w w.
Hypothesis rely_trans : forall w1 w2 w3, Rl w1 w2 -> Rl w2 w3 -> Rl w1 w3.
Hypothesis rely_answers :
  forall X (rq : Request X) w x w1, answers rq w x w1 -> Rl w w1.
Hypothesis inv_time : timeStable I.
Hypothesis inv_files : forall fs w, I w -> I (setFiles fs w).
Hypothesis inv_flag : forall b w, I w -> I (setAgentTransitioning b w).

Lemma keeps_keepsUnder {R : Type} (m : Async R) : keeps I m -> keepsUnder I Rl m.
Proof.
  intros H w Hw. apply (wp_env_mono I (byAnyone I) (byRely I Rl)); [|now apply H].
  now intros X rq v x v' [Hv _].
Qed.

Lemma wp_turn_under {R : Type} (m : Async R) :
  forall w m' w',
    wp I (byRely I Rl) m (fun _ w' => I w') w ->
    turn m w = (m', w') ->
    I w' /\ resumesUnder I Rl m' w'.
Proof.
  induction m as [r|e| |X f k IH|X rq k IH]; intros w m' w' Hwp Ht; cbn [turn wp] in *.
  - inversion Ht; subst. split; [exact Hwp | exact Logic.I].
  - inversion Ht; subst. split; [exact Hwp | exact Logic.I].
  - inversion Ht; subst. split; [exact Hwp | exact Logic.I].
  - destruct (f w) as [x w1]. cbn [fst snd] in Hwp. now apply (IH x w1).
  - inversion Ht; subst. destruct Hwp as [Hw Hk]. split; [exact Hw|].
    exists w'. split; [apply rely_refl|]. intros x w1 Hw1 Hr. apply Hk. now split.
Qed.

Lemma keepsUnder_agentOp {R : Type} (fn : Async R) :
  keepsUnder I Rl fn -> keepsUnder I Rl (agentOp fn).
Proof.
  intros Hfn w Hw. unfold agentOp. cbn [mbind async_bind bind modify wp fst snd].
  apply wp_tryFinally.
  eapply wp_mono; [|apply Hfn, inv_flag, Hw].
  intros o w' Hw'. destruct o; cbn [andFinally]; try now apply inv_flag. exact Hw'.
Qed.

Lemma resumesUnder_mono {R : Type} (m : Async R) (w w' : World) :
  Rl w w' -> resumesUnder I Rl m w -> resumesUnder I Rl m w'.
Proof.
  intros Hr. destruct m as [r|e| |X f k|X rq k]; cbn [resumesUnder]; try exact id.
  intros (ws & Hws & Hk). exists ws. split; [now apply (rely_trans ws w w') | exact Hk].
Qed.

Lemma turn_guarantees {R : Type} (m : Async R) :
  guarantees Rl m ->
  forall w m' w', turn m w = (m', w') ->
    Rl w w' /\ match m' with Await _ k => forall x, guarantees Rl (k x) | _ => True end.
Proof.
  induction m as [r|e| |X f k IH|X rq k IH]; intros Hg w m' w' Ht; cbn [turn guarantees] in *.
  - inversion Ht; subst. auto.
  - inversion Ht; subst. auto.
  - inversion Ht; subst. auto.
  - destruct Hg as [Hf Hk]. pose proof (Hf w) as Hstep.
    destruct (f w) as [x w1]. cbn [snd] in Hstep.
    destruct (IH x (Hk x) w1 m' w' Ht) as [Hr Hm]. split; [|exact Hm].
    now apply (rely_trans w w1 w').
  - inversion Ht; subst. auto.
Qed.

Lemma guarantees_bind {X R : Type} (m : Async X) (k : X -> Async R) :
  guarantees Rl m -> (forall x, guarantees Rl (k x)) -> guarantees Rl (m ≫= k).
Proof.
  intros Hm Hk. induction m as [r|e| |Y f k' IH|Y rq k' IH];
    cbn [mbind async_bind bind guarantees] in *.
  - apply Hk.
  - exact Logic.I.
  - exact Logic.I.
  - destruct Hm as [Hf Hk']. split; [exact Hf|]. intros y. now apply IH.
  - intros y. now apply IH.
Qed.

Lemma guarantees_tryCatch {R : Type} (m : Async R) (h : string -> Async R) :
  guarantees Rl m -> (forall e, guarantees Rl (h e)) -> guarantees Rl (tryCatch m h).
Proof.
  intros Hm Hh. induction m as [r|e| |Y f k' IH|Y rq k' IH];
    cbn [tryCatch guarantees] in *.
  - exact Logic.I.
  - apply Hh.
  - exact Logic.I.
  - destruct Hm as [Hf Hk']. split; [exact Hf|]. intros y. now apply IH.
  - intros y. now apply IH.
Qed.

Lemma guarantees_tryFinally {R : Type} (m : Async R) (g : World -> World) :
  guarantees Rl m -> (forall w, Rl w (g w)) -> guarantees Rl (tryFinally m g).
Proof.
  intros Hm Hg. induction m as [r|e| |Y f k' IH|Y rq k' IH];
    cbn [tryFinally guarantees] in *.
  - split; [exact Hg | intros _; exact Logic.I].
  - split; [exact Hg | intros _; exact Logic.I].
  - exact Logic.I.
  - destruct Hm as [Hf Hk']. split; [exact Hf|]. intros y. now apply IH.
  - intros y. now apply IH.
Qed.

Lemma guarantees_ret {R : Type} (r : R) : guarantees Rl (Ret r).
Proof. exact Logic.I. Qed.

Lemma guarantees_get {X : Type} (f : World -> X) : guarantees Rl (get f).
Proof. split; [intros w; apply rely_refl | intros x; exact Logic.I]. Qed.

Lemma guarantees_modify (g : World -> World) :
  (forall w, Rl w (g w)) -> guarantees Rl (modify g).
Proof. intros Hg. split; [exact Hg | intros x; exact Logic.I]. Qed.

Lemma guarantees_await {X : Type} (rq : Request X) : guarantees Rl (await rq).
Proof. intros x. exact Logic.I. Qed.

Lemma calm_keeps {R : Type} (m : Async R) : calm I m -> keeps I m.
Proof. intros H w Hw. eapply wp_mono; [|now apply H]. now intros o w' [Hw' _]. Qed.

Lemma calm_ret {R : Type} (r : R) : calm I (Ret r).
Proof. intros w Hw. split; [exact Hw | discriminate]. Qed.

Lemma calm_get {X : Type} (f : World -> X) : calm I (get f).
Proof. intros w Hw. split; [exact Hw | discriminate]. Qed.

Lemma calm_modify (g : World -> World) : (forall w, I w -> I (g w)) -> calm I (modify g).
Proof. intros Hg w Hw. split; [now apply Hg | discriminate]. Qed.

Lemma calm_await {X : Type} (rq : Request X) : calm I (await rq).
Proof.
  intros w Hw. split; [exact Hw|]. intros x w' Hw'. split; [exact Hw' | discriminate].
Qed.

Lemma calm_do {X R : Type} (f : World -> X * World) (k : X -> Async R) :
  (forall w, I w -> I (f w).2) -> (forall x, calm I (k x)) -> calm I (Do f k).
Proof. intros Hf Hk w Hw. cbn [wp]. apply Hk, Hf, Hw. Qed.

Lemma calm_bind {X R : Type} (m : Async X) (k : X -> Async R) :
  calm I m -> (forall x, calm I (k x)) -> calm I (m ≫= k).
Proof.
  intros Hm Hk w Hw. apply wp_bind. eapply wp_mono; [|now apply Hm].
  intros o w' [Hw' Ho]. destruct o as [x|e|]; cbn [andThen].
  - now apply Hk.
  - now destruct (Ho e).
  - split; [exact Hw' | discriminate].
Qed.

Lemma calm_tryCatch {R : Type} (m : Async R) (h : string -> Async R) :
  keeps I m -> (forall e, calm I (h e)) -> calm I (tryCatch m h).
Proof.
  intros Hm Hh w Hw. apply wp_tryCatch. eapply wp_mono; [|now apply Hm].
  intros o w' Hw'. destruct o as [x|e|]; cbn [orCatch].
  - split; [exact Hw' | discriminate].
  - now apply Hh.
  - split; [exact Hw' | discriminate].
Qed.

Lemma calm_tryFinally {R : Type} (m : Async R) (g : World -> World) :
  calm I m -> (forall w, I w -> I (g w)) -> calm I (tryFinally m g).
Proof.
  intros Hm Hg w Hw. apply wp_tryFinally. eapply wp_mono; [|now apply Hm].
  intros o w' [Hw' Ho]. destruct o as [x|e|]; cbn [andFinally].
  - split; [now apply Hg | discriminate].
  - now destruct (Ho e).
  - split; [exact Hw' | discriminate].
Qed.

Lemma answers_inv {X : Type} (rq : Request X) (w : World) (x : X) (w1 : World) :
  I w -> answers rq w x w1 -> I w1.
Proof.
  intros Hw [d ->]. apply inv_time.
  destruct rq; try exact Hw. cbn [effect]. destruct x; [now apply inv_files | exact Hw].
Qed.

Section TidyLoop.

Context {R : Type}.
Variable submitted : Async R -> Prop.
Variable forked : Async bool -> Prop.

Hypothesis submitted_keepsFlag : forall fn, submitted fn -> keepsFlag fn.
Hypothesis forked_keepsFlag : forall t, forked t -> keepsFlag t.
Hypothesis submitted_under : forall fn, submitted fn -> keepsUnder I Rl fn.
Hypothesis forked_keeps : forall t, forked t -> keeps I t.
Hypothesis forked_guarantees : forall t, forked t -> guarantees Rl t.

Lemma tidy_afterTurn (m : Async R) (w : World) :
  resumesUnder I Rl m w ->
  match afterTurn m with
  | Waiting fn => keepsUnder I Rl fn
  | Suspended m' => resumesUnder I Rl m' w
  | Settled _ => True
  end.
Proof. destruct m; cbn; auto. Qed.

(** The jobs other than the one that takes a turn are not suspended. *)
Lemma others_not_suspended (ls : list Label) (l : Loop R) (j : nat) (jb : Job R) :
  Serialized ls l ->
  jobs l !! j = Some jb -> isSettled (state jb) = false ->
  (forall i ji, (i < j)%nat -> jobs l !! i = Some ji -> isSettled (state ji) = true) ->
  forall i ji, i <> j -> jobs l !! i = Some ji -> isSuspended (state ji) = false.
Proof.
  intros Hser Hj Hns Hbefore i ji Hne Hi.
  destruct (Nat.lt_trichotomy i j) as [Hlt|[Heq|Hgt]]; [|contradiction|].
  - pose proof (Hbefore i ji Hlt Hi) as Hs. now destruct (state ji).
  - destruct (isWaiting (state ji)) eqn:Hw; [now destruct (state ji)|].
    pose proof (ser_order _ _ Hser j i jb ji Hgt Hj Hi Hw). congruence.
Qed.

Lemma tidy_turn (ls : list Label) (l : Loop R) (j : nat) (jb : Job R) (m : Async R)
    (w' : World) :
  Serialized ls l -> Tidy I Rl l ->
  jobs l !! j = Some jb -> isSettled (state jb) = false ->
  (forall i ji, (i < j)%nat -> jobs l !! i = Some ji -> isSettled (state ji) = true) ->
  I w' -> resumesUnder I Rl m w' ->
  Tidy I Rl (setJob j (afterTurn m) l w').
Proof.
  intros Hser [Hw Hjobs Hloose] Hj Hns Hbefore Hw' Hm.
  split; cbn [world jobs loose setJob]; [exact Hw'| |exact Hloose].
  intros i ji. rewrite list_lookup_alter. destruct (decide (j = i)) as [<-|Hne].
  - rewrite Hj. intros [= <-]. cbn [state]. now apply tidy_afterTurn.
  - intros Hi. pose proof (Hjobs i ji Hi) as Hji.
    pose proof (others_not_suspended ls l j jb Hser Hj Hns Hbefore i ji
                  (not_eq_sym Hne) Hi) as Hnot.
    destruct (state ji); [exact Hji | discriminate | exact Logic.I].
Qed.

Lemma tidy_aside (l : Loop R) (w' : World) (ts : list (Async bool)) :
  Tidy I Rl l -> I w' -> Rl (world l) w' ->
  (forall i m, ts !! i = Some m ->
     resumesKeeping I m /\
     match m with Await _ k => forall x, guarantees Rl (k x) | _ => True end) ->
  Tidy I Rl {| world := w'; jobs := jobs l; agentOpChain := agentOpChain l; loose := ts |}.
Proof.
  intros [Hw Hjobs Hloose] Hw' Hr Hts.
  split; cbn [world jobs loose]; [exact Hw'| |exact Hts].
  intros j jb Hj. pose proof (Hjobs j jb Hj) as H.
  destruct (state jb); [exact H | now apply (resumesUnder_mono _ (world l)) | exact Logic.I].
Qed.

Lemma tidy_step (ls : list Label) (l : Loop R) (lb : Label) (l' : Loop R) :
  Serialized ls l -> Tidy I Rl l -> step submitted forked l lb l' -> Tidy I Rl l'.
Proof.
  intros Hser Htidy Hstep.
  destruct Hstep as [l fn Hfn|l j jb fn m w' Hj Hst Hdep Ht
                    |l j jb X rq k x w1 m w' Hj Hst Hans Ht
                    |l t m w' Ht Hturn
                    |l i X rq k x w1 m w' Hi Hans Ht
                    |l
                    |l d].
  - destruct Htidy as [Hw Hjobs Hloose].
    split; cbn [world jobs loose withAgentOp]; [exact Hw| |exact Hloose].
    intros j jb Hj. apply lookup_app_Some in Hj as [Hj|[_ Hj]]; [now apply (Hjobs j)|].
    apply list_lookup_singleton_Some in Hj as [_ <-]. cbn. now apply submitted_under.
  - assert (forall i ji, (i < j)%nat -> jobs l !! i = Some ji -> isSettled (state ji) = true)
      as Hbefore.
    { intros i ji Hlt Hi. destruct j as [|j0]; [lia|].
      rewrite (ser_deps _ _ Hser _ _ Hj) in Hdep. cbn [chainSettled] in Hdep.
      unfold jobSettled in Hdep. destruct (jobs l !! j0) as [jp|] eqn:Hj0; [|discriminate].
      destruct (decide (i = j0)) as [->|Hne]; [congruence|].
      apply (ser_order _ _ Hser i j0 ji jp); [lia | exact Hi | exact Hj0|].
      now apply settled_not_waiting. }
    pose proof (tidy_jobs _ _ _ Htidy j jb Hj) as Hfn. rewrite Hst in Hfn.
    destruct (wp_turn_under (agentOp fn) (world l) m w'
                (keepsUnder_agentOp fn Hfn (world l) (tidy_world _ _ _ Htidy)) Ht)
      as [Hw' Hm].
    apply (tidy_turn ls l j jb m w' Hser Htidy Hj); [now rewrite Hst | exact Hbefore | |];
      assumption.
  - assert (forall i ji, (i < j)%nat -> jobs l !! i = Some ji -> isSettled (state ji) = true)
      as Hbefore.
    { intros i ji Hlt Hi. apply (ser_order _ _ Hser i j ji jb Hlt Hi Hj). now rewrite Hst. }
    pose proof (tidy_jobs _ _ _ Htidy j jb Hj) as Hres. rewrite Hst in Hres.
    cbn [resumesUnder] in Hres. destruct Hres as (ws & Hws & Hk).
    pose proof (answers_inv rq (world l) x w1 (tidy_world _ _ _ Htidy) Hans) as Hw1.
    pose proof (rely_trans ws (world l) w1 Hws (rely_answers X rq _ x w1 Hans)) as Hr1.
    destruct (wp_turn_under (k x) w1 m w' (Hk x w1 Hw1 Hr1) Ht) as [Hw' Hm].
    apply (tidy_turn ls l j jb m w' Hser Htidy Hj); [now rewrite Hst | exact Hbefore | |];
      assumption.
  - destruct (wp_turn_keeps I t (world l) m w'
                (forked_keeps t Ht (world l) (tidy_world _ _ _ Htidy)) Hturn) as [Hw' Hm].
    destruct (turn_guarantees t (forked_guarantees t Ht) (world l) m w' Hturn) as [Hr Hg].
    apply tidy_aside; [exact Htidy | exact Hw' | exact Hr|].
    intros i m' Hi. apply lookup_app_Some in Hi as [Hi|[_ Hi]].
    + now apply (tidy_loose _ _ _ Htidy i).
    + apply list_lookup_singleton_Some in Hi as [_ <-]. now split.
  - destruct (tidy_loose _ _ _ Htidy i _ Hi) as [Hres Hgk]. cbn [resumesKeeping] in Hres.
    pose proof (answers_inv rq (world l) x w1 (tidy_world _ _ _ Htidy) Hans) as Hw1.
    destruct (wp_turn_keeps I (k x) w1 m w' (Hres x w1 Hw1) Ht) as [Hw' Hm].
    destruct (turn_guarantees (k x) (Hgk x) w1 m w' Ht) as [Hr Hg].
    apply tidy_aside; [exact Htidy | exact Hw' | |].
    + apply (rely_trans _ w1); [now apply (rely_answers X rq _ x) | exact Hr].
    + intros i' m' Hi'. apply list_lookup_insert_Some in Hi' as [(-> & <- & _)|[_ Hi']].
      * now split.
      * now apply (tidy_loose _ _ _ Htidy i').
  - exact Htidy.
  - apply tidy_aside; [exact Htidy | now apply inv_time, (tidy_world _ _ _ Htidy) | |].
    + apply (rely_answers unit (Sleep 0) (world l) tt). now exists d.
    + exact (tidy_loose _ _ _ Htidy).
Qed.

Lemma tidy_exec (w : World) (ls : list Label) (l : Loop R) :
  I w -> exec submitted forked (idle w) ls l -> Tidy I Rl l.
Proof.
  intros Hw Hex. remember (idle w) as l0 eqn:Hl0.
  induction Hex as [l|l ls l1 lb l2 Hex IH Hstep].
  - subst. split; cbn; [exact Hw| |]; intros; rewrite lookup_nil in *; discriminate.
  - subst l. apply (tidy_step ls l1 lb l2); [|now apply IH | exact Hstep].
    now apply (serialized_exec submitted forked submitted_keepsFlag forked_keepsFlag w).
Qed.

End TidyLoop.

End Rely.

(** ** The runtime flag is off when nothing is tracked *)

Lemma flagOff_kill (h : nat) (sig : Signal) (w : World) :
  flagOffWhenStopped w -> flagOffWhenStopped (killProc h sig w).2.
Proof.
  intros Hw. destruct (killProc_fields h sig w) as (_ & _ & Ha & Hb & _).
  unfold flagOffWhenStopped. rewrite Ha, Hb. exact Hw.
Qed.

Lemma flagOff_spawn (env : Env) (c : Command) (w : World) :
  flagOffWhenStopped w -> flagOffWhenStopped (spawnProc env c w).2.
Proof.
  intros Hw. destruct (spawnProc_fields env c w) as (_ & _ & _ & Ha & Hb & _).
  unfold flagOffWhenStopped. rewrite Ha, Hb. exact Hw.
Qed.

Lemma flagOff_forget (h : nat) (w : World) :
  flagOffWhenStopped w -> flagOffWhenStopped (forgetChild h w).
Proof.
  intros Hw. unfold forgetChild. destruct (bool_decide _); [|exact Hw]. now intros _.
Qed.

Lemma flagOff_baseUrl (u : string) (w : World) :
  flagOffWhenStopped w -> flagOffWhenStopped (setBackendBaseUrlRuntime u w).
Proof. intros Hw. exact Hw. Qed.

Lemma staysStopped_refl (w : World) : staysStopped w w.
Proof. now intros H. Qed.

Lemma staysStopped_trans (w1 w2 w3 : World) :
  staysStopped w1 w2 -> staysStopped w2 w3 -> staysStopped w1 w3.
Proof. intros H12 H23 H. now apply H23, H12. Qed.

Lemma staysStopped_advance (d : N) (w : World) : staysStopped w (advance d w).
Proof. intros H. unfold advance. cbn [agentChild]. rewrite H. now destruct (lifecycleFires _ _). Qed.

Lemma staysStopped_answers (X : Type) (rq : Request X) (w : World) (x : X) (w1 : World) :
  answers rq w x w1 -> staysStopped w w1.
Proof.
  intros [d ->]. apply (staysStopped_trans _ (effect rq x w)); [|apply staysStopped_advance].
  intros H. destruct rq; try exact H. cbn [effect]. now destruct x.
Qed.

Lemma staysStopped_forget (h : nat) (w : World) : staysStopped w (forgetChild h w).
Proof. intros H. unfold forgetChild. now destruct (bool_decide _). Qed.

(** One step of the search for a proof that a program keeps the flag
    off when nothing is tracked. *)
Ltac keeps_off_step :=
  first
    [ assumption
    | progress cbv zeta
    | match goal with
      | H : forall _, _ |- keeps _ _ => solve [apply H]
      | |- keeps _ (Ret _) => apply keeps_ret
      | |- keeps _ (Throw _) => apply keeps_throw
      | |- keeps _ (get _) => apply keeps_get
      | |- keeps _ (await _) => apply keeps_await
      | |- keeps _ (_ ≫= _) => apply keeps_bind; [|intros ?]
      | |- keeps _ (tryCatch _ _) => apply keeps_tryCatch; [|intros ?]
      | |- keeps _ (if ?c then _ else _) => destruct c
      | |- keeps _ (match ?c with _ => _ end) => destruct c
      end ].

Ltac keeps_off := repeat keeps_off_step.

Ltac calm_step :=
  first
    [ assumption
    | progress cbv zeta
    | match goal with
      | H : forall _, _ |- calm _ _ => solve [apply H]
      | |- calm _ (Ret _) => apply calm_ret
      | |- calm _ (get _) => apply calm_get
      | |- calm _ (await _) => apply calm_await
      | |- calm _ (modify (setBackendBaseUrlRuntime _)) =>
          apply calm_modify; intros ? ?; assumption
      | |- calm _ (_ ≫= _) => apply calm_bind; [|intros ?]
      | |- calm _ (tryCatch _ _) => apply calm_tryCatch; [|intros ?]
      | |- calm _ (tryFinally _ (forgetChild _)) =>
          apply calm_tryFinally; [|apply flagOff_forget]
      | |- calm _ (if ?c then _ else _) => destruct c
      | |- calm _ (match ?c with _ => _ end) => destruct c
      end ].

Ltac calm_all := repeat calm_step.

Section FlagOffFacts.

Variable env : Env.

Local Abbreviation Off := flagOffWhenStopped.

Lemma off_readFile (path : string) : keeps Off (readFile path).
Proof. unfold readFile. keeps_off. Qed.

Lemma off_writeFile (path : string) (c : Config) : keeps Off (writeFile path c).
Proof. unfold writeFile. keeps_off. Qed.

Lemma calm_setTelegramEnabledInConfig (path : string) (b : bool) :
  calm Off (setTelegramEnabledInConfig path b).
Proof.
  unfold setTelegramEnabledInConfig, yamlParse.
  pose proof off_readFile. pose proof off_writeFile.
  apply calm_tryCatch; [keeps_off | intros e; apply calm_ret].
Qed.

Lemma calm_readListenFromConfig (path : string) : calm Off (readListenFromConfig path).
Proof.
  unfold readListenFromConfig, yamlParse. pose proof off_readFile.
  apply calm_tryCatch; [keeps_off | intros e; apply calm_ret].
Qed.

Lemma off_spawn (c : Command) : keeps Off (Do (spawnProc env c) Ret).
Proof. apply keeps_do; [intros w; apply flagOff_spawn | intros x; apply keeps_ret]. Qed.

Lemma off_childKill (child : nat) (sig : Signal) : keeps Off (childKill child sig).
Proof.
  unfold childKill. apply keeps_do; [intros w; apply flagOff_kill|].
  intros [|b]; [apply keeps_throw | apply keeps_ret].
Qed.

Lemma calm_waitForExit (child : nat) (ms : N) : calm Off (waitForExit child ms).
Proof. unfold waitForExit. calm_all. Qed.

Lemma off_waitForExit (child : nat) (ms : N) : keeps Off (waitForExit child ms).
Proof. apply calm_keeps, calm_waitForExit. Qed.

Lemma calm_stopAgentProcess : calm Off (stopAgentProcess env).
Proof.
  unfold stopAgentProcess.
  pose proof off_spawn. pose proof off_childKill. pose proof off_waitForExit.
  apply calm_bind; [apply calm_get|]. intros [child|]; [|apply calm_ret].
  apply calm_tryFinally; [|apply flagOff_forget].
  apply calm_tryCatch; [keeps_off | intros e; apply calm_ret].
Qed.

Lemma calm_pollLoop (fuel : nat) (url : string) (child : nat) (t0 T : N) :
  calm Off (pollLoop fuel url child t0 T).
Proof.
  induction fuel as [|n IH]; [intros w Hw; split; [exact Hw | discriminate]|].
  cbn [pollLoop]. apply calm_bind; [apply calm_get|]. intros t.
  destruct (t - t0 <? T)%N; [|apply calm_ret].
  apply calm_bind; [apply calm_get|]. intros c.
  destruct (match c with Some p => notNull (p_exitCode p) | None => true end);
    [apply calm_ret|].
  apply calm_bind.
  - apply calm_tryCatch; [keeps_off | intros e; apply calm_ret].
  - intros [|]; [apply calm_ret|]. calm_all.
Qed.

Lemma calm_waitForBackendReady (url : string) (child : nat) (T : N) :
  calm Off (waitForBackendReady url child T).
Proof. unfold waitForBackendReady. pose proof calm_pollLoop. calm_all. Qed.

Lemma guarantees_waitForExit (child : nat) (ms : N) :
  guarantees staysStopped (waitForExit child ms).
Proof.
  unfold waitForExit. apply guarantees_bind; [apply guarantees_get, staysStopped_refl|].
  intros [p|]; [|exact I]. destruct (_ || _); [exact I | apply guarantees_await].
Qed.

Lemma guarantees_childKill (child : nat) (sig : Signal) :
  guarantees staysStopped (childKill child sig).
Proof.
  unfold childKill. split.
  - intros w H. destruct (killProc_fields child sig w) as (_ & _ & Ha & _). now rewrite Ha.
  - intros [|b]; exact I.
Qed.

Lemma guarantees_stopAgentProcess : guarantees staysStopped (stopAgentProcess env).
Proof.
  pose proof staysStopped_trans as Htrans.
  unfold stopAgentProcess.
  apply guarantees_bind; [apply guarantees_get, staysStopped_refl|].
  intros [child|]; [|exact I].
  apply guarantees_tryFinally; [|apply staysStopped_forget].
  apply guarantees_tryCatch; [|intros e; exact I].
  apply guarantees_bind; [apply guarantees_get, staysStopped_refl|]. intros pid.
  apply guarantees_bind.
  { destruct (win32 env && truthyPid pid).
    - split.
      + intros w H. destruct (spawnProc_fields env (CmdTaskkill (default 0%N pid)) w)
          as (_ & _ & _ & Ha & _). now rewrite Ha.
      + intros killer. apply guarantees_waitForExit.
    - apply guarantees_bind; [apply guarantees_childKill | intros b; exact I]. }
  intros _. apply guarantees_bind; [apply guarantees_waitForExit|]. intros _.
  apply guarantees_bind; [apply guarantees_get, staysStopped_refl|]. intros c.
  apply guarantees_bind; [|intros _; exact I].
  destruct (match c with
            | Some p => negb (notNull (p_exitCode p)) && negb (p_killed p)
            | None => false
            end); [|exact I].
  apply guarantees_bind; [apply guarantees_childKill | intros b; apply guarantees_waitForExit].
Qed.

Local Abbreviation Under := (wp Off (byRely Off staysStopped)).

Lemma setTelegramEnabledInConfig_under (path : string) (b : bool) (w : World) :
  Off w ->
  Under (setTelegramEnabledInConfig path b)
        (fun o w' => (exists r, o = Returned r) /\ Off w' /\ staysStopped w w')
        w.
Proof.
  intros Hw. unfold setTelegramEnabledInConfig, readFile, writeFile.
  apply wp_tryCatch. wp_simpl. split; [exact Hw|]. intros x w1 [Hw1 Hs1].
  destruct x as [[|c]|]; wp_simpl; eauto.
  destruct (Bool.eqb (cfg_telegram_enabled c) b); wp_simpl; eauto.
  split; [exact Hw1|]. intros y w2 [Hw2 Hs2].
  pose proof (staysStopped_trans _ _ _ Hs1 Hs2).
  destruct y; wp_simpl; eauto.
Qed.

(** A start keeps the invariant; when it throws and nothing was tracked
    at its beginning, nothing is tracked. *)
Lemma startAgentManaged_under (bin cfg : string) (b sync : bool) (w : World) :
  Off w ->
  Under (startAgentManaged env bin cfg b sync)
        (fun o w' => Off w' /\ forall e, o = Thrown e -> staysStopped w w')
        w.
Proof.
  intros Hw. unfold startAgentManaged.
  assert (forall child,
            calm Off (listen ← readListenFromConfig cfg;
                      let baseUrl := BaseUrl.resolveBackendBaseUrl listen in
                      modify (setBackendBaseUrlRuntime baseUrl);;
                      ready ← waitForBackendReady baseUrl child 30000;
                      if negb ready
                      then stopAgentProcess env;; Ret (StartedFailed healthMessage baseUrl)
                      else Ret (StartedOk baseUrl))) as Hrest.
  { intros child. pose proof calm_readListenFromConfig.
    pose proof calm_waitForBackendReady. pose proof calm_stopAgentProcess.
    calm_all. }
  assert (forall w1, Off w1 -> staysStopped w w1 ->
            Under (child ← spawnAgentProcess env bin cfg b;
                   modify (setAgentChild (Some child));;
                   modify (setTelegramEnabledRuntime b);;
                   attachAgentLifecycle child;;
                   listen ← readListenFromConfig cfg;
                   let baseUrl := BaseUrl.resolveBackendBaseUrl listen in
                   modify (setBackendBaseUrlRuntime baseUrl);;
                   ready ← waitForBackendReady baseUrl child 30000;
                   if negb ready
                   then stopAgentProcess env;; Ret (StartedFailed healthMessage baseUrl)
                   else Ret (StartedOk baseUrl))
                  (fun o w' => Off w' /\ forall e, o = Thrown e -> staysStopped w w')
                  w1) as Hspawn.
  { intros w1 Hw1 Hs1.
    assert (forall c,
              Under (child ← Do (spawnProc env c) Ret;
                     modify (setAgentChild (Some child));;
                     modify (setTelegramEnabledRuntime b);;
                     attachAgentLifecycle child;;
                     listen ← readListenFromConfig cfg;
                     let baseUrl := BaseUrl.resolveBackendBaseUrl listen in
                     modify (setBackendBaseUrlRuntime baseUrl);;
                     ready ← waitForBackendReady baseUrl child 30000;
                     if negb ready
                     then stopAgentProcess env;; Ret (StartedFailed healthMessage baseUrl)
                     else Ret (StartedOk baseUrl))
                    (fun o w' => Off w' /\ forall e, o = Thrown e -> staysStopped w w')
                    w1) as Hspawned.
    { intros c. unfold attachAgentLifecycle.
      cbn [wp bind get modify mbind async_bind fst snd].
      apply (wp_env_mono Off (byAnyone Off) (byRely Off staysStopped));
        [now intros X rq v x v' [Hv _]|].
      eapply wp_mono; [|apply Hrest].
      - intros o w' [Hw' Ho]. split; [exact Hw'|]. intros e He. now destruct (Ho e).
      - intros Hn. discriminate Hn. }
    unfold spawnAgentProcess. destruct (existsSync env bin); [apply Hspawned|].
    destruct (isPackaged env); [|apply Hspawned].
    cbn [wp bind mbind async_bind]. split; [exact Hw1|]. intros e _. exact Hs1. }
  apply wp_bind. destruct sync.
  - apply wp_bind.
    eapply wp_mono; [|apply setTelegramEnabledInConfig_under; exact Hw].
    intros o w1 ([r ->] & Hw1 & Hs1). cbn [andThen]. wp_simpl. now apply Hspawn.
  - wp_simpl. apply Hspawn; [exact Hw | apply staysStopped_refl].
Qed.

Lemma under_agentStartBody (payload : option StartPayload) :
  keepsUnder Off staysStopped (agentStartBody env payload).
Proof.
  intros w Hw. unfold agentStartBody. wp_simpl.
  destruct (agentChild w) as [h|] eqn:Hh; cbn [notNull]; wp_simpl; [exact Hw|].
  apply wp_tryCatch, wp_bind.
  eapply wp_mono; [|apply startAgentManaged_under; exact Hw].
  intros o w' [Hw' Ho]. destruct o as [s|e|]; cbn [andThen orCatch].
  - destruct s; wp_simpl; exact Hw'.
  - wp_simpl. intros _. cbn [telegramEnabledRuntime setAgentChild].
    apply Hw'. now apply (Ho e).
  - exact Hw'.
Qed.

Lemma off_stopAgentProcess : keeps Off (stopAgentProcess env).
Proof. apply calm_keeps, calm_stopAgentProcess. Qed.

Lemma under_agentStopBody : keepsUnder Off staysStopped (agentStopBody env).
Proof.
  apply keeps_keepsUnder. unfold agentStopBody. pose proof off_stopAgentProcess.
  keeps_off.
Qed.

Lemma under_telegramSetEnabledBody (target : bool) :
  keepsUnder Off staysStopped (telegramSetEnabledBody env target).
Proof.
  intros w Hw. unfold telegramSetEnabledBody. wp_simpl.
  apply wp_tryCatch, wp_bind.
  eapply wp_mono;
    [|exact (keeps_keepsUnder Off staysStopped _ off_stopAgentProcess _ Hw)].
  intros o w1 Hw1. destruct o as [r|e|]; cbn [andThen orCatch]; wp_simpl; try exact Hw1.
  apply wp_bind.
  eapply wp_mono; [|apply startAgentManaged_under; exact Hw1].
  intros o w2 [Hw2 _]. destruct o as [s|e|]; cbn [andThen orCatch]; wp_simpl; try exact Hw2.
  destruct (startedOk s); cbn [negb]; wp_simpl; [exact Hw2|].
  apply wp_bind.
  eapply wp_mono; [|apply startAgentManaged_under; exact Hw2].
  intros o w3 [Hw3 _]. destruct o as [s'|e|]; cbn [andThen orCatch]; wp_simpl; try exact Hw3.
  destruct (startedOk s'); wp_simpl; exact Hw3.
Qed.

Lemma under_ensureBackendStartedBody :
  keepsUnder Off staysStopped (ensureBackendStartedBody env).
Proof.
  intros w Hw. unfold ensureBackendStartedBody. wp_simpl.
  destruct (notNull (agentChild w)); wp_simpl; [exact Hw|].
  apply wp_bind.
  eapply wp_mono; [|apply startAgentManaged_under; exact Hw].
  intros o w1 [Hw1 _]. destruct o as [s|e|]; cbn [andThen]; try exact Hw1.
  destruct (startedOk s); cbn [negb]; wp_simpl; [exact Hw1|].
  apply wp_bind.
  eapply wp_mono;
    [|exact (keeps_keepsUnder Off staysStopped _
               (calm_keeps Off _ (calm_setTelegramEnabledInConfig _ false)) _ Hw1)].
  intros o w2 Hw2. destruct o as [r|e|]; cbn [andThen]; try exact Hw2.
  apply wp_bind.
  eapply wp_mono; [|apply startAgentManaged_under; exact Hw2].
  intros o w3 [Hw3 _]. destruct o as [s'|e|]; cbn [andThen]; wp_simpl; exact Hw3.
Qed.

Lemma under_handlerBody (h : Handler) :
  keepsUnder Off staysStopped (handlerBody env h).
Proof.
  intros w Hw. destruct h as [[payload| |target]|]; cbn [handlerBody operationBody].
  - apply wp_bind. eapply wp_mono; [|apply under_agentStartBody; exact Hw].
    intros o w' Hw'. destruct o; cbn [andThen]; exact Hw'.
  - apply wp_bind. eapply wp_mono; [|apply under_agentStopBody; exact Hw].
    intros o w' Hw'. destruct o; cbn [andThen]; exact Hw'.
  - apply wp_bind. eapply wp_mono; [|apply under_telegramSetEnabledBody; exact Hw].
    intros o w' Hw'. destruct o; cbn [andThen]; exact Hw'.
  - apply wp_bind. eapply wp_mono; [|apply under_ensureBackendStartedBody; exact Hw].
    intros o w' Hw'. destruct o; cbn [andThen]; exact Hw'.
Qed.

(** The runtime flag is off when nothing is tracked, in every state of
    the event loop. *)
Lemma flagOff_exec (t : N) (fs : gmap string FileContent) (ls : list Label)
    (l : Loop (option Reply)) :
  exec (isHandler env) (isQuitStop env) (idle (initialWorld t fs)) ls l ->
  flagOffWhenStopped (world l).
Proof.
  intros Hex.
  apply (tidy_world _ _ _
           (tidy_exec Off staysStopped staysStopped_refl staysStopped_trans
              staysStopped_answers flagOffWhenStopped_advance
              (fun fs' w H => H) (fun b w H => H)
              (isHandler env) (isQuitStop env)
              (isHandler_keepsFlag env) (isQuitStop_keepsFlag env)
              (fun fn '(ex_intro _ h Hh) => eq_ind_r _ (under_handlerBody h) Hh)
              (fun q Hq => eq_ind_r _ (calm_keeps Off _ calm_stopAgentProcess) Hq)
              (fun q Hq => eq_ind_r _ guarantees_stopAgentProcess Hq)
              (initialWorld t fs) ls l (fun _ => eq_refl) Hex)).
Qed.

End FlagOffFacts.


